(** * reconPoint: the agent crew core (registry, tool-call loop, worker pool,
      orchestrator) as a shallow embedding.

    Sources embedded here:
      - web/ai_agents/agents/models.py        (AgentStatus, AgentWorker)
      - web/ai_agents/agents/registry.py      (IntelligenceRegistry)
      - web/ai_agents/agents/base_agent.py    (BaseAgent.run)
      - web/ai_agents/agents/worker_pool.py   (WorkerPool)
      - web/ai_agents/agents/orchestrator.py  (CrewOrchestrator)

    Conventions.  Python objects that the code mutates become explicit state:
    the Django cache, the clock it reads, the event sink, the log of tool
    executions.  A coroutine is a function on that state; where several
    coroutines run under [asyncio.gather] the order in which they run is an
    explicit schedule.  Python exceptions are values of a result type. *)

From Stdlib Require Import ZArith Lia.
From stdpp Require Import base option list gmap strings pretty sorting.

Set Warnings "-register-all".
Local Open Scope Z_scope.

(** ** Strings *)

(** [s[:n]] on a Python string.  A [string] stands for the sequence of the
    code points of the Python string, one character each. *)
Fixpoint str_take (n : nat) (s : string) : string :=
  match n, s with
  | O, _ => ""
  | S _, EmptyString => ""
  | S n', String c s' => String c (str_take n' s')
  end.

(** [sep.join(parts)]. *)
Fixpoint str_join (sep : string) (parts : list string) : string :=
  match parts with
  | [] => ""
  | [p] => p
  | p :: rest => p +:+ sep +:+ str_join sep rest
  end.

(** Truthiness of a Python [str]. *)
Definition str_truthy (s : string) : bool :=
  match s with EmptyString => false | _ => true end.

(** [a or b] on strings. *)
Definition str_or (a b : string) : string := if str_truthy a then a else b.

(** Truthiness of [Optional[str]]: [None] and [""] are both falsy. *)
Definition opt_str_truthy (o : option string) : bool :=
  match o with Some s => str_truthy s | None => false end.

(** [x in xs] for a list of strings. *)
Definition str_in (x : string) (xs : list string) : bool :=
  bool_decide (x ∈ xs).

(** ** JSON values

    Tool arguments, event payloads and cached values are JSON-serialisable
    Python values.  A [dict] keeps its insertion order, as in Python. *)

Inductive Json : Type :=
| JNull
| JBool (b : bool)
| JNum (n : Z)
| JStr (s : string)
| JArr (items : list Json)
| JObj (fields : list (string * Json)).

(** [d.get(k)] on an insertion-ordered dict. *)
Fixpoint assoc_get {V : Type} (k : string) (d : list (string * V)) : option V :=
  match d with
  | [] => None
  | (k', v) :: rest => if decide (k = k') then Some v else assoc_get k rest
  end.

Definition str_le (a b : string) : Prop := String.leb a b = true.

Global Instance str_le_dec : RelDecision str_le.
Proof. intros a b. unfold str_le. apply _. Defined.

(** [sorted(d.keys())]. *)
Definition sorted_keys {V : Type} (d : list (string * V)) : list string :=
  merge_sort str_le (d.*1).

(** The character that delimits a JSON string. *)
Definition dquote : string := String (Ascii.ascii_of_nat 34) "".

(** [json.dumps(value, sort_keys=sort_keys)]: with [sort_keys] the fields of
    every object are written in the order of their sorted keys, each key with
    the value the dict holds for it; without, in insertion order.  Numbers
    are integers, and a string is written between quotes as it is: the
    escapes of [json.dumps] are not modelled, so what is proved of the
    output is stated for equal inputs giving equal outputs. *)
Fixpoint json_dumps (sort_keys : bool) (j : Json) : string :=
  match j with
  | JNull => "null"
  | JBool true => "true"
  | JBool false => "false"
  | JNum n => pretty n
  | JStr s => dquote +:+ s +:+ dquote
  | JArr items =>
      "[" +:+ str_join ", " (map (json_dumps sort_keys) items) +:+ "]"
  | JObj fields =>
      let rendered :=
        map (fun '(k, v) => (k, json_dumps sort_keys v)) fields in
      "{" +:+ str_join ", "
                (map (fun k => dquote +:+ k +:+ dquote +:+ ": " +:+
                               default "" (assoc_get k rendered))
                     (if sort_keys then sorted_keys rendered else rendered.*1))
          +:+ "}"
  end.

(** Truthiness of a JSON-like Python value. *)
Definition json_truthy (j : Json) : bool :=
  match j with
  | JNull => false
  | JBool b => b
  | JNum n => negb (n =? 0)
  | JStr s => str_truthy s
  | JArr items => match items with [] => false | _ => true end
  | JObj fields => match fields with [] => false | _ => true end
  end.

(** [d.get(k)] is truthy. *)
Definition get_truthy (k : string) (d : list (string * Json)) : bool :=
  match assoc_get k d with Some v => json_truthy v | None => false end.

(** [d.get(k) == s] for a string [s]. *)
Definition get_is (k s : string) (d : list (string * Json)) : bool :=
  match assoc_get k d with
  | Some (JStr v) => bool_decide (v = s)
  | _ => false
  end.

(** ** models.py *)

Module CrewState.
(** State of the crew orchestrator. *)
Inductive t : Set := IDLE | RUNNING | COMPLETE | ERROR.
End CrewState.

Module AgentStatus.
(** Status of a worker agent. *)
Inductive t : Set :=
  | PENDING
  | RUNNING
  | COMPLETE
  | WARNING    (* Completed but hit max iterations *)
  | ERROR
  | FAILED     (* Task determined infeasible *)
  | CANCELLED.

Global Instance eq_dec : EqDecision t.
Proof. solve_decision. Defined.

(** The enum member's [.value]. *)
Definition value (s : t) : string :=
    match s with
    | PENDING => "pending"
    | RUNNING => "running"
    | COMPLETE => "complete"
    | WARNING => "warning"
    | ERROR => "error"
    | FAILED => "failed"
    | CANCELLED => "cancelled"
    end.

(** [AgentStatus(v)]: lookup by value; [None] stands for the [ValueError]
    Python raises on a string that is no member's value. *)
Definition of_value (v : string) : option t :=
    if decide (v = "pending") then Some PENDING
    else if decide (v = "running") then Some RUNNING
    else if decide (v = "complete") then Some COMPLETE
    else if decide (v = "warning") then Some WARNING
    else if decide (v = "error") then Some ERROR
    else if decide (v = "failed") then Some FAILED
    else if decide (v = "cancelled") then Some CANCELLED
    else None.

(** The statuses in which a worker's lifecycle ends. *)
Definition terminal (s : t) : bool :=
    match s with
    | COMPLETE | WARNING | FAILED | ERROR | CANCELLED => true
    | PENDING | RUNNING => false
    end.
End AgentStatus.

(** The dict [AgentWorker.to_dict] builds, which is what the registry
    stores.  The status travels as the enum's string value; timestamps are
    seconds on the model's clock. *)
Module WorkerDict.
Record t : Type := mk {
    id : string;
    task : string;
    status : string;
    priority : Z;
    depends_on : list string;
    result : option string;
    error : option string;
    tools_used : list string;
    started_at : option Z;
    completed_at : option Z;
  }.
End WorkerDict.

Module AgentWorker.
(** A worker agent managed by the crew. *)
Record t : Type := mk {
    id : string;
    task : string;
    status : AgentStatus.t;
    priority : Z;
    depends_on : list string;
    result : option string;
    error : option string;
    tools_used : list string;
    started_at : option Z;
    completed_at : option Z;
  }.

(** The dataclass constructor with its defaults. *)
Definition new (id task : string) (priority : Z) (depends_on : list string) : t :=
    mk id task AgentStatus.PENDING priority depends_on None None [] None None.

Definition set_status (s : AgentStatus.t) (w : t) : t :=
    mk (id w) (task w) s (priority w) (depends_on w) (result w) (error w)
       (tools_used w) (started_at w) (completed_at w).
Definition set_result (r : option string) (w : t) : t :=
    mk (id w) (task w) (status w) (priority w) (depends_on w) r (error w)
       (tools_used w) (started_at w) (completed_at w).
Definition set_error (e : option string) (w : t) : t :=
    mk (id w) (task w) (status w) (priority w) (depends_on w) (result w) e
       (tools_used w) (started_at w) (completed_at w).
Definition set_tools_used (l : list string) (w : t) : t :=
    mk (id w) (task w) (status w) (priority w) (depends_on w) (result w) (error w)
       l (started_at w) (completed_at w).
Definition set_started_at (x : option Z) (w : t) : t :=
    mk (id w) (task w) (status w) (priority w) (depends_on w) (result w) (error w)
       (tools_used w) x (completed_at w).
Definition set_completed_at (x : option Z) (w : t) : t :=
    mk (id w) (task w) (status w) (priority w) (depends_on w) (result w) (error w)
       (tools_used w) (started_at w) x.

(** Convert to dictionary for serialization. *)
Definition to_dict (w : t) : WorkerDict.t :=
    WorkerDict.mk (id w) (task w) (AgentStatus.value (status w)) (priority w)
                  (depends_on w) (result w) (error w) (tools_used w)
                  (started_at w) (completed_at w).

(** Create from dictionary.  [None] is the exception [AgentStatus(...)]
    raises on an unknown status string. *)
Definition from_dict (d : WorkerDict.t) : option t :=
    match AgentStatus.of_value (WorkerDict.status d) with
    | Some st =>
        Some (mk (WorkerDict.id d) (WorkerDict.task d) st (WorkerDict.priority d)
                 (WorkerDict.depends_on d) (WorkerDict.result d) (WorkerDict.error d)
                 (WorkerDict.tools_used d) (WorkerDict.started_at d)
                 (WorkerDict.completed_at d))
    | None => None
    end.
End AgentWorker.

(** ** The Django cache ([django.core.cache.cache])

    A key-value store with a time-to-live per entry.  An entry written at
    time [now] with [timeout] seconds is served while the clock is before
    [now + timeout].  The registry keeps three kinds of value in it: a worker
    dict, the list of worker ids of a project, and a tool's output string.
    The [journal] records every write the store has served, in order, so that
    properties of sequences of writes can be stated; no operation reads it. *)

Inductive CacheValue : Type :=
| VDict (d : WorkerDict.t)
| VList (ids : list string)
| VStr (s : string).

Inductive CacheOp : Type :=
| OpSet (key : string) (v : CacheValue)
| OpDelete (key : string).

Record Cache : Type := mkCache {
  entries : gmap string (CacheValue * Z);
  journal : list CacheOp;
}.

Definition empty_cache : Cache := mkCache ∅ [].

(** Django's [DEFAULT_TIMEOUT] when a backend sets no [TIMEOUT]. *)
Definition DEFAULT_TIMEOUT : Z := 300.

(** [cache.get(key)]: [None] when the key is absent or has expired. *)
Definition cache_get (now : Z) (c : Cache) (key : string) : option CacheValue :=
  match entries c !! key with
  | Some (v, expires) => if decide (now < expires) then Some v else None
  | None => None
  end.

(** [cache.set(key, value, timeout=timeout)]. *)
Definition cache_set (now : Z) (key : string) (v : CacheValue) (timeout : Z)
    (c : Cache) : Cache :=
  mkCache (<[key := (v, now + timeout)]> (entries c)) (journal c ++ [OpSet key v]).

(** [cache.delete(key)]. *)
Definition cache_delete (key : string) (c : Cache) : Cache :=
  mkCache (delete key (entries c)) (journal c ++ [OpDelete key]).

(** [cache.get(set_key, [])] where the key holds a list of ids.  The
    registry's key spaces are disjoint, so no other shape is stored there. *)
Definition cache_get_list (now : Z) (c : Cache) (key : string) : list string :=
  match cache_get now c key with
  | Some (VList ids) => ids
  | _ => []
  end.

(** ** registry.py: IntelligenceRegistry *)

Module IntelligenceRegistry.

Definition _gen_key (prefix identifier : string) : string :=
    "ai_crew:" +:+ prefix +:+ ":" +:+ identifier.

Definition worker_key (project_id : nat) (worker_id : string) : string :=
    _gen_key ("workers:" +:+ pretty project_id) worker_id.

Definition list_key (project_id : nat) : string :=
    _gen_key "worker_list" (pretty project_id).

(** Register or update worker metadata. *)
Definition set_worker (now : Z) (project_id : nat) (worker_id : string)
      (data : WorkerDict.t) (timeout : Z) (c : Cache) : Cache :=
    let key := worker_key project_id worker_id in
    let c := cache_set now key (VDict data) timeout c in
    (* Also track the worker in a project-specific list for easy listing *)
    let set_key := list_key project_id in
    let current_list := cache_get_list now c set_key in
    if str_in worker_id current_list then c
    else cache_set now set_key (VList (current_list ++ [worker_id])) timeout c.

(** Retrieve worker metadata. *)
Definition get_worker (now : Z) (project_id : nat) (worker_id : string)
      (c : Cache) : option WorkerDict.t :=
    match cache_get now c (worker_key project_id worker_id) with
    | Some (VDict d) => Some d
    | _ => None
    end.

(** [current_list.remove(worker_id)]: drops the first occurrence. *)
Fixpoint list_remove (x : string) (l : list string) : list string :=
    match l with
    | [] => []
    | y :: r => if decide (x = y) then r else y :: list_remove x r
    end.

(** Remove worker from registry. *)
Definition delete_worker (now : Z) (project_id : nat) (worker_id : string)
      (c : Cache) : Cache :=
    let c := cache_delete (worker_key project_id worker_id) c in
    let set_key := list_key project_id in
    let current_list := cache_get_list now c set_key in
    if str_in worker_id current_list
    then cache_set now set_key (VList (list_remove worker_id current_list))
                   DEFAULT_TIMEOUT c
    else c.

(** List all registered workers for a project: read the id list, then each
    id's record, skipping the ids whose record is gone. *)
Definition get_all_workers (now : Z) (project_id : nat) (c : Cache)
      : gmap string WorkerDict.t :=
    let worker_ids := cache_get_list now c (list_key project_id) in
    foldl (fun results wid =>
             match get_worker now project_id wid c with
             | Some data => <[wid := data]> results
             | None => results
             end) ∅ worker_ids.

Definition TOOL_TIMEOUT : Z := 3600.
Definition WORKER_TIMEOUT : Z := 3600.

(** Store a tool result in the intelligence cache. *)
Definition cache_tool_result (now : Z) (hash_key result : string) (c : Cache)
      : Cache :=
    cache_set now (_gen_key "tool_cache" hash_key) (VStr result) TOOL_TIMEOUT c.

(** Retrieve a tool result from the intelligence cache. *)
Definition get_tool_result (now : Z) (hash_key : string) (c : Cache)
      : option string :=
    match cache_get now c (_gen_key "tool_cache" hash_key) with
    | Some (VStr s) => Some s
    | _ => None
    end.

(** Generate a deterministic hash for a tool call.  [sha256] is
    [hashlib.sha256(...).hexdigest()], taken as given. *)
Definition generate_tool_hash (sha256 : string → string)
      (agent_role tool_name : string) (arguments : Json) (context : string)
      : string :=
    let args_str := json_dumps true arguments in
    let raw := agent_role +:+ "|" +:+ tool_name +:+ "|" +:+ args_str +:+ "|" +:+ context in
    sha256 raw.

End IntelligenceRegistry.

(** ** The state the coroutines act on

    [runtime] is the sandbox the tools run against, [executions] lists every
    call of a tool's [execute] that has been made, [events] what the pool
    handed to [on_worker_event], [broadcasts] what the orchestrator sent to
    the channel layer.  The event sink accepts every message. *)

Record World {RT : Type} : Type := mkWorld {
  cache : Cache;
  clock : Z;
  runtime : RT;
  executions : list (string * Json);
  events : list (string * string * Json);
  broadcasts : list Json;
}.
Arguments World : clear implicits.
Arguments mkWorld {RT} _ _ _ _ _ _.

Section world_ops.
Context {RT : Type}.
Implicit Type w : World RT.

Definition put_cache (c : Cache) w : World RT :=
    mkWorld c (clock w) (runtime w) (executions w) (events w) (broadcasts w).
Definition put_runtime (r : RT) w : World RT :=
    mkWorld (cache w) (clock w) r (executions w) (events w) (broadcasts w).
(** Time that passes while a coroutine is suspended. *)
Definition elapse (d : nat) w : World RT :=
    mkWorld (cache w) (clock w + Z.of_nat d) (runtime w) (executions w)
            (events w) (broadcasts w).
Definition log_execution (name : string) (args : Json) w : World RT :=
    mkWorld (cache w) (clock w) (runtime w) (executions w ++ [(name, args)])
            (events w) (broadcasts w).
Definition log_event (worker_id event : string) (data : Json) w : World RT :=
    mkWorld (cache w) (clock w) (runtime w) (executions w)
            (events w ++ [(worker_id, event, data)]) (broadcasts w).
Definition log_broadcast (data : Json) w : World RT :=
    mkWorld (cache w) (clock w) (runtime w) (executions w) (events w)
            (broadcasts w ++ [data]).
End world_ops.

(** What a call that may raise produced: its value, or [str(e)] of the
    exception. *)
Inductive Outcome (A : Type) : Type :=
| Returned (a : A)
| Raised (e : string).
Arguments Returned {A} a.
Arguments Raised {A} e.

(** A tool: [name] and [execute(arguments, runtime)], which takes some time,
    may change the runtime, and returns a string or raises. *)
Module Tool.
Record t {RT : Type} : Type := mk {
    name : string;
    execute : Json → RT → nat * Outcome string * RT;
  }.
Arguments t : clear implicits.
Arguments mk {RT} _ _.
End Tool.

(** ** base_agent.py *)

Module ToolCall.
(** Represents a tool call from the LLM. *)
Record t : Type := mk {
    id : string;
    name : string;
    arguments : Json;
  }.
End ToolCall.

Module ToolResult.
(** Result from a tool execution. *)
Record t : Type := mk {
    tool_call_id : string;
    tool_name : string;
    result : option string;
    error : option string;
    success : bool;
  }.
End ToolResult.

Module Metadata.
(** The flags read from a message's [metadata] dict; an absent key reads
    as [False]. *)
Record t : Type := mk {
    intermediate : bool;
    max_iterations_reached : bool;
    replan_impossible : bool;
  }.
Definition empty : t := mk false false false.
End Metadata.

Module AgentMessage.
(** A message in the agent conversation.  [usage] is [None] when the
    attribute is falsy ([None] or an empty dict) and [Some t] for a dict with
    entries, [t] being its [total_tokens] (0 when that key is missing). *)
Record t : Type := mk {
    role : string;
    content : option string;
    tool_calls : option (list ToolCall.t);
    tool_results : option (list ToolResult.t);
    metadata : Metadata.t;
    usage : option Z;
  }.
End AgentMessage.

(** Truthiness of an optional list: [None] and [[]] are falsy. *)
Definition opt_list_truthy {A : Type} (o : option (list A)) : bool :=
  match o with Some (_ :: _) => true | _ => false end.

Definition opt_list {A : Type} (o : option (list A)) : list A := default [] o.

(** [a or b] where [a : Optional[str]]. *)
Definition opt_str_or (a b : option string) : option string :=
  if opt_str_truthy a then a else b.

Module LLMResponse.
(** What [llm.generate] returns, as far as the loops read it. *)
Record t {TC : Type} : Type := mk {
    content : option string;
    tool_calls : option (list TC);
    usage : option Z;
  }.
Arguments t : clear implicits.
Arguments mk {TC} _ _ _.
End LLMResponse.

Module BaseAgent.
Section defs.
Context {RT : Type}.

(** [hashlib.sha256(raw.encode()).hexdigest()]. *)
Variable sha256 : string → string.
(** [tools.registry.get_tool]. *)
Variable get_tool : string → option (Tool.t RT).

(** An agent: the name of its class, its system prompt (which the
    subclass computes from the conversation and the runtime), the model
    client (for each transcript: how long the call takes and what it
    returns or raises), the iteration bound, the conversation so far. *)
Record t : Type := mk {
    class_name : string;
    get_system_prompt : list AgentMessage.t → RT → string;
    generate : string → list AgentMessage.t
               → nat * Outcome (LLMResponse.t ToolCall.t);
    max_iterations : nat;
    conversation_history : list AgentMessage.t;
  }.

Definition append_history (m : AgentMessage.t) (a : t) : t :=
    mk (class_name a) (get_system_prompt a) (generate a) (max_iterations a)
       (conversation_history a ++ [m]).

Definition system_prompt (a : t) (w : World RT) : string :=
    get_system_prompt a (conversation_history a) (runtime w).

(** The cache key of a tool call issued by agent [a]. *)
Definition tool_hash (a : t) (tc : ToolCall.t) (w : World RT) : string :=
    IntelligenceRegistry.generate_tool_hash sha256
      (class_name a) (ToolCall.name tc) (ToolCall.arguments tc)
      (str_take 500 (system_prompt a w)).

(** [str(e)] of the [NameError] that the use of [logger] raises: the
    module imports [logging] and binds no name [logger]. *)
Definition logger_unbound : string := "name 'logger' is not defined".

(** One round of the [for tc in response.tool_calls] loop, up to the
    [ToolResult].  On a cache hit the first statement of the branch is
    [logger.info(...)], which raises before the result is built. *)
Definition run_tool_call (a : t) (tc : ToolCall.t) (w : World RT)
      : Outcome ToolResult.t * World RT :=
    (* Check Cache *)
    let h := tool_hash a tc w in
    let cached_result := IntelligenceRegistry.get_tool_result (clock w) h (cache w) in
    if opt_str_truthy cached_result then
      (Raised logger_unbound, w)
    else
      match get_tool (ToolCall.name tc) with
      | Some tool =>
          let w := log_execution (ToolCall.name tc) (ToolCall.arguments tc) w in
          let '(d, out, r) := Tool.execute tool (ToolCall.arguments tc) (runtime w) in
          let w := elapse d (put_runtime r w) in
          match out with
          | Returned result =>
              let c := IntelligenceRegistry.cache_tool_result (clock w) h result (cache w) in
              (Returned (ToolResult.mk (ToolCall.id tc) (ToolCall.name tc)
                                       (Some result) None true),
               put_cache c w)
          | Raised e =>
              (Returned (ToolResult.mk (ToolCall.id tc) (ToolCall.name tc)
                                       None (Some e) false), w)
          end
      | None =>
          (Returned (ToolResult.mk (ToolCall.id tc) (ToolCall.name tc) None
                       (Some ("Tool '" +:+ ToolCall.name tc +:+ "' not found.")) false), w)
      end.

(** The message that carries a tool result. *)
Definition result_message (tool_res : ToolResult.t) : AgentMessage.t :=
    AgentMessage.mk "tool_result"
      (opt_str_or (ToolResult.result tool_res) (ToolResult.error tool_res))
      None (Some [tool_res]) Metadata.empty None.

(** The [for tc in response.tool_calls] loop: the messages it yields, and
    the exception that left it, if one did. *)
Fixpoint run_tool_calls (tcs : list ToolCall.t) (a : t) (w : World RT)
      : list AgentMessage.t * option string * t * World RT :=
    match tcs with
    | [] => ([], None, a, w)
    | tc :: rest =>
        match run_tool_call a tc w with
        | (Raised e, w) => ([], Some e, a, w)
        | (Returned tool_res, w) =>
            let res_msg := result_message tool_res in
            let a := append_history res_msg a in
            let '(msgs, exn, a, w) := run_tool_calls rest a w in
            (res_msg :: msgs, exn, a, w)
        end
    end.

(** How an async generator ended: it ran out, or an exception left it. *)
Inductive Ending : Type :=
  | Exhausted
  | Failed (e : string).

(** The [while iteration < self.max_iterations] loop; [remaining] is
    [max_iterations - iteration].  Returns what the generator yields. *)
Fixpoint run_loop (remaining : nat) (a : t) (w : World RT)
      : list AgentMessage.t * Ending * t * World RT :=
    match remaining with
    | O => ([], Exhausted, a, w)
    | S remaining =>
        let '(d, out) := generate a (system_prompt a w) (conversation_history a) in
        let w := elapse d w in
        match out with
        | Raised e => ([], Failed e, a, w)
        | Returned response =>
            if opt_list_truthy (LLMResponse.tool_calls response) then
              (* Add assistant message with tool calls to history *)
              let assistant_msg :=
                AgentMessage.mk "assistant"
                  (Some (default "" (LLMResponse.content response)))
                  (LLMResponse.tool_calls response) None Metadata.empty None in
              let a := append_history assistant_msg a in
              (* Execute tools *)
              let '(msgs, exn, a, w) :=
                run_tool_calls (opt_list (LLMResponse.tool_calls response)) a w in
              match exn with
              | Some e => (assistant_msg :: msgs, Failed e, a, w)
              | None =>
                  let '(later, ending, a, w) := run_loop remaining a w in
                  (assistant_msg :: msgs ++ later, ending, a, w)
              end
            else
              let msg := AgentMessage.mk "assistant" (LLMResponse.content response)
                           None None Metadata.empty None in
              ([msg], Exhausted, append_history msg a, w)
        end
    end.

(** Main execution loop for the agent. *)
Definition run (initial_message : string) (a : t) (w : World RT)
      : list AgentMessage.t * Ending * t * World RT :=
    let a := append_history
               (AgentMessage.mk "user" (Some initial_message) None None
                                Metadata.empty None) a in
    run_loop (max_iterations a) a w.

End defs.
End BaseAgent.

(** ** worker_pool.py *)

Module StepStatus.
(** Modelled from the spec: [tools.finish.StepStatus] is not among the
    sources; the spec gives a plan step the statuses COMPLETE, SKIP and
    FAIL, and the pool's marker table has a default for any other. *)
Inductive t : Set := COMPLETE | SKIP | FAIL | OTHER.
End StepStatus.

Module PlanStep.
Record t : Type := mk {
    description : string;
    status : StepStatus.t;
    result : option string;
  }.
End PlanStep.

Module Summary.
(** The entry [wait_for] builds for one worker. *)
Record t : Type := mk {
    task : string;
    status : string;
    result : option string;
    error : option string;
    tools_used : list string;
  }.
End Summary.

Module WorkerPool.

(** How the coroutine of a task left: it returned, an exception escaped
    it, or it was cancelled. *)
Inductive TaskOutcome : Type :=
  | TaskReturned
  | TaskRaised (e : string)
  | TaskCancelled.

(** An [asyncio.Task] wrapping [_run_worker(worker)]: still to run to its
    end, or done. *)
Inductive Task : Type :=
  | Scheduled (worker : AgentWorker.t)
  | Done (o : TaskOutcome).

Definition task_done (t : Task) : bool :=
    match t with Done _ => true | Scheduled _ => false end.

(** The pool: the project its runtime belongs to, whether an event
    callback is registered, the task table and the id counter.  The model
    client, tools and sandbox settings it also holds are constants of a
    run; a worker's use of them is given by its [WorkerRun] below. *)
Record t : Type := mk {
    project_id : nat;
    on_worker_event : bool;
    _tasks : gmap string Task;
    _next_id : nat;
  }.

(** [WorkerPool.__init__]. *)
Definition init (project_id : nat) (on_worker_event : bool) : t :=
    mk project_id on_worker_event ∅ 0%nat.

Definition set_tasks (ts : gmap string Task) (p : t) : t :=
    mk (project_id p) (on_worker_event p) ts (_next_id p).

(** How a run of [_run_worker] leaves the code that follows the RUNNING
    write.  Either the set-up of the worker's sandbox and agent, which comes
    before the [try], raises ([DockerRuntime.start] raises [RuntimeError] when
    the container does not start) and the loop is not entered; or the loop
    [agent.agent_loop(task)] is entered and ends under the [try]: it runs
    out, an exception leaves it, or the task is cancelled in it. *)
Inductive LoopEnd : Type :=
  | LoopExhausted
  | LoopRaised (e : string)
  | LoopCancelled
  | StartRaised (e : string).

(** What the surroundings do during one run of a worker: how long the
    sandbox takes to start (or to fail), the messages the agent loop yields
    (each after some time), how the run ends, and the plan the sandbox holds
    then.  With [StartRaised] the loop is not entered and the messages and
    the plan are not looked at. *)
Record WorkerRun : Type := mkRun {
    start_delay : nat;
    responses : list (nat * AgentMessage.t);
    ending : nat * LoopEnd;
    plan : option (list PlanStep.t);
  }.

(** The locals of the [async for] loop. *)
Record LoopState : Type := mkLoop {
    final_response : string;
    hit_max_iterations : bool;
    is_infeasible : bool;
    last_msg_intermediate : bool;
  }.

(** What [_run_worker] came to: suspended on a dependency that has not
    settled; run through the [try] to its end; or left by the exception [e]
    that the set-up before the [try] raised. *)
Inductive RunResult {RT : Type} : Type :=
  | Suspended
  | Settled (worker : AgentWorker.t) (o : TaskOutcome) (w : World RT)
  | Escaped (worker : AgentWorker.t) (e : string) (w : World RT).
Arguments RunResult : clear implicits.

Section defs.
Context {RT : Type}.
Implicit Type w : World RT.

(** Emit event to callback if registered. *)
Definition _emit (p : t) (worker_id event : string) (data : Json) w : World RT :=
    if on_worker_event p then log_event worker_id event data w else w.

(** Generate unique worker ID. *)
Definition _generate_id (p : t) : string * t :=
    let worker_id := "agent-" +:+ pretty (_next_id p) in
    (worker_id, mk (project_id p) (on_worker_event p) (_tasks p) (S (_next_id p))).

(** [IntelligenceRegistry.set_worker(self.project_id, worker.id, worker.to_dict())]. *)
Definition store_worker (p : t) (worker : AgentWorker.t) w : World RT :=
    put_cache (IntelligenceRegistry.set_worker (clock w) (project_id p)
                 (AgentWorker.id worker) (AgentWorker.to_dict worker)
                 IntelligenceRegistry.WORKER_TIMEOUT (cache w)) w.

(** Spawn a new worker agent. *)
Definition spawn (task : string) (priority : Z) (depends_on : option (list string))
      (p : t) w : string * t * World RT :=
    let '(worker_id, p) := _generate_id p in
    let worker := AgentWorker.new worker_id task priority (opt_list depends_on) in
    let w := store_worker p worker w in
    (* Emit spawn event for UI *)
    let w := _emit p worker_id "spawn"
               (JObj [("worker_type", JStr worker_id); ("task", JStr task)]) w in
    (* Start the agent task *)
    let p := set_tasks (<[worker_id := Scheduled worker]> (_tasks p)) p in
    (worker_id, p, w).

(** Wait for dependent workers to complete.  [current] is the id of the
    task that runs the wait.  [true]: every awaited task has settled and
    whatever it raised was swallowed; [false]: the wait is suspended on a
    task that has not settled.  A task awaiting itself gets a
    [RuntimeError] from asyncio, which the handler swallows too.  The wait is
    evaluated anew at each turn of a task that has not got past it; the
    source's loop goes on from the dependency it was suspended on, which
    makes a difference only for a list with more than one id. *)
Fixpoint _wait_for_dependencies (p : t) (current : string)
      (depends_on : list string) : bool :=
    match depends_on with
    | [] => true
    | dep_id :: rest =>
        match _tasks p !! dep_id with
        | Some tk =>
            if decide (dep_id = current) then _wait_for_dependencies p current rest
            else if task_done tk then _wait_for_dependencies p current rest
            else false
        | None => _wait_for_dependencies p current rest
        end
    end.

(** [for tc in response.tool_calls]: track newly used tool names. *)
Fixpoint track_tools (p : t) (tcs : list ToolCall.t) (worker : AgentWorker.t) w
      : AgentWorker.t * World RT :=
    match tcs with
    | [] => (worker, w)
    | tc :: rest =>
        if str_in (ToolCall.name tc) (AgentWorker.tools_used worker) then
          track_tools p rest worker w
        else
          let worker := AgentWorker.set_tools_used
                          (AgentWorker.tools_used worker ++ [ToolCall.name tc]) worker in
          let w := _emit p (AgentWorker.id worker) "tool"
                     (JObj [("tool", JStr (ToolCall.name tc))]) w in
          track_tools p rest worker w
    end.

(** Track tokens (avoid double counting). *)
Definition track_tokens (p : t) (response : AgentMessage.t)
      (worker : AgentWorker.t) (st : LoopState) w : LoopState * World RT :=
    match AgentMessage.usage response with
    | Some total =>
        let is_intermediate := Metadata.intermediate (AgentMessage.metadata response) in
        let has_tools := opt_list_truthy (AgentMessage.tool_calls response) in
        let '(should_count, last) :=
          if is_intermediate then (true, true)
          else if has_tools then (negb (last_msg_intermediate st), false)
          else (true, false) in
        let st := mkLoop (final_response st) (hit_max_iterations st)
                         (is_infeasible st) last in
        if should_count && bool_decide (0 < total)
        then (st, _emit p (AgentWorker.id worker) "tokens"
                        (JObj [("tokens", JNum total)]) w)
        else (st, w)
    | None => (st, w)
    end.

(** The body of [async for response in agent.agent_loop(worker.task)]. *)
Definition on_response (p : t) (response : AgentMessage.t)
      (worker : AgentWorker.t) (st : LoopState) w
      : AgentWorker.t * LoopState * World RT :=
    (* Track tool calls *)
    let '(worker, w) :=
      track_tools p (opt_list (AgentMessage.tool_calls response)) worker w in
    let '(st, w) := track_tokens p response worker st w in
    (* Update worker state in registry periodically (after tool calls) *)
    let w := store_worker p worker w in
    (* Capture final response (text without tool calls) *)
    let final :=
      if opt_str_truthy (AgentMessage.content response)
         && negb (opt_list_truthy (AgentMessage.tool_calls response))
      then default "" (AgentMessage.content response)
      else final_response st in
    (* Check metadata flags *)
    let md := AgentMessage.metadata response in
    let st := mkLoop final
                (hit_max_iterations st || Metadata.max_iterations_reached md)
                (is_infeasible st || Metadata.replan_impossible md)
                (last_msg_intermediate st) in
    (worker, st, w).

Fixpoint consume (p : t) (rs : list (nat * AgentMessage.t))
      (worker : AgentWorker.t) (st : LoopState) w
      : AgentWorker.t * LoopState * World RT :=
    match rs with
    | [] => (worker, st, w)
    | (d, response) :: rest =>
        let '(worker, st, w) := on_response p response worker st (elapse d w) in
        consume p rest worker st w
    end.

Definition status_marker (s : StepStatus.t) : string :=
    match s with
    | StepStatus.COMPLETE => "✓"
    | StepStatus.SKIP => "⊘"
    | StepStatus.FAIL => "✗"
    | StepStatus.OTHER => "·"
    end.

(** Prioritize structured results from the plan over chatty summaries. *)
Definition plan_summary (plan : option (list PlanStep.t)) : string :=
    let steps_with_info :=
      filter (fun s => opt_str_truthy (PlanStep.result s) = true) (opt_list plan) in
    str_join (String (Ascii.ascii_of_nat 10) "")
      (map (fun s => status_marker (PlanStep.status s) +:+ " " +:+
                     PlanStep.description s +:+ ": " +:+
                     str_or (default "" (PlanStep.result s)) "No details")
           steps_with_info).

(** Run a single worker agent.

    The source's success path ends in an [else:] that no [if] precedes;
    its body, [worker.status = AgentStatus.COMPLETE], is the only
    assignment to the status between the loop and the final registry
    write, and it is taken here as it stands.  The flags
    [hit_max_iterations] and [is_infeasible] are computed and read
    nowhere.

    For a plan with steps the source first imports [StepStatus] from
    [...tools.finish]; the summary is given here as the lines after that
    import compute it, and what is proved of a run's result and of its last
    event is stated for sandboxes whose plan has no steps, where the import
    is not reached. *)
Definition _run_worker (p : t) (worker : AgentWorker.t) (run : WorkerRun) w
      : RunResult RT :=
    (* Wait for dependencies *)
    if negb (_wait_for_dependencies p (AgentWorker.id worker)
               (AgentWorker.depends_on worker))
    then Suspended
    else
      let worker := AgentWorker.set_status AgentStatus.RUNNING worker in
      let worker := AgentWorker.set_started_at (Some (clock w)) worker in
      let w := store_worker p worker w in
      let w := _emit p (AgentWorker.id worker) "status"
                 (JObj [("status", JStr "running")]) w in
      (* Create isolated runtime for this worker *)
      let w := elapse (start_delay run) w in
      match snd (ending run) with
      | StartRaised e =>
          (* no handler is around [await worker_runtime.start()] *)
          Escaped worker e w
      | loop_end =>
      (* try: *)
      let '(worker, st, w) :=
        consume p (responses run) worker (mkLoop "" false false false) w in
      let w := elapse (fst (ending run)) w in
      match loop_end with
      | StartRaised e => Escaped worker e w (* not reached *)
      | LoopExhausted =>
          (* Use plan summary if available, otherwise fallback to chat response *)
          let result := str_or (plan_summary (plan run))
                          (str_or (final_response st) "No findings.") in
          let worker := AgentWorker.set_result (Some result) worker in
          let worker := AgentWorker.set_completed_at (Some (clock w)) worker in
          let w := store_worker p worker w in
          let worker := AgentWorker.set_status AgentStatus.COMPLETE worker in
          let w := store_worker p worker w in
          let status := AgentWorker.status worker in
          let w := _emit p (AgentWorker.id worker)
                     (if decide (status = AgentStatus.COMPLETE) then "complete"
                      else AgentStatus.value status)
                     (if decide (status = AgentStatus.FAILED)
                      then JObj [("summary", JStr (str_take 200 result));
                                 ("reason", JStr "Task determined infeasible")]
                      else JObj [("summary", JStr (str_take 200 result))]) w in
          Settled worker TaskReturned w
      | LoopCancelled =>
          let worker := AgentWorker.set_status AgentStatus.CANCELLED worker in
          let worker := AgentWorker.set_completed_at (Some (clock w)) worker in
          let w := _emit p (AgentWorker.id worker) "cancelled" (JObj []) w in
          Settled worker TaskCancelled w
      | LoopRaised e =>
          let worker := AgentWorker.set_error (Some e) worker in
          let worker := AgentWorker.set_status AgentStatus.ERROR worker in
          let worker := AgentWorker.set_completed_at (Some (clock w)) worker in
          let w := store_worker p worker w in
          let w := _emit p (AgentWorker.id worker) "error"
                     (JObj [("error", JStr e)]) w in
          Settled worker TaskReturned w
      end
      end.

(** The event loop giving the task of [worker_id] its turn: the coroutine
    runs from the dependency wait to its end, or stays suspended.  A worker
    writes no registry key but its own record and the id list. *)
Definition run_task (worker_id : string) (run : WorkerRun) (p : t) w
      : t * World RT :=
    match _tasks p !! worker_id with
    | Some (Scheduled worker) =>
        match _run_worker p worker run w with
        | Suspended => (p, w)
        | Settled _ o w' => (set_tasks (<[worker_id := Done o]> (_tasks p)) p, w')
        | Escaped _ e w' =>
            (set_tasks (<[worker_id := Done (TaskRaised e)]> (_tasks p)) p, w')
        end
    | _ => (p, w)
    end.

Definition summary_of (worker : AgentWorker.t) : Summary.t :=
    Summary.mk (AgentWorker.task worker)
               (AgentStatus.value (AgentWorker.status worker))
               (AgentWorker.result worker) (AgentWorker.error worker)
               (AgentWorker.tools_used worker).

(** The loop of [wait_for] over [agent_ids].  [None]: suspended on a task
    that has not settled.  [Some (Raised _)]: [AgentWorker.from_dict]
    raised on a record. *)
Fixpoint wait_for_ids (p : t) w (agent_ids : list string)
      (results : gmap string Summary.t) : option (Outcome (gmap string Summary.t)) :=
    match agent_ids with
    | [] => Some (Returned results)
    | agent_id :: rest =>
        match _tasks p !! agent_id with
        | Some (Scheduled _) => None
        | Some (Done _) =>
            match IntelligenceRegistry.get_worker (clock w) (project_id p)
                    agent_id (cache w) with
            | Some worker_data =>
                match AgentWorker.from_dict worker_data with
                | Some worker =>
                    wait_for_ids p w rest (<[agent_id := summary_of worker]> results)
                | None => Some (Raised "ValueError")
                end
            | None => wait_for_ids p w rest results
            end
        | None => wait_for_ids p w rest results
        end
    end.

(** Wait for specified agents (or all) to complete. *)
Definition wait_for (agent_ids : option (list string)) (p : t) w
      : option (Outcome (gmap string Summary.t)) :=
    let agent_ids :=
      match agent_ids with
      | None => (map_to_list (_tasks p)).*1
      | Some ids => ids
      end in
    wait_for_ids p w agent_ids ∅.

(** Get status of a specific agent. *)
Definition get_status (agent_id : string) (p : t) w : option WorkerDict.t :=
    IntelligenceRegistry.get_worker (clock w) (project_id p) agent_id (cache w).

(** Get status of all agents. *)
Definition get_all_status (p : t) w : gmap string WorkerDict.t :=
    IntelligenceRegistry.get_all_workers (clock w) (project_id p) (cache w).

(** [task.cancel()] and the wait for it, on a task whose coroutine has not
    begun: the task ends cancelled with the worker's record as it is.  A
    task that is suspended in [_wait_for_dependencies] behaves otherwise (it
    hands the cancellation on to the task it awaits and swallows the
    [CancelledError] that comes back, lines 244-247); the table does not tell
    the two apart, so what is proved of a cancellation is stated for workers
    without dependencies, which are never suspended there. *)
Definition cancel_task (tk : Task) : Task :=
    match tk with
    | Scheduled _ => Done TaskCancelled
    | Done o => Done o
    end.

(** Cancel a running agent. *)
Definition cancel (agent_id : string) (p : t) : bool * t :=
    match _tasks p !! agent_id with
    | None => (false, p)
    | Some tk =>
        if task_done tk then (false, p)
        else (true, set_tasks (<[agent_id := cancel_task tk]> (_tasks p)) p)
    end.

(** Cancel all running agents: [cancel_task] on every task of the table,
    with the scope stated there.  (Tasks that wait for each other make
    [task.cancel()] recurse without end in the source.) *)
Definition cancel_all (p : t) : t :=
    set_tasks (cancel_task <$> _tasks p) p.

(** Get all workers.  [None]: [from_dict] raised on a record. *)
Definition get_workers (p : t) w : option (list AgentWorker.t) :=
    mapM AgentWorker.from_dict (map_to_list (get_all_status p w)).*2.

(** Reset the pool for a new task.  The tasks of the table are dropped from
    it and not cancelled; one that has not settled would go on running out of
    the pool's sight, so what is proved of [reset] is stated for pools whose
    tasks have all settled. *)
Definition reset (p : t) w : t * World RT :=
    let now := clock w in
    let set_key := IntelligenceRegistry.list_key (project_id p) in
    let worker_ids := cache_get_list now (cache w) set_key in
    let c := foldl (fun c wid =>
                      IntelligenceRegistry.delete_worker now (project_id p) wid c)
                   (cache w) worker_ids in
    let c := cache_delete set_key c in
    (mk (project_id p) (on_worker_event p) ∅ 0%nat, put_cache c w).

End defs.
End WorkerPool.

(** ** orchestrator.py *)

Module RawToolCall.
(** The [arguments] of a tool call as the model client hands them over: a
    JSON text, a dict, or something else. *)
Inductive Args : Type :=
  | ArgsStr (s : string)
  | ArgsDict (d : Json)
  | ArgsOther.

(** A tool call in either of the shapes the orchestrator accepts: an
    object that may have the attributes [id] and [function] (with [name]
    and [arguments]), a dict that may have the keys ["id"] and
    ["function"] (a dict that may have ["name"] and ["arguments"]), or
    anything else. *)
Inductive t : Type :=
  | Obj (id : option string) (function : option (string * Args))
  | Dict (id : option string) (function : option (option string * option Args))
  | Other.
End RawToolCall.

Module ToolTurn.
(** The dict [execute_tool_call] returns; [error] is [true] where the
    dict has ["error": True]. *)
Record t : Type := mk {
    role : string;
    tool_call_id : string;
    content : string;
    tool_name : string;
    error : bool;
  }.
End ToolTurn.

Module CrewTool.
(** A tool of the crew ([crew_tools.create_crew_tools], not among the
    sources): besides the runtime it reaches the pool it was created with,
    the registry behind it, and the [finish_tokens] attribute the
    orchestrator reads off the pool object. *)
Record t {RT : Type} : Type := mk {
    name : string;
    execute : Json → WorkerPool.t * option Z → World RT
              → nat * Outcome string * (WorkerPool.t * option Z) * World RT;
  }.
Arguments t : clear implicits.
Arguments mk {RT} _ _.
End CrewTool.

Module CrewOrchestrator.

(** The orchestrator: the fields the run reads and writes.
    [finish_tokens] is the attribute of that name on the pool object,
    [None] while nothing has set it; [runtime_project_id] is
    [getattr(runtime, "project_id", 0)], the scope of the pool. *)
Record t : Type := mk {
    project_id : nat;
    runtime_project_id : nat;
    target : string;
    has_worker_callback : bool;
    channel_layer : bool;
    state : CrewState.t;
    pool : option WorkerPool.t;
    finish_tokens : option Z;
    _messages : list (list (string * Json));
  }.

Definition set_state (s : CrewState.t) (o : t) : t :=
    mk (project_id o) (runtime_project_id o) (target o) (has_worker_callback o)
       (channel_layer o) s (pool o) (finish_tokens o) (_messages o).
Definition set_pool (p : option WorkerPool.t) (ft : option Z) (o : t) : t :=
    mk (project_id o) (runtime_project_id o) (target o) (has_worker_callback o)
       (channel_layer o) (state o) p ft (_messages o).
Definition set_messages (ms : list (list (string * Json))) (o : t) : t :=
    mk (project_id o) (runtime_project_id o) (target o) (has_worker_callback o)
       (channel_layer o) (state o) (pool o) (finish_tokens o) ms.
Definition append_message (m : list (string * Json)) (o : t) : t :=
    set_messages (_messages o ++ [m]) o.

(** The [while self._messages] loop of [_cleanup_pending_calls], read from
    the end of the list: [rev_msgs] is the transcript, last message first. *)
Fixpoint cleanup_from_end (rev_msgs : list (list (string * Json)))
      : list (list (string * Json)) :=
    match rev_msgs with
    | [] => []
    | last_msg :: earlier =>
        if get_is "role" "assistant" last_msg && get_truthy "tool_calls" last_msg
        then cleanup_from_end earlier
        else if get_is "role" "tool" last_msg then cleanup_from_end earlier
        else if get_is "role" "user" last_msg then earlier
        else rev_msgs
    end.

(** Remove incomplete tool calls from message history. *)
Definition _cleanup_pending_calls (o : t) : t :=
    set_messages (rev (cleanup_from_end (rev (_messages o)))) o.

(** Cancel the crew run. *)
Definition cancel (o : t) : t :=
    let o := match pool o with
             | Some p => set_pool (Some (WorkerPool.cancel_all p)) (finish_tokens o) o
             | None => o
             end in
    let o := _cleanup_pending_calls o in
    set_state CrewState.IDLE o.

Section defs.
Context {RT : Type}.
Implicit Type w : World RT.

(** [json.loads]; [None] is a [JSONDecodeError]. *)
Variable json_loads : string → option Json.
(** [ORCHESTRATOR_MAX_ITERATIONS] of [config.constants]. *)
Variable ORCHESTRATOR_MAX_ITERATIONS : nat.
(** [crew_tools.create_crew_tools(self.pool, self.llm)]. *)
Variable crew_tools : list (CrewTool.t RT).
(** The model client: for a system prompt and a transcript, how long the
    call takes and what it returns or raises. *)
Variable generate : string → list (list (string * Json))
                      → nat * Outcome (LLMResponse.t RawToolCall.t).
(** [_get_system_prompt], which reads the runtime and the project's notes. *)
Variable _get_system_prompt : t → RT → string.
(** What the spawned worker tasks do to the pool and the registry while
    the orchestrator is suspended in the model call of an iteration. *)
Variable background : nat → WorkerPool.t → World RT → WorkerPool.t * World RT.
(** For the tool calls of one turn, the order in which the coroutines that
    [asyncio.gather] runs get their turns, as indices into the request
    list; each turn takes a coroutine to its next [await] or its end. *)
Variable schedule : list RawToolCall.t → list nat.

(** Broadcast data to the project-specific WebSocket group. *)
Definition broadcast (o : t) (data : Json) w : World RT :=
    if channel_layer o then log_broadcast data w else w.

Definition get_tc_name (tc : RawToolCall.t) : string :=
    match tc with
    | RawToolCall.Obj _ (Some (name, _)) => name
    | RawToolCall.Obj _ None => ""
    | RawToolCall.Dict _ (Some (Some name, _)) => name
    | RawToolCall.Dict _ _ => ""
    | RawToolCall.Other => ""
    end.

Definition get_tc_args (tc : RawToolCall.t) : Json :=
    let args :=
      match tc with
      | RawToolCall.Obj _ (Some (_, args)) => args
      | RawToolCall.Obj _ None => RawToolCall.ArgsStr "{}"
      | RawToolCall.Dict _ (Some (_, Some args)) => args
      | RawToolCall.Dict _ _ => RawToolCall.ArgsStr "{}"
      | RawToolCall.Other => RawToolCall.ArgsStr "{}"
      end in
    match args with
    | RawToolCall.ArgsStr s => default (JObj []) (json_loads s)
    | RawToolCall.ArgsDict d => d
    | RawToolCall.ArgsOther => JObj []
    end.

Definition get_tc_id (tc : RawToolCall.t) : string :=
    match tc with
    | RawToolCall.Obj (Some id) _ => id
    | RawToolCall.Obj None _ => ""
    | RawToolCall.Dict (Some id) _ => id
    | RawToolCall.Dict None _ => ""
    | RawToolCall.Other => ""
    end.

(** [next((t for t in crew_tools if t.name == name), None)]. *)
Definition find_tool (name : string) : option (CrewTool.t RT) :=
    List.find (fun t => bool_decide (CrewTool.name t = name)) crew_tools.

(** The coroutine [execute_tool_call(tc)] up to its first [await]: the
    broadcast of the call. *)
Definition announce_tool_call (o : t) (tc : RawToolCall.t) w : World RT :=
    broadcast o (JObj [("phase", JStr "tool_call"); ("tool", JStr (get_tc_name tc));
                       ("args", get_tc_args tc)]) w.

(** The coroutine [execute_tool_call(tc)] from there to its next [await]
    or, for a name that is not a crew tool, to its [return]: the tool is
    looked up and executed.  Gives the result the coroutine will return and
    the update whose broadcast is still to come ([None] where the coroutine
    has returned). *)
Definition call_tool (tc : RawToolCall.t) (ps : WorkerPool.t * option Z) w
      : ToolTurn.t * option Json * (WorkerPool.t * option Z) * World RT :=
    let tc_name := get_tc_name tc in
    let tc_args := get_tc_args tc in
    let tc_id := get_tc_id tc in
    match find_tool tc_name with
    | None =>
        let error_msg := "Unknown tool: " +:+ tc_name in
        (ToolTurn.mk "tool" tc_id error_msg tc_name true, None, ps, w)
    | Some tool =>
        let w := log_execution tc_name tc_args w in
        let '(d, out, ps, w) := CrewTool.execute tool tc_args ps w in
        let w := elapse d w in
        match out with
        | Returned result =>
            (ToolTurn.mk "tool" tc_id result tc_name false,
             Some (JObj [("phase", JStr "tool_result");
                         ("tool", JStr tc_name);
                         ("result", JStr result)]), ps, w)
        | Raised e =>
            let error_msg := "Error: " +:+ e in
            (ToolTurn.mk "tool" tc_id error_msg tc_name true,
             Some (JObj [("phase", JStr "tool_result");
                         ("tool", JStr tc_name);
                         ("result", JStr error_msg)]), ps, w)
        end
    end.

(** The coroutine [execute_tool_call(tc)] run without a break from its
    first [await] to its [return]. *)
Definition finish_tool_call (o : t) (tc : RawToolCall.t)
      (ps : WorkerPool.t * option Z) w
      : ToolTurn.t * (WorkerPool.t * option Z) * World RT :=
    let '(res, update, ps, w) := call_tool tc ps w in
    (res, ps, match update with Some u => broadcast o u w | None => w end).

(** The coroutine [execute_tool_call(tc)] run without a break. *)
Definition execute_tool_call (o : t) (tc : RawToolCall.t)
      (ps : WorkerPool.t * option Z) w
      : ToolTurn.t * (WorkerPool.t * option Z) * World RT :=
    finish_tool_call o tc ps (announce_tool_call o tc w).

(** Where the coroutine of one requested call stands: not begun, suspended
    in the broadcast of the call, suspended in the broadcast of its result,
    or returned. *)
Inductive CallState : Type :=
  | NotStarted
  | Announced
  | Executed (res : ToolTurn.t) (update : Json)
  | Finished (res : ToolTurn.t).

Definition finished (c : CallState) : option ToolTurn.t :=
    match c with Finished res => Some res | _ => None end.

(** The event loop giving the coroutine of request [i] its turn: it runs to
    its next [await], or to its end, leaving its result in slot [i].  A
    coroutine that has returned, or an index outside the request list, is
    passed over. *)
Definition run_slot (o : t) (calls : list RawToolCall.t) (i : nat)
      (st : list CallState * (WorkerPool.t * option Z) * World RT)
      : list CallState * (WorkerPool.t * option Z) * World RT :=
    let '(slots, ps, w) := st in
    match calls !! i, slots !! i with
    | Some tc, Some NotStarted =>
        (<[i := Announced]> slots, ps, announce_tool_call o tc w)
    | Some tc, Some Announced =>
        let '(res, update, ps, w) := call_tool tc ps w in
        (<[i := match update with
                | Some u => Executed res u
                | None => Finished res
                end]> slots, ps, w)
    | Some tc, Some (Executed res u) =>
        (<[i := Finished res]> slots, ps, broadcast o u w)
    | _, _ => st
    end.

(** [await asyncio.gather(...)] over one [execute_tool_call(tc)] per
    requested call.  The coroutines get their turns in the order [sched],
    one step of one coroutine at a time, so that their steps interleave in
    whatever way [sched] says (asyncio begins them in the order of the
    request; the schedules cover that order and any other); the await
    returns once every coroutine has returned, so what [sched] leaves undone
    runs after it.  The result lists the slots in the order of the request
    list. *)
Definition gather (o : t) (calls : list RawToolCall.t) (sched : list nat)
      (ps : WorkerPool.t * option Z) w
      : list ToolTurn.t * (WorkerPool.t * option Z) * World RT :=
    let '(slots, ps, w) :=
      foldl (fun st i => run_slot o calls i st)
            (replicate (length calls) NotStarted, ps, w)
            (sched ++ seq 0 (length calls) ++ seq 0 (length calls)
                   ++ seq 0 (length calls)) in
    (omap finished slots, ps, w).

(** The entry of an assistant turn's ["tool_calls"] list. *)
Definition tool_call_entry (tc : RawToolCall.t) : Json :=
    JObj [("id", JStr (get_tc_id tc));
          ("type", JStr "function");
          ("function", JObj [("name", JStr (get_tc_name tc));
                             ("arguments", JStr (json_dumps false (get_tc_args tc)))])].

(** The transcript entry made from a result. *)
Definition tool_message (res : ToolTurn.t) : list (string * Json) :=
    [("role", JStr (ToolTurn.role res));
     ("tool_call_id", JStr (ToolTurn.tool_call_id res));
     ("content", JStr (ToolTurn.content res))].

(** [hasattr(self.pool, "finish_tokens") and self.pool.finish_tokens > 0]. *)
Definition finish_tokens_due (ft : option Z) : bool :=
    match ft with Some n => bool_decide (0 < n) | None => false end.

(** [for res in tool_results]: append results to messages in order, with
    the special handling for finish signals in bundles. *)
Fixpoint append_results (tool_results : list ToolTurn.t) (final_report : string)
      (o : t) w : string * t * World RT :=
    match tool_results with
    | [] => (final_report, o, w)
    | res :: rest =>
        let o := append_message (tool_message res) o in
        if bool_decide (ToolTurn.tool_name res = "finish") && negb (ToolTurn.error res)
        then
          let final_report := ToolTurn.content res in
          if finish_tokens_due (finish_tokens o) then
            let w := broadcast o (JObj [("phase", JStr "tokens");
                                        ("tokens", JNum (default 0 (finish_tokens o)))]) w in
            append_results rest final_report (set_pool (pool o) (Some 0) o) w
          else append_results rest final_report o w
        else append_results rest final_report o w
    end.

(** How an iteration of the run loop leaves: to the next iteration, by
    [break], or with an exception. *)
Inductive Flow : Type :=
  | Next
  | Break
  | Throw (e : string).

(** The branch [if response.tool_calls:] of an iteration.  Returns the
    updates it yields. *)
Definition on_tool_calls (response : LLMResponse.t RawToolCall.t)
      (final_report : string) (o : t) w
      : list Json * string * Flow * t * World RT :=
    let calls := opt_list (LLMResponse.tool_calls response) in
    (* If there are tool calls, the content is "thinking" *)
    let '(yields, o, w) :=
      if opt_str_truthy (LLMResponse.content response) then
        let content := default "" (LLMResponse.content response) in
        let update := JObj [("phase", JStr "thinking"); ("content", JStr content)] in
        ([update],
         append_message [("role", JStr "assistant"); ("content", JStr content)] o,
         broadcast o update w)
      else ([], o, w) in
    let o := append_message
               [("role", JStr "assistant");
                ("content", JStr (default "" (LLMResponse.content response)));
                ("tool_calls", JArr (map tool_call_entry calls))] o in
    match pool o with
    | None =>
        (* not reached from [run], which creates the pool the tools hold *)
        (yields, final_report, Throw "AttributeError", o, w)
    | Some p =>
        (* Execute all tool calls in parallel *)
        let '(tool_results, (p, ft), w) :=
          gather o calls (schedule calls) (p, finish_tokens o) w in
        let o := set_pool (Some p) ft o in
        (* Append results to messages in order *)
        let '(final_report, o, w) := append_results tool_results final_report o w in
        (yields, final_report,
         if str_truthy final_report then Break else Next, o, w)
    end.

(** The branch [else:] of an iteration: no tool calls. *)
Definition on_no_tool_calls (response : LLMResponse.t RawToolCall.t)
      (final_report : string) (o : t) w
      : list Json * string * Flow * t * World RT :=
    (* No tool calls - check if agents were spawned *)
    let content := default "" (LLMResponse.content response) in
    let o := if str_truthy content
             then append_message [("role", JStr "assistant"); ("content", JStr content)] o
             else o in
    (* If agents were spawned, call finish to synthesize results.
       Otherwise, use the response directly as final report *)
    match pool o with
    | None => ([], content, Break, o, w)
    | Some p =>
        match WorkerPool.get_workers p w with
        | None => ([], final_report, Throw "ValueError", o, w)
        | Some [] =>
            (* No agents - response is the final answer *)
            ([], content, Break, o, w)
        | Some (_ :: _) =>
            (* Agents exist - call finish to synthesize *)
            let update := JObj [("phase", JStr "thinking"); ("content", JStr content)] in
            let w := broadcast o update w in
            match find_tool "finish" with
            | Some finish_tool =>
                let w := log_execution "finish" (JObj [("context", JStr content)]) w in
                let '(d, out, (p, ft), w) :=
                  CrewTool.execute finish_tool (JObj [("context", JStr content)])
                                   (p, finish_tokens o) w in
                let w := elapse d w in
                let o := set_pool (Some p) ft o in
                match out with
                | Returned report =>
                    (* Track tokens from auto-finish synthesis *)
                    if finish_tokens_due ft then
                      let tokens := JObj [("phase", JStr "tokens");
                                          ("tokens", JNum (default 0 ft))] in
                      ([update; tokens], report, Break,
                       set_pool (Some p) (Some 0) o, broadcast o tokens w)
                    else ([update], report, Break, o, w)
                | Raised e =>
                    let err := JObj [("phase", JStr "error");
                                     ("error", JStr ("Auto-finish failed: " +:+ e))] in
                    ([update; err], final_report, Break, o, broadcast o err w)
                end
            | None => ([update], content, Break, o, w)
            end
        end
    end.

(** The [while iteration < ORCHESTRATOR_MAX_ITERATIONS] loop; [remaining]
    counts the iterations left, [iteration] those begun. *)
Fixpoint run_loop (remaining iteration : nat) (final_report : string) (o : t) w
      : list Json * string * option string * t * World RT :=
    match remaining with
    | O => ([], final_report, None, o, w)
    | S remaining =>
        let '(d, out) := generate (_get_system_prompt o (runtime w)) (_messages o) in
        let '(o, w) :=
          match pool o with
          | Some p => let '(p, w) := background iteration p w in
                      (set_pool (Some p) (finish_tokens o) o, w)
          | None => (o, w)
          end in
        let w := elapse d w in
        match out with
        | Raised e => ([], final_report, Some e, o, w)
        | Returned response =>
            (* Track tokens for orchestrator *)
            let '(tokens, w) :=
              match LLMResponse.usage response with
              | Some total =>
                  if bool_decide (0 < total) then
                    let update := JObj [("phase", JStr "tokens"); ("tokens", JNum total)] in
                    ([update], broadcast o update w)
                  else ([], w)
              | None => ([], w)
              end in
            let '(yields, final_report, flow, o, w) :=
              if opt_list_truthy (LLMResponse.tool_calls response)
              then on_tool_calls response final_report o w
              else on_no_tool_calls response final_report o w in
            match flow with
            | Next =>
                let '(later, final_report, exn, o, w) :=
                  run_loop remaining (S iteration) final_report o w in
                (tokens ++ yields ++ later, final_report, exn, o, w)
            | Break => (tokens ++ yields, final_report, None, o, w)
            | Throw e => (tokens ++ yields, final_report, Some e, o, w)
            end
        end
    end.

(** Run the crew on a task.  Returns the updates the generator yields. *)
Definition run (task : string) (o : t) w : list Json * t * World RT :=
    let o := set_state CrewState.RUNNING o in
    let starting := JObj [("phase", JStr "starting")] in
    let w := broadcast o starting w in
    let o := set_pool (Some (WorkerPool.init (runtime_project_id o)
                                             (has_worker_callback o))) None o in
    let o := set_messages
               [[("role", JStr "user");
                 ("content", JStr ("Target: " +:+ target o +:+
                                   String (Ascii.ascii_of_nat 10)
                                     (String (Ascii.ascii_of_nat 10) "") +:+
                                   "Task: " +:+ task))]] o in
    let '(yields, final_report, exn, o, w) :=
      run_loop ORCHESTRATOR_MAX_ITERATIONS 0%nat "" o w in
    let '(last, o, w) :=
      match exn with
      | None =>
          let o := set_state CrewState.COMPLETE o in
          let update := JObj [("phase", JStr "complete"); ("report", JStr final_report)] in
          (update, o, broadcast o update w)
      | Some e =>
          let o := set_state CrewState.ERROR o in
          let update := JObj [("phase", JStr "error"); ("error", JStr e)] in
          (update, o, broadcast o update w)
      end in
    (* finally: *)
    let o := match pool o with
             | Some p => set_pool (Some (WorkerPool.cancel_all p)) (finish_tokens o) o
             | None => o
             end in
    (starting :: yields ++ [last], o, w).

End defs.
End CrewOrchestrator.

(** ** Histories

    What the properties below are stated over: the statuses written to one
    registry key, and the runs of a pool as sequences of the operations its
    owner and the event loop perform on it. *)

(** The statuses, oldest first, of the worker dicts that [ops] set under
    [key]. *)
Definition status_writes (key : string) (ops : list CacheOp) : list string :=
  omap (fun op => match op with
                  | OpSet k (VDict d) =>
                      if decide (k = key) then Some (WorkerDict.status d) else None
                  | _ => None
                  end) ops.

(** The status string names a terminal status. *)
Definition terminal_value (s : string) : bool :=
  match AgentStatus.of_value s with
  | Some st => AgentStatus.terminal st
  | None => false
  end.

(** No entry after a terminal one differs from it. *)
Definition monotonic (l : list string) : Prop :=
  ∀ (i j : nat) (s s' : string),
    (i < j)%nat → l !! i = Some s → terminal_value s = true →
    l !! j = Some s' → s' = s.

(** [w'] is [w] with more writes served: [l] lists the statuses written
    under [key] in between. *)
Definition writes_between {RT : Type} (key : string) (w w' : World RT)
    (l : list string) : Prop :=
  ∃ news, journal (cache w') = journal (cache w) ++ news
          ∧ status_writes key news = l.

Module PoolOp.
(** What happens to a pool between its construction and a reset: its owner
    spawns or cancels, the event loop gives a task its turn (with whatever
    the model and the tools then do), time passes.  [Cancel] and [CancelAll]
    end tasks that have not begun; the cancellation of a task in its agent
    loop is a [Turn] whose run ends in [LoopCancelled]. *)
Inductive t : Type :=
| Spawn (task : string) (priority : Z) (depends_on : option (list string))
| Turn (worker_id : string) (run : WorkerPool.WorkerRun)
| Cancel (agent_id : string)
| CancelAll
| Elapse (d : nat).

Section defs.
Context {RT : Type}.

Definition exec (op : t) (st : WorkerPool.t * World RT) : WorkerPool.t * World RT :=
  let '(p, w) := st in
  match op with
  | Spawn task priority depends_on =>
      let '(_, p, w) := WorkerPool.spawn task priority depends_on p w in (p, w)
  | Turn worker_id run => WorkerPool.run_task worker_id run p w
  | Cancel agent_id => ((WorkerPool.cancel agent_id p).2, w)
  | CancelAll => (WorkerPool.cancel_all p, w)
  | Elapse d => (p, elapse d w)
  end.

Definition exec_all (ops : list t) (st : WorkerPool.t * World RT)
    : WorkerPool.t * World RT :=
  foldl (fun st op => exec op st) st ops.

End defs.
End PoolOp.

(** * Further definitions

    The rest of the registry, the agent loop, the pool and the orchestrator,
    and what the properties about them are stated with. *)

(** ** Histories of the registry *)

Module RegistryOp.
(** What the pool does to the worker directory of one project: it registers
    or updates a worker, with the registry's default timeout, or removes
    one. *)
Inductive t : Type :=
| SetWorker (worker_id : string) (data : WorkerDict.t)
| DeleteWorker (worker_id : string).

Definition exec (now : Z) (project_id : nat) (c : Cache) (op : t) : Cache :=
  match op with
  | SetWorker worker_id data =>
      IntelligenceRegistry.set_worker now project_id worker_id data
        IntelligenceRegistry.WORKER_TIMEOUT c
  | DeleteWorker worker_id =>
      IntelligenceRegistry.delete_worker now project_id worker_id c
  end.

Definition exec_all (now : Z) (project_id : nat) (ops : list t) (c : Cache) : Cache :=
  foldl (exec now project_id) c ops.
End RegistryOp.

(** The id list and the records of a project agree at time [now]: the list
    has no id twice, and an id is on it exactly when its record is there. *)
Definition directory_consistent (now : Z) (project_id : nat) (c : Cache) : Prop :=
  let listed := cache_get_list now c (IntelligenceRegistry.list_key project_id) in
  NoDup listed
  ∧ ∀ wid, is_Some (IntelligenceRegistry.get_worker now project_id wid c)
           ↔ wid ∈ listed.

(** ** pa_agent.py *)

Module ReconAgentAgent.
Section defs.
Context {RT : Type}.
Variable sha256 : string → string.
Variable get_tool : string → option (Tool.t RT).

(** Main agent execution loop: it hands on what [BaseAgent.run] yields.
    The class is taken as its body defines it, with the prompt of the agent
    as a total function: the module uses [List], [Optional] and
    [AsyncIterator] without importing them. *)
Definition agent_loop (initial_message : string) (a : BaseAgent.t) (w : World RT)
    : list AgentMessage.t * BaseAgent.Ending * BaseAgent.t * World RT :=
  BaseAgent.run sha256 get_tool initial_message a w.

End defs.
End ReconAgentAgent.

(** The names of the events in an event log. *)
Definition event_names (evs : list (string * string * Json)) : list string :=
  (fun e => e.1.2) <$> evs.

(** A message without metadata and without usage. *)
Definition plain (m : AgentMessage.t) : Prop :=
  AgentMessage.metadata m = Metadata.empty ∧ AgentMessage.usage m = None.

(** The id of the call that a tool-result message answers. *)
Definition answered_call (m : AgentMessage.t) : option string :=
  match AgentMessage.tool_results m with
  | Some [r] => Some (ToolResult.tool_call_id r)
  | _ => None
  end.

(** ** More of worker_pool.py *)

Module WorkerPoolMore.
Section defs.
Context {RT : Type}.
Implicit Type w : World RT.

(** Get results from all completed agents: the result of every worker of
    the directory whose record has a non-empty one. *)
Definition get_results (p : WorkerPool.t) w : gmap string string :=
  omap (fun d => match WorkerDict.result d with
                 | Some r => if str_truthy r then Some r else None
                 | None => None
                 end) (WorkerPool.get_all_status p w).

End defs.
End WorkerPoolMore.

(** The statuses that the pool's code writes to the registry. *)
Definition written_status (s : string) : Prop :=
  s = "pending" ∨ s = "running" ∨ s = "complete" ∨ s = "error".

(** The number of spawns among pool operations. *)
Definition count_spawns (ops : list PoolOp.t) : nat :=
  length (filter (fun op => match op with PoolOp.Spawn _ _ _ => true | _ => false end = true) ops).

(** What a message yielded by the agent loop leaves as the final
    response: its content, if it has content and no tool calls. *)
Definition final_text_of (m : AgentMessage.t) : option string :=
  if opt_str_truthy (AgentMessage.content m)
     && negb (opt_list_truthy (AgentMessage.tool_calls m))
  then AgentMessage.content m else None.

(** The tool names of the calls a message carries. *)
Definition called_tools (m : AgentMessage.t) : list string :=
  ToolCall.name <$> opt_list (AgentMessage.tool_calls m).

(** The ids a pool tracks are those its counter has handed out. *)
Definition ids_handed_out (p : WorkerPool.t) : Prop :=
  ∀ wid, is_Some (WorkerPool._tasks p !! wid)
         ↔ ∃ i : nat, (i < WorkerPool._next_id p)%nat ∧ wid = "agent-" +:+ pretty i.


(** The event is one of worker [wid] and its name is among [names]. *)
Definition worker_event (wid : string) (names : list string)
    (e : string * string * Json) : Prop :=
  e.1.1 = wid ∧ e.1.2 ∈ names.

(** The event the pool emits for a tool name it sees for the first time. *)
Definition tool_event (wid name : string) : string * string * Json :=
  (wid, "tool", JObj [("tool", JStr name)]).


(** ** tasks.py *)

Module Tasks.
(** Final state synthesis in [run_crew_ai_analysis]: the report of the
    last update whose phase is [complete], the empty string if there is
    none. *)
Definition final_report_of (results : list Json) : Json :=
  match List.find (fun res => match res with
                              | JObj fields => get_is "phase" "complete" fields
                              | _ => false
                              end) (rev results) with
  | Some (JObj fields) => default (JStr "") (assoc_get "report" fields)
  | _ => JStr ""
  end.
End Tasks.

(** The phase an update announces. *)
Definition update_phase (u : Json) : option string :=
  match u with
  | JObj fields => match assoc_get "phase" fields with
                   | Some (JStr s) => Some s
                   | _ => None
                   end
  | _ => None
  end.

(** An update made while the crew runs. *)
Definition progress_update (u : Json) : Prop :=
  update_phase u = Some "tokens" ∨ update_phase u = Some "thinking"
  ∨ update_phase u = Some "error".

(** A turn of the transcript that [_cleanup_pending_calls] takes for part
    of an unfinished exchange: an assistant turn with tool calls, or a tool
    turn. *)
Definition pending_turn (m : list (string * Json)) : bool :=
  get_is "role" "assistant" m && get_truthy "tool_calls" m || get_is "role" "tool" m.

(** The report a tool result gives the run: the content of a [finish]
    call that did not fail. *)
Definition finish_report (res : ToolTurn.t) : option string :=
  if bool_decide (ToolTurn.tool_name res = "finish") && negb (ToolTurn.error res)
  then Some (ToolTurn.content res) else None.

(** The update that announces the tokens of a [finish] call. *)
Definition finish_tokens_update (ft : option Z) : Json :=
  JObj [("phase", JStr "tokens"); ("tokens", JNum (default 0 ft))].

(** The number of assistant turns with tool calls in a transcript. *)
Definition tool_call_turns (ms : list (list (string * Json))) : nat :=
  length (filter (fun m => get_truthy "tool_calls" m = true) ms).

(** ** Predicates of the statements *)

(** Two argument values that are the same mapping: dicts with the same keys
    and the same value under each key, whatever the order they were built in;
    any other value only itself. *)
Definition same_mapping (a b : Json) : Prop :=
  match a, b with
  | JObj f1, JObj f2 =>
      NoDup f1.*1 ∧ NoDup f2.*1 ∧ ∀ k, assoc_get k f1 = assoc_get k f2
  | _, _ => a = b
  end.

(** What a pool's task table says about the statuses written so far: nothing
    was written for an id it does not track, only PENDING for a task that has
    not run, and the ids the counter has yet to hand out are untracked. *)
Definition tracked_history (p : WorkerPool.t) (news : list CacheOp) : Prop :=
  (∀ wid, WorkerPool._tasks p !! wid = None →
     status_writes (IntelligenceRegistry.worker_key (WorkerPool.project_id p) wid) news = [])
  ∧ (∀ wid wk, WorkerPool._tasks p !! wid = Some (WorkerPool.Scheduled wk) →
       AgentWorker.id wk = wid
       ∧ status_writes (IntelligenceRegistry.worker_key (WorkerPool.project_id p) wid) news
         = ["pending"])
  ∧ (∀ wid o, WorkerPool._tasks p !! wid = Some (WorkerPool.Done o) →
       monotonic (status_writes
                    (IntelligenceRegistry.worker_key (WorkerPool.project_id p) wid) news))
  ∧ (∀ n, (WorkerPool._next_id p ≤ n)%nat →
       WorkerPool._tasks p !! ("agent-" +:+ pretty n) = None).

(** How far the coroutine of a slot has come: the number of turns it has
    had, three at most. *)
Definition progress (c : CrewOrchestrator.CallState) : nat :=
  match c with
  | CrewOrchestrator.NotStarted => 0
  | CrewOrchestrator.Announced => 1
  | CrewOrchestrator.Executed _ _ => 2
  | CrewOrchestrator.Finished _ => 3
  end.

(** The result a slot holds, if its tool has been executed. *)
Definition result_of (c : CrewOrchestrator.CallState) : option ToolTurn.t :=
  match c with
  | CrewOrchestrator.Executed r _ | CrewOrchestrator.Finished r => Some r
  | _ => None
  end.

(** There is one slot per request, and the result in slot [i] is that of
    [call_tool] for request [i], begun in some state of the pool and the
    world. *)
Definition slots_ok {RT : Type} (json_loads : string → option Json)
    (crew_tools : list (CrewTool.t RT))
    (calls : list RawToolCall.t) (slots : list CrewOrchestrator.CallState) : Prop :=
  length slots = length calls
  ∧ ∀ i c r, slots !! i = Some c → result_of c = Some r →
             ∃ tc ps (w : World RT),
               calls !! i = Some tc
               ∧ r = (CrewOrchestrator.call_tool json_loads crew_tools tc ps w).1.1.1.

(** ** Scenarios: concrete inputs for the examples *)

Module Scenario.

Definition w0 : World unit := mkWorld empty_cache 0 tt [] [] [].

(** A loop that yields one final answer and ends. *)
Definition run_ok : WorkerPool.WorkerRun :=
  WorkerPool.mkRun 1
    [(2%nat, AgentMessage.mk "assistant" (Some "22/tcp open") None None
               Metadata.empty (Some 120))]
    (0%nat, WorkerPool.LoopExhausted) None.

(** A loop whose only message reports the task as infeasible. *)
Definition run_infeasible : WorkerPool.WorkerRun :=
  WorkerPool.mkRun 1
    [(2%nat, AgentMessage.mk "assistant" (Some "The target is out of scope.") None None
               (Metadata.mk false false true) None)]
    (0%nat, WorkerPool.LoopExhausted) None.

(** A loop that the model client breaks with an exception. *)
Definition run_raises : WorkerPool.WorkerRun :=
  WorkerPool.mkRun 0 [] (1%nat, WorkerPool.LoopRaised "connection reset") None.

(** A run whose sandbox does not start. *)
Definition run_sandbox_fails : WorkerPool.WorkerRun :=
  WorkerPool.mkRun 2 []
    (0%nat, WorkerPool.StartRaised
              "Failed to start Docker container: Cannot connect to the Docker daemon")
    None.

(** One worker spawned and run to its end in project 7. *)
Definition one_worker_settled : WorkerPool.t * World unit :=
  PoolOp.exec_all [PoolOp.Spawn "scan A" 1 None; PoolOp.Turn "agent-0" run_ok]
                  (WorkerPool.init 7 true, w0).

(** Two workers, one ended in an error and one cancelled, and a third that
    names both and an id the pool does not track as its dependencies. *)
Definition failed_dependencies : WorkerPool.t * World unit :=
  PoolOp.exec_all
    [PoolOp.Spawn "scan A" 1 None; PoolOp.Spawn "scan B" 1 None;
     PoolOp.Turn "agent-0" run_raises; PoolOp.Cancel "agent-1";
     PoolOp.Spawn "report" 1 (Some ["agent-0"; "agent-1"; "agent-9"])]
    (WorkerPool.init 7 true, w0).

Definition dependent : AgentWorker.t :=
  AgentWorker.new "agent-2" "report" 1 ["agent-0"; "agent-1"; "agent-9"].

(** A registry with one worker of project 7 and nothing else, as a spawn on
    a fresh registry leaves it. *)
Definition one_worker_spawned : WorkerPool.t * World unit :=
  PoolOp.exec_all [PoolOp.Spawn "scan A" 1 None] (WorkerPool.init 7 true, w0).

(** A second pool on project 7, made after the worker of the first has
    settled, spawns its first worker. *)
Definition second_pool : WorkerPool.t * World unit :=
  PoolOp.exec_all [PoolOp.Spawn "scan B" 1 None]
                  (WorkerPool.init 7 true, one_worker_settled.2).

(** A worker that is spawned at time 0 and runs fifty minutes later: its
    record is written again then and outlives the id list, which dates from
    the spawn.  Ten minutes after the list has expired the record is still
    there. *)
Definition record_outlives_list : WorkerPool.t * World unit :=
  PoolOp.exec_all
    [PoolOp.Spawn "scan A" 1 None; PoolOp.Elapse 3000; PoolOp.Turn "agent-0" run_ok;
     PoolOp.Elapse 1200]
    (WorkerPool.init 7 true, w0).

(** Stand-in for SHA-256 in the scenarios: the text itself. *)
Definition digest (raw : string) : string := raw.

Definition port_scan : Tool.t unit :=
  Tool.mk "port_scan" (fun _ rt => (3%nat, Returned "80/tcp open", rt)).
Definition ping : Tool.t unit :=
  Tool.mk "ping" (fun _ rt => (1%nat, Returned "", rt)).
Definition whois : Tool.t unit :=
  Tool.mk "whois" (fun _ rt => (2%nat, Raised "timed out", rt)).

Definition get_tool (name : string) : option (Tool.t unit) :=
  if decide (name = "port_scan") then Some port_scan
  else if decide (name = "ping") then Some ping
  else if decide (name = "whois") then Some whois
  else None.

Definition agent : @BaseAgent.t unit :=
  BaseAgent.mk "ReconAgentAgent" (fun _ _ => "You are a penetration tester.")
    (fun _ _ => (0%nat, Raised "no model")) 10 [].

Definition scan_call : ToolCall.t :=
  ToolCall.mk "call-1" "port_scan"
    (JObj [("target", JStr "10.0.0.5"); ("ports", JStr "1-1024")]).
(** The same call, its arguments written in the other order. *)
Definition scan_call_again : ToolCall.t :=
  ToolCall.mk "call-2" "port_scan"
    (JObj [("ports", JStr "1-1024"); ("target", JStr "10.0.0.5")]).
Definition ping_call : ToolCall.t :=
  ToolCall.mk "call-3" "ping" (JObj [("target", JStr "10.0.0.5")]).
Definition whois_call : ToolCall.t :=
  ToolCall.mk "call-4" "whois" (JObj [("domain", JStr "example.org")]).

(** The crew's tools in the orchestrator scenarios. *)
Definition nmap_tool : CrewTool.t unit :=
  CrewTool.mk "nmap" (fun _ ps w => (4%nat, Returned "scan done", ps, w)).
Definition dig_tool : CrewTool.t unit :=
  CrewTool.mk "dig" (fun _ ps w => (1%nat, Raised "no route", ps, w)).
Definition finish_tool : CrewTool.t unit :=
  CrewTool.mk "finish" (fun _ ps w => (2%nat, Returned "Synthesis of the workers' results.", ps, w)).
Definition crew_tools : list (CrewTool.t unit) := [nmap_tool; dig_tool; finish_tool].

Definition json_loads (s : string) : option Json :=
  if decide (s = "{}") then Some (JObj []) else None.

(** Three calls requested in one turn: T1, T2, T3. *)
Definition three_calls : list RawToolCall.t :=
  [RawToolCall.Obj (Some "T1") (Some ("nmap", RawToolCall.ArgsDict (JObj [])));
   RawToolCall.Dict (Some "T2") (Some (Some "dig", Some (RawToolCall.ArgsStr "{}")));
   RawToolCall.Obj (Some "T3") (Some ("traceroute", RawToolCall.ArgsStr "{}"))].

(** The three coroutines are started in the order of the request; the
    coroutine of T2 is the first to return, then that of T3, then that of
    T1. *)
Definition t2_first (calls : list RawToolCall.t) : list nat :=
  [0; 1; 2; 1; 1; 2; 0; 0]%nat.

Definition crew : CrewOrchestrator.t :=
  CrewOrchestrator.mk 7 7 "example.org" false true CrewState.RUNNING
    (Some (WorkerPool.init 7 false)) None
    [[("role", JStr "user"); ("content", JStr "Target: example.org")]].

Definition idle_crew : CrewOrchestrator.t :=
  CrewOrchestrator.mk 7 7 "example.org" false true CrewState.IDLE None None [].

(** A model that answers every transcript with the same text and no tool
    call. *)
Definition text_only (prompt : string) (messages : list (list (string * Json)))
    : nat * Outcome (LLMResponse.t RawToolCall.t) :=
  (1%nat, Returned (LLMResponse.mk (Some "Nothing to do.") None None)).

Definition no_background (iteration : nat) (p : WorkerPool.t) (w : World unit)
    : WorkerPool.t * World unit := (p, w).

Definition fixed_prompt (o : CrewOrchestrator.t) (rt : unit) : string :=
  "You coordinate a crew.".

(** A transcript that a cancellation finds with an assistant turn waiting
    for its two tool results. *)

Definition first_user : list (string * Json) :=
  [("role", JStr "user"); ("content", JStr "Target: example.org")].
Definition answer : list (string * Json) :=
  [("role", JStr "assistant"); ("content", JStr "Starting with a port scan.")].
Definition user : list (string * Json) :=
  [("role", JStr "user"); ("content", JStr "Also check the mail server.")].
Definition assistant_calls : list (string * Json) :=
  [("role", JStr "assistant"); ("content", JStr "");
   ("tool_calls",
    JArr [JObj [("id", JStr "c1"); ("type", JStr "function");
                ("function", JObj [("name", JStr "spawn_agent");
                                   ("arguments", JStr "{}")])];
          JObj [("id", JStr "c2"); ("type", JStr "function");
                ("function", JObj [("name", JStr "spawn_agent");
                                   ("arguments", JStr "{}")])]])].
Definition tool1 : list (string * Json) :=
  [("role", JStr "tool"); ("tool_call_id", JStr "c1"); ("content", JStr "agent-0")].
Definition tool2 : list (string * Json) :=
  [("role", JStr "tool"); ("tool_call_id", JStr "c2"); ("content", JStr "agent-1")].

Definition interrupted_crew : CrewOrchestrator.t :=
  CrewOrchestrator.mk 7 7 "example.org" false false CrewState.RUNNING None None
     [first_user; answer; user; assistant_calls; tool1; tool2].

End Scenario.


(** ** Further scenarios *)

Module MoreScenarios.
Import Scenario.

(** A registry in which worker [agent-0] of project 7 was registered at
    time 0. *)
Definition scan_record : WorkerDict.t :=
  AgentWorker.to_dict (AgentWorker.new "agent-0" "scan A" 1 []).
Definition registered_at_0 : Cache :=
  IntelligenceRegistry.set_worker 0 7 "agent-0" scan_record
    IntelligenceRegistry.WORKER_TIMEOUT empty_cache.

(** The arguments of a port scan, written in two orders. *)
Definition target_first : list (string * Json) :=
  [("target", JStr "10.0.0.5"); ("ports", JStr "1-1024")].
Definition ports_first : list (string * Json) :=
  [("ports", JStr "1-1024"); ("target", JStr "10.0.0.5")].

(** A model that asks for a ping in every turn. *)
Definition ping_again : LLMResponse.t ToolCall.t :=
  LLMResponse.mk None (Some [ping_call]) None.
Definition pinging_agent : @BaseAgent.t unit :=
  BaseAgent.mk "ReconAgentAgent" (fun _ _ => "You are a penetration tester.")
    (fun _ _ => (1%nat, Returned ping_again)) 3 [].

(** A model that asks for the same port scan in every turn. *)
Definition scan_once_more : LLMResponse.t ToolCall.t :=
  LLMResponse.mk None (Some [scan_call]) None.
Definition rescanning_agent : @BaseAgent.t unit :=
  BaseAgent.mk "ReconAgentAgent" (fun _ _ => "You are a penetration tester.")
    (fun _ _ => (1%nat, Returned scan_once_more)) 3 [].

(** A model that asks for a port scan and then answers. *)
Definition scanning_agent : @BaseAgent.t unit :=
  BaseAgent.mk "ReconAgentAgent" (fun _ _ => "You are a penetration tester.")
    (fun _ history =>
       if decide (length history = 1%nat)
       then (1%nat, Returned (LLMResponse.mk None (Some [scan_call]) None))
       else (1%nat, Returned (LLMResponse.mk (Some "80/tcp is open.") None None)))
    5 [].

(** The messages of [scanning_agent], each after one second. *)
Definition scanning_responses : list (nat * AgentMessage.t) :=
  (fun m => (1%nat, m))
    <$> (ReconAgentAgent.agent_loop digest get_tool "Scan 10.0.0.5"
           scanning_agent w0).1.1.1.

Definition pool7 : WorkerPool.t := WorkerPool.init 7 true.
Definition scan_worker : AgentWorker.t := AgentWorker.new "agent-0" "scan A" 1 [].

(** A loop that uses two tools, one of them twice, and is then cancelled. *)
Definition run_cancelled : WorkerPool.WorkerRun :=
  WorkerPool.mkRun 1
    [(2%nat, AgentMessage.mk "assistant" (Some "") (Some [scan_call; ping_call]) None
               Metadata.empty (Some 80));
     (1%nat, AgentMessage.mk "assistant" (Some "") (Some [scan_call_again]) None
               Metadata.empty None)]
    (4%nat, WorkerPool.LoopCancelled) None.

(** A loop that answers twice, in a sandbox whose plan has no steps. *)
Definition run_two_answers : WorkerPool.WorkerRun :=
  WorkerPool.mkRun 1
    [(2%nat, AgentMessage.mk "assistant" (Some "Port 22 is open.") None None
               Metadata.empty None);
     (1%nat, AgentMessage.mk "assistant" (Some "") (Some [ping_call]) None
               Metadata.empty None);
     (1%nat, AgentMessage.mk "assistant" (Some "Ports 22 and 80 are open.") None None
               Metadata.empty None)]
    (0%nat, WorkerPool.LoopExhausted) (Some []).

(** What the cancelled run of [scan_worker] comes to. *)
Definition cancelled_worker : AgentWorker.t :=
  match WorkerPool._run_worker pool7 scan_worker run_cancelled w0 with
  | WorkerPool.Settled wk _ _ => wk
  | _ => scan_worker
  end.
Definition cancelled_world : World unit :=
  match WorkerPool._run_worker pool7 scan_worker run_cancelled w0 with
  | WorkerPool.Settled _ _ w => w
  | _ => w0
  end.

(** Two workers without dependencies, the first of them run to its end. *)
Definition one_of_two_settled : WorkerPool.t * World unit :=
  PoolOp.exec_all
    [PoolOp.Spawn "scan A" 1 None; PoolOp.Spawn "scan B" 1 None;
     PoolOp.Turn "agent-0" run_ok]
    (WorkerPool.init 7 true, w0).

(** Two workers spawned with each other as dependency. *)
Definition deadlocked : WorkerPool.t * World unit :=
  PoolOp.exec_all
    [PoolOp.Spawn "scan A" 1 (Some ["agent-1"]); PoolOp.Spawn "scan B" 1 (Some ["agent-0"])]
    (WorkerPool.init 7 false, w0).
Definition waits_for_b : AgentWorker.t := AgentWorker.new "agent-0" "scan A" 1 ["agent-1"].
Definition waits_for_a : AgentWorker.t := AgentWorker.new "agent-1" "scan B" 1 ["agent-0"].

(** A model that asks the crew for an nmap run in every response, and a
    crew that has no [finish] tool. *)
Definition nmap_again (prompt : string) (messages : list (list (string * Json)))
    : nat * Outcome (LLMResponse.t RawToolCall.t) :=
  (1%nat,
   Returned (LLMResponse.mk None
               (Some [RawToolCall.Obj (Some "T1")
                        (Some ("nmap", RawToolCall.ArgsDict (JObj [])))])
               None)).
Definition scanners_only : list (CrewTool.t unit) := [nmap_tool; dig_tool].
Definition in_request_order (calls : list RawToolCall.t) : list nat := [].

End MoreScenarios.

(** * Properties *)

Lemma str_app_inj_r (p a b : string) : p +:+ a = p +:+ b → a = b.
Proof. induction p as [|c p IH]; simpl; [done|]. intros [= H]. auto. Qed.

Module KeyFacts.
Import IntelligenceRegistry.

Lemma worker_key_inj pid a b : worker_key pid a = worker_key pid b → a = b.
Proof.
  unfold worker_key, _gen_key. intros H.
  do 2 apply str_app_inj_r in H. by injection H.
Qed.

Lemma worker_key_not_list_key pid wid pid' : worker_key pid wid ≠ list_key pid'.
Proof. unfold worker_key, list_key, _gen_key. simpl. intros [=]. Qed.

Lemma tool_key_not_worker_key h pid wid : _gen_key "tool_cache" h ≠ worker_key pid wid.
Proof. unfold worker_key, _gen_key. simpl. intros [=]. Qed.

Lemma tool_key_not_list_key h pid : _gen_key "tool_cache" h ≠ list_key pid.
Proof. unfold list_key, _gen_key. simpl. intros [=]. Qed.
End KeyFacts.

(** ** The cache *)

Lemma cache_get_set_eq now now' k v timeout c :
  now' < now + timeout → cache_get now' (cache_set now k v timeout c) k = Some v.
Proof.
  intros H. unfold cache_get, cache_set. simpl.
  rewrite lookup_insert_eq. by rewrite decide_True.
Qed.

Lemma cache_get_set_ne now now' k k' v timeout c :
  k ≠ k' → cache_get now' (cache_set now k v timeout c) k' = cache_get now' c k'.
Proof.
  intros H. unfold cache_get, cache_set. simpl. by rewrite lookup_insert_ne.
Qed.

Lemma cache_get_delete_eq now k c : cache_get now (cache_delete k c) k = None.
Proof. unfold cache_get, cache_delete. simpl. by rewrite lookup_delete_eq. Qed.

Lemma cache_get_delete_ne now k k' c :
  k ≠ k' → cache_get now (cache_delete k c) k' = cache_get now c k'.
Proof.
  intros H. unfold cache_get, cache_delete. simpl. by rewrite lookup_delete_ne.
Qed.

(** ** The registry *)
Section registry.
Import IntelligenceRegistry.

Lemma get_worker_set_worker_eq now now' pid wid d timeout c :
  now' < now + timeout →
  get_worker now' pid wid (set_worker now pid wid d timeout c) = Some d.
Proof.
  intros H. unfold get_worker, set_worker.
  destruct (str_in _ _).
  - by rewrite cache_get_set_eq.
  - rewrite cache_get_set_ne by (apply not_eq_sym, KeyFacts.worker_key_not_list_key).
    by rewrite cache_get_set_eq.
Qed.

Lemma get_worker_set_worker_ne now now' pid wid wid' d timeout c :
  wid ≠ wid' →
  get_worker now' pid wid' (set_worker now pid wid d timeout c)
  = get_worker now' pid wid' c.
Proof.
  intros H. unfold get_worker, set_worker.
  assert (worker_key pid wid ≠ worker_key pid wid')
    by (intros ?%KeyFacts.worker_key_inj; done).
  destruct (str_in _ _).
  - by rewrite cache_get_set_ne.
  - rewrite cache_get_set_ne by (apply not_eq_sym, KeyFacts.worker_key_not_list_key).
    by rewrite cache_get_set_ne.
Qed.

Lemma status_writes_app key a b :
  status_writes key (a ++ b) = status_writes key a ++ status_writes key b.
Proof. apply omap_app. Qed.

Lemma status_writes_set key k v :
  status_writes key [OpSet k v]
  = match v with
    | VDict d => if decide (k = key) then [WorkerDict.status d] else []
    | _ => []
    end.
Proof.
  unfold status_writes. destruct v; simpl; [|done|done].
  by destruct (decide (k = key)).
Qed.

Lemma journal_set_worker now pid wid d timeout c :
  ∃ news, journal (set_worker now pid wid d timeout c) = journal c ++ news
    ∧ ∀ wid', status_writes (worker_key pid wid') news
              = if decide (wid = wid') then [WorkerDict.status d] else [].
Proof.
  assert (∀ wid', status_writes (worker_key pid wid') [OpSet (worker_key pid wid) (VDict d)]
                  = if decide (wid = wid') then [WorkerDict.status d] else []) as H.
  { intros wid'. rewrite status_writes_set.
    destruct (decide (wid = wid')) as [->|Hne]; [by rewrite decide_True|].
    rewrite decide_False; [done|]. by intros ?%KeyFacts.worker_key_inj. }
  unfold set_worker. destruct (str_in _ _); cbn [journal cache_set].
  - eexists; split; [done|]. exact H.
  - rewrite <- app_assoc. eexists; split; [done|]. intros wid'.
    by rewrite status_writes_app, H, status_writes_set, app_nil_r.
Qed.

End registry.


(** ** Histories *)

Lemma writes_between_refl {RT} key (w : World RT) : writes_between key w w [].
Proof. exists []. by rewrite app_nil_r. Qed.

Lemma writes_between_trans {RT} key (w1 w2 w3 : World RT) l1 l2 :
  writes_between key w1 w2 l1 → writes_between key w2 w3 l2 →
  writes_between key w1 w3 (l1 ++ l2).
Proof.
  intros (n1 & E1 & <-) (n2 & E2 & <-). exists (n1 ++ n2).
  by rewrite E2, E1, app_assoc, status_writes_app.
Qed.

Lemma writes_between_same_cache {RT} key (w w' : World RT) :
  cache w' = cache w → writes_between key w w' [].
Proof. intros E. exists []. by rewrite E, app_nil_r. Qed.

Lemma monotonic_nil : monotonic [].
Proof. intros i j s s' _ H. by rewrite lookup_nil in H. Qed.

(** A history of statuses none of which is terminal, followed by at most one
    more status, is monotonic. *)
Lemma monotonic_running_then l tail :
  Forall (fun s => terminal_value s = false) l →
  (length tail ≤ 1)%nat →
  monotonic (l ++ tail).
Proof.
  intros Hl Ht i j s s' Hij Hi Hterm Hj.
  destruct (decide (i < length l)%nat) as [Hlt|Hge].
  - rewrite lookup_app_l in Hi by done.
    rewrite Forall_lookup in Hl. specialize (Hl _ _ Hi). simpl in Hl. congruence.
  - apply lookup_lt_Some in Hj. rewrite length_app in Hj. lia.
Qed.

Section pool.
Context {RT : Type}.
Implicit Type w : World RT.
Import WorkerPool.

Lemma cache_emit p wid ev data w : cache (_emit p wid ev data w) = cache w.
Proof. unfold _emit. by destruct (on_worker_event p). Qed.

Lemma clock_emit p wid ev data w : clock (_emit p wid ev data w) = clock w.
Proof. unfold _emit. by destruct (on_worker_event p). Qed.

Lemma clock_store_worker p wk w : clock (store_worker p wk w) = clock w.
Proof. done. Qed.

Lemma writes_store_worker p wk w wid :
  writes_between (IntelligenceRegistry.worker_key (project_id p) wid)
    w (store_worker p wk w)
    (if decide (AgentWorker.id wk = wid)
     then [AgentStatus.value (AgentWorker.status wk)] else []).
Proof.
  unfold writes_between, store_worker. simpl.
  destruct (journal_set_worker (clock w) (project_id p) (AgentWorker.id wk)
              (AgentWorker.to_dict wk) IntelligenceRegistry.WORKER_TIMEOUT (cache w))
    as (news & E & H).
  exists news. split; [done|]. by rewrite H.
Qed.

Lemma track_tools_spec p tcs wk w :
  let '(wk', w') := track_tools p tcs wk w in
  AgentWorker.id wk' = AgentWorker.id wk
  ∧ AgentWorker.status wk' = AgentWorker.status wk
  ∧ cache w' = cache w ∧ clock w' = clock w.
Proof.
  revert wk w. induction tcs as [|tc tcs IH]; intros wk w; simpl; [done|].
  destruct (str_in _ _); [apply IH|].
  match goal with |- context [track_tools p tcs ?a ?b] =>
    specialize (IH a b); destruct (track_tools p tcs a b) as [wk' w'] end.
  destruct IH as (-> & -> & -> & ->). simpl.
  by rewrite cache_emit, clock_emit.
Qed.

Lemma track_tokens_spec p r wk st w :
  let '(st', w') := track_tokens p r wk st w in
  cache w' = cache w ∧ clock w' = clock w.
Proof.
  unfold track_tokens. destruct (AgentMessage.usage r); [|done].
  repeat case_match; simplify_eq; by rewrite ?cache_emit, ?clock_emit.
Qed.

Lemma on_response_spec p r wk st w wid :
  let '(wk', st', w') := on_response p r wk st w in
  AgentWorker.id wk' = AgentWorker.id wk
  ∧ AgentWorker.status wk' = AgentWorker.status wk
  ∧ clock w' = clock w
  ∧ writes_between (IntelligenceRegistry.worker_key (project_id p) wid) w w'
      (if decide (AgentWorker.id wk = wid)
       then [AgentStatus.value (AgentWorker.status wk)] else []).
Proof.
  unfold on_response.
  pose proof (track_tools_spec p (opt_list (AgentMessage.tool_calls r)) wk w) as H1.
  destruct (track_tools _ _ _ _) as [wk1 w1]. destruct H1 as (Hid & Hst & Hc & Hk).
  pose proof (track_tokens_spec p r wk1 st w1) as H2.
  destruct (track_tokens _ _ _ _ _) as [st2 w2]. destruct H2 as (Hc2 & Hk2).
  split_and!; [done|done|simpl; congruence|].
  rewrite <- Hid, <- Hst.
  pose proof (writes_store_worker p wk1 w2 wid) as (news & E & H).
  exists news. split; [|done]. rewrite E. by rewrite Hc2, Hc.
Qed.

Lemma consume_spec p rs wk st w wid :
  let '(wk', st', w') := consume p rs wk st w in
  AgentWorker.id wk' = AgentWorker.id wk
  ∧ AgentWorker.status wk' = AgentWorker.status wk
  ∧ writes_between (IntelligenceRegistry.worker_key (project_id p) wid) w w'
      (if decide (AgentWorker.id wk = wid)
       then replicate (length rs) (AgentStatus.value (AgentWorker.status wk))
       else []).
Proof.
  revert wk st w. induction rs as [|[d r] rs IH]; intros wk st w; simpl.
  { split_and!; try done. case_decide; apply writes_between_refl. }
  pose proof (on_response_spec p r wk st (elapse d w) wid) as H1.
  destruct (on_response _ _ _ _ _) as [[wk1 st1] w1].
  destruct H1 as (Hid & Hst & _ & Hw).
  specialize (IH wk1 st1 w1). destruct (consume _ _ _ _ _) as [[wk2 st2] w2].
  destruct IH as (Hid2 & Hst2 & Hw2).
  split_and!; [congruence|congruence|].
  rewrite Hid, Hst in Hw2.
  assert (writes_between (IntelligenceRegistry.worker_key (project_id p) wid)
            w (elapse d w) []) as H0 by (by apply writes_between_same_cache).
  pose proof (writes_between_trans _ _ _ _ _ _ H0 (writes_between_trans _ _ _ _ _ _ Hw Hw2)) as H.
  case_decide; simpl in *; done.
Qed.

Lemma run_worker_suspended p wk run w :
  _wait_for_dependencies p (AgentWorker.id wk) (AgentWorker.depends_on wk) = false →
  _run_worker p wk run w = Suspended.
Proof. intros H. unfold _run_worker. by rewrite H. Qed.

(** What a run that gets past the dependency wait does to the worker and to
    the record of any worker id. *)
Lemma run_worker_settles p wk run w wid :
  _wait_for_dependencies p (AgentWorker.id wk) (AgentWorker.depends_on wk) = true →
  ∃ wk' o w',
    _run_worker p wk run w
    = match snd (ending run) with
      | StartRaised e => Escaped wk' e w'
      | _ => Settled wk' o w'
      end
    ∧ AgentWorker.id wk' = AgentWorker.id wk
    ∧ AgentWorker.status wk'
      = match snd (ending run) with
        | LoopExhausted => AgentStatus.COMPLETE
        | LoopRaised _ => AgentStatus.ERROR
        | LoopCancelled => AgentStatus.CANCELLED
        | StartRaised _ => AgentStatus.RUNNING
        end
    ∧ o = match snd (ending run) with
          | LoopCancelled => TaskCancelled
          | StartRaised e => TaskRaised e
          | _ => TaskReturned
          end
    ∧ writes_between (IntelligenceRegistry.worker_key (project_id p) wid) w w'
        (if decide (AgentWorker.id wk = wid)
         then "running"
              :: match snd (ending run) with
                 | LoopExhausted =>
                     replicate (length (responses run)) "running" ++ ["running"; "complete"]
                 | LoopRaised _ =>
                     replicate (length (responses run)) "running" ++ ["error"]
                 | LoopCancelled => replicate (length (responses run)) "running"
                 | StartRaised _ => []
                 end
         else []).
Proof.
  intros Hdeps. unfold _run_worker. rewrite Hdeps. cbn [negb].
  set (wk0 := AgentWorker.set_started_at _ (AgentWorker.set_status _ wk)).
  set (w0 := elapse _ (_emit _ _ _ _ (store_worker p wk0 w))).
  assert (writes_between (IntelligenceRegistry.worker_key (project_id p) wid) w w0
            (if decide (AgentWorker.id wk = wid) then ["running"] else [])) as H0.
  { pose proof (writes_store_worker p wk0 w wid) as (news & E & H).
    exists news. split; [|done]. unfold w0. simpl. by rewrite cache_emit. }
  pose proof (consume_spec p (responses run) wk0 (mkLoop "" false false false) w0 wid) as H1.
  destruct (snd (ending run)) as [|e| |e] eqn:Hend.
  4:{ exists wk0, (TaskRaised e), w0. by split_and!. }
  all: destruct (consume _ _ _ _ _) as [[wk1 st1] w1]; destruct H1 as (Hid & Hst & Hw);
    change (AgentWorker.id wk0) with (AgentWorker.id wk) in *;
    change (AgentWorker.status wk0) with AgentStatus.RUNNING in *;
    pose proof (writes_between_trans _ _ _ _ _ _ H0 Hw) as H01; clear H0 Hw.
  - eexists _, _, _. split; [done|]. split_and!; try done.
    set (wk2 := AgentWorker.set_completed_at _ (AgentWorker.set_result _ wk1)).
    set (wk3 := AgentWorker.set_status AgentStatus.COMPLETE wk2).
    set (w1' := elapse _ w1).
    pose proof (writes_store_worker p wk2 w1' wid) as H2.
    pose proof (writes_store_worker p wk3 (store_worker p wk2 w1') wid) as H3.
    change (AgentWorker.id wk2) with (AgentWorker.id wk1) in *.
    change (AgentWorker.id wk3) with (AgentWorker.id wk1) in *.
    change (AgentWorker.status wk2) with (AgentWorker.status wk1) in *.
    change (AgentWorker.status wk3) with AgentStatus.COMPLETE in *.
    rewrite Hid, ?Hst in *.
    pose proof (writes_between_trans _ _ _ _ _ _ H01
                  (writes_between_trans _ w1 w1' _ [] _
                     (writes_between_same_cache _ _ _ eq_refl)
                     (writes_between_trans _ _ _ _ _ _ H2 H3))) as (news & E & H).
    exists news. split; [by rewrite cache_emit|].
    rewrite H. case_decide; [|done]. simpl. by rewrite <- ?app_assoc.
  - eexists _, _, _. split; [done|]. split_and!; try done.
    set (wk2 := AgentWorker.set_completed_at _ (AgentWorker.set_status _ (AgentWorker.set_error _ wk1))).
    set (w1' := elapse _ w1).
    pose proof (writes_store_worker p wk2 w1' wid) as H2.
    change (AgentWorker.id wk2) with (AgentWorker.id wk1) in *.
    change (AgentWorker.status wk2) with AgentStatus.ERROR in *.
    rewrite Hid in *.
    pose proof (writes_between_trans _ _ _ _ _ _ H01
                  (writes_between_trans _ w1 w1' _ [] _
                     (writes_between_same_cache _ _ _ eq_refl) H2)) as (news & E & H).
    exists news. split; [by rewrite cache_emit|].
    rewrite H. case_decide; [|done]. simpl. by rewrite <- ?app_assoc.
  - eexists _, _, _. split; [done|]. split_and!; try done.
    destruct H01 as (news & E & H).
    exists news. split; [by rewrite cache_emit|].
    rewrite H. by case_decide.
Qed.

(** A turn of a task that gets past the dependency wait: the task is done
    afterwards. *)
Lemma run_task_settles wid wk run p w wid' :
  _tasks p !! wid = Some (Scheduled wk) →
  _wait_for_dependencies p (AgentWorker.id wk) (AgentWorker.depends_on wk) = true →
  ∃ o w',
    run_task wid run p w = (set_tasks (<[wid := Done o]> (_tasks p)) p, w')
    ∧ writes_between (IntelligenceRegistry.worker_key (project_id p) wid') w w'
        (if decide (AgentWorker.id wk = wid')
         then "running"
              :: match snd (ending run) with
                 | LoopExhausted =>
                     replicate (length (responses run)) "running" ++ ["running"; "complete"]
                 | LoopRaised _ =>
                     replicate (length (responses run)) "running" ++ ["error"]
                 | LoopCancelled => replicate (length (responses run)) "running"
                 | StartRaised _ => []
                 end
         else []).
Proof.
  intros Hwk Hdeps. unfold run_task. rewrite Hwk.
  destruct (run_worker_settles p wk run w wid' Hdeps)
    as (wk' & o & w' & -> & _ & _ & Ho & Hw).
  exists o, w'. split; [|done].
  destruct (snd (ending run)); by subst o.
Qed.

End pool.

(** ** The transcript repair of [cancel] *)

Section cleanup.
Import CrewOrchestrator.

Lemma get_is_unique k s s' d : get_is k s d = true → s ≠ s' → get_is k s' d = false.
Proof.
  unfold get_is. destruct (assoc_get k d) as [[]|]; try done.
  intros ->%bool_decide_eq_true ?. by apply bool_decide_eq_false.
Qed.

Lemma cleanup_from_end_pending (earlier : list (list (string * Json))) u a t1 t2 :
  get_is "role" "user" u = true →
  get_is "role" "assistant" a = true →
  get_truthy "tool_calls" a = true →
  get_is "role" "tool" t1 = true →
  get_is "role" "tool" t2 = true →
  cleanup_from_end (t2 :: t1 :: a :: u :: earlier) = earlier.
Proof.
  intros Hu Ha Hc H1 H2. simpl.
  rewrite (get_is_unique _ _ "assistant" _ H2) by done.
  rewrite H2. simpl.
  rewrite (get_is_unique _ _ "assistant" _ H1) by done.
  rewrite H1. simpl.
  rewrite Ha, Hc. simpl.
  rewrite (get_is_unique _ _ "assistant" _ Hu) by done.
  rewrite (get_is_unique _ _ "tool" _ Hu) by done.
  by rewrite Hu.
Qed.

Lemma messages_cancel o :
  _messages (cancel o) = rev (cleanup_from_end (rev (_messages o))).
Proof. unfold cancel. by destruct (pool o). Qed.

(** C6, as the code has it: on a transcript that ends in a user turn, an
    assistant turn with tool calls and two tool-result turns, [cancel]
    removes these four turns, the user turn included, and leaves the turns
    before them as they were. *)
Theorem cancel_drops_pending_turns_and_user_turn
    (o : t) (earlier : list (list (string * Json))) u a t1 t2 :
  get_is "role" "user" u = true →
  get_is "role" "assistant" a = true →
  get_truthy "tool_calls" a = true →
  get_is "role" "tool" t1 = true →
  get_is "role" "tool" t2 = true →
  _messages o = earlier ++ [u; a; t1; t2] →
  _messages (cancel o) = earlier.
Proof.
  intros Hu Ha Hc H1 H2 E. rewrite messages_cancel, E.
  rewrite rev_app_distr. cbn [rev app].
  rewrite cleanup_from_end_pending by done. apply rev_involutive.
Qed.

End cleanup.


(** ** Workers: terminal statuses and dependencies *)

Section worker_runs.
Context {RT : Type}.
Implicit Type w : World RT.
Import WorkerPool.

(** The dependency wait reads the task table only. *)
Lemma wait_true_of_settled p current deps :
  (∀ dep tk, dep ∈ deps → dep ≠ current → _tasks p !! dep = Some tk →
             task_done tk = true) →
  _wait_for_dependencies p current deps = true.
Proof.
  induction deps as [|dep deps IH]; intros H; simpl; [done|].
  assert (_wait_for_dependencies p current deps = true) as IH'.
  { apply IH. intros d tk Hd. apply H. by right. }
  destruct (_tasks p !! dep) as [tk|] eqn:E; [|done].
  case_decide; [done|].
  rewrite (H dep tk); [done|by left|done|done].
Qed.

Lemma wait_true_of_untracked p current deps :
  (∀ dep, dep ∈ deps → _tasks p !! dep = None) →
  _wait_for_dependencies p current deps = true.
Proof.
  intros H. apply wait_true_of_settled. intros dep tk Hd _ E.
  rewrite (H dep Hd) in E. done.
Qed.

Lemma track_tools_pool p p' tcs wk w :
  on_worker_event p = on_worker_event p' →
  track_tools p tcs wk w = track_tools p' tcs wk w.
Proof.
  intros E. revert wk w. induction tcs as [|tc tcs IH]; intros wk w; simpl; [done|].
  destruct (str_in _ _); [done|]. unfold _emit. by rewrite E, IH.
Qed.

Lemma consume_pool p p' rs wk st w :
  project_id p = project_id p' → on_worker_event p = on_worker_event p' →
  consume p rs wk st w = consume p' rs wk st w.
Proof.
  intros E1 E2. revert wk st w. induction rs as [|[d r] rs IH]; intros wk st w; simpl; [done|].
  unfold on_response. rewrite (track_tools_pool p p') by done.
  destruct (track_tools _ _ _ _) as [wk1 w1].
  unfold track_tokens, _emit, store_worker. rewrite E1, E2.
  destruct (AgentMessage.usage r); [|by rewrite IH].
  repeat case_match; simplify_eq; by rewrite IH.
Qed.

(** A run reads the pool's task table in the dependency wait and nowhere
    else. *)
Lemma run_worker_pool p p' wk run w :
  project_id p = project_id p' → on_worker_event p = on_worker_event p' →
  _wait_for_dependencies p (AgentWorker.id wk) (AgentWorker.depends_on wk)
  = _wait_for_dependencies p' (AgentWorker.id wk) (AgentWorker.depends_on wk) →
  _run_worker p wk run w = _run_worker p' wk run w.
Proof.
  intros E1 E2 E3. unfold _run_worker. rewrite E3.
  destruct (_wait_for_dependencies p' _ _); [|done]. simpl.
  unfold store_worker, _emit. rewrite E1, E2.
  rewrite (consume_pool p p') by done.
  destruct (consume _ _ _ _ _) as [[wk1 st1] w1].
  by destruct (snd (ending run)).
Qed.

(** C2: a worker whose loop ends without an exception is resolved to
    COMPLETE and recorded as "complete", whatever metadata the loop
    reported; FAILED and WARNING are assigned on no path. *)
Theorem finished_loop_resolves_complete p wk run w :
  _wait_for_dependencies p (AgentWorker.id wk) (AgentWorker.depends_on wk) = true →
  snd (ending run) = LoopExhausted →
  ∃ wk' w',
    _run_worker p wk run w = Settled wk' TaskReturned w'
    ∧ AgentWorker.status wk' = AgentStatus.COMPLETE
    ∧ (WorkerDict.status <$> get_status (AgentWorker.id wk) p w') = Some "complete".
Proof.
  intros Hdeps Hend. unfold _run_worker. rewrite Hdeps, Hend. simpl.
  match goal with |- context [consume p ?rs ?a ?st ?b] =>
    pose proof (consume_spec p rs a st b (AgentWorker.id wk)) as H;
    destruct (consume p rs a st b) as [[wk1 st1] w1] end.
  destruct H as (Hid & _). simpl in Hid.
  eexists _, _. split_and!; [done|done|].
  unfold get_status. rewrite cache_emit, clock_emit. unfold store_worker. simpl.
  rewrite <- Hid.
  rewrite get_worker_set_worker_eq by (unfold IntelligenceRegistry.WORKER_TIMEOUT; lia).
  done.
Qed.

(** No run resolves a worker to FAILED or WARNING. *)
Lemma run_worker_never_failed_or_warning p wk run w wk' o w' :
  _run_worker p wk run w = Settled wk' o w' →
  AgentWorker.status wk' ≠ AgentStatus.FAILED
  ∧ AgentWorker.status wk' ≠ AgentStatus.WARNING.
Proof.
  intros E.
  destruct (_wait_for_dependencies p (AgentWorker.id wk) (AgentWorker.depends_on wk)) eqn:Hd.
  - destruct (run_worker_settles p wk run w "" Hd) as (wk2 & o2 & w2 & E2 & _ & Hst & _).
    rewrite E in E2. destruct (snd (ending run)); inversion E2; subst; by rewrite Hst.
  - by rewrite run_worker_suspended in E.
Qed.

(** C7, as the code has it: when every tracked dependency of a worker has
    settled, however it ended, the wait for them is over and the worker's
    run goes ahead exactly as with no dependency tracked at all; it records
    RUNNING first.  If the set-up of its sandbox succeeds, the run ends in a
    terminal status.  If the set-up raises, the exception leaves the task:
    the worker stays RUNNING, and RUNNING is the only status written. *)
Theorem settled_dependencies_never_abort p wk run w :
  (∀ dep tk, dep ∈ AgentWorker.depends_on wk → dep ≠ AgentWorker.id wk →
             _tasks p !! dep = Some tk → task_done tk = true) →
  _run_worker p wk run w = _run_worker (set_tasks ∅ p) wk run w
  ∧ match snd (ending run) with
    | StartRaised e =>
        ∃ wk' w',
          _run_worker p wk run w = Escaped wk' e w'
          ∧ AgentWorker.status wk' = AgentStatus.RUNNING
          ∧ writes_between
              (IntelligenceRegistry.worker_key (project_id p) (AgentWorker.id wk))
              w w' ["running"]
    | _ =>
        ∃ wk' o w' later,
          _run_worker p wk run w = Settled wk' o w'
          ∧ AgentStatus.terminal (AgentWorker.status wk') = true
          ∧ writes_between
              (IntelligenceRegistry.worker_key (project_id p) (AgentWorker.id wk))
              w w' ("running" :: later)
    end.
Proof.
  intros H. apply wait_true_of_settled in H.
  split.
  - apply run_worker_pool; [done|done|].
    rewrite H. symmetry. apply wait_true_of_untracked. intros. apply lookup_empty.
  - destruct (run_worker_settles p wk run w (AgentWorker.id wk) H)
      as (wk' & o & w' & E & Hid & Hst & Ho & Hw).
    rewrite decide_True in Hw by done.
    destruct (snd (ending run)) as [|e| |e].
    + exists wk', o, w'. eexists. split_and!; [done|by rewrite Hst|exact Hw].
    + exists wk', o, w'. eexists. split_and!; [done|by rewrite Hst|exact Hw].
    + exists wk', o, w'. eexists. split_and!; [done|by rewrite Hst|exact Hw].
    + exists wk', w'. by split_and!.
Qed.

End worker_runs.

(** ** Histories of a pool *)

Section pool_history.
Context {RT : Type}.
Implicit Type w : World RT.
Import WorkerPool.

Lemma agent_id_inj (n m : nat) : "agent-" +:+ pretty n = "agent-" +:+ pretty m → n = m.
Proof. intros H%str_app_inj_r. by apply (inj pretty) in H. Qed.

Lemma spawn_spec task priority depends_on p w wid' :
  ∃ w', spawn task priority depends_on p w
        = ("agent-" +:+ pretty (_next_id p),
           mk (project_id p) (on_worker_event p)
              (<["agent-" +:+ pretty (_next_id p) :=
                   Scheduled (AgentWorker.new ("agent-" +:+ pretty (_next_id p))
                                task priority (opt_list depends_on))]> (_tasks p))
              (S (_next_id p)),
           w')
    ∧ clock w' = clock w
    ∧ writes_between (IntelligenceRegistry.worker_key (project_id p) wid') w w'
        (if decide ("agent-" +:+ pretty (_next_id p) = wid') then ["pending"] else []).
Proof.
  unfold spawn. simpl. eexists. split; [done|]. split; [by rewrite clock_emit|].
  match goal with |- context [store_worker ?q ?wk w] =>
    pose proof (writes_store_worker q wk w wid') as (news & E & H) end.
  exists news. by rewrite cache_emit.
Qed.

Lemma monotonic_pending_then_run n tail :
  (length tail ≤ 1)%nat →
  monotonic ("pending" :: "running" :: replicate n "running" ++ tail).
Proof.
  intros H.
  apply (monotonic_running_then ("pending" :: "running" :: replicate n "running") tail);
    [|done].
  repeat constructor. apply Forall_replicate. reflexivity.
Qed.

Lemma tracked_history_step op p w news j0 :
  journal (cache w) = j0 ++ news →
  tracked_history p news →
  ∃ news', journal (cache (PoolOp.exec op (p, w)).2) = j0 ++ news'
    ∧ project_id (PoolOp.exec op (p, w)).1 = project_id p
    ∧ tracked_history (PoolOp.exec op (p, w)).1 news'.
Proof.
  intros Ej (Hnone & Hsched & Hdone & Hfresh).
  destruct op as [task priority depends_on|worker_id run|agent_id| |d]; unfold PoolOp.exec.
  - (* spawn *)
    set (wid := "agent-" +:+ pretty (_next_id p)).
    destruct (spawn_spec task priority depends_on p w wid) as (w' & E & _ & (n0 & E0 & _)).
    rewrite E. simpl. exists (news ++ n0). split; [by rewrite E0, Ej, app_assoc|].
    split; [done|].
    assert (∀ wid', status_writes (IntelligenceRegistry.worker_key (project_id p) wid') n0
                    = if decide (wid = wid') then ["pending"] else []) as Hn0.
    { intros wid'.
      destruct (spawn_spec task priority depends_on p w wid') as (w2 & E2 & _ & (n2 & E2' & H2)).
      rewrite E in E2. inversion E2; subst w2.
      rewrite E0 in E2'. apply app_inv_head in E2'. by subst n2. }
    unfold tracked_history. simpl. split_and!.
    + intros wid' [Hl Hne]%lookup_insert_None.
      rewrite status_writes_app, Hn0, Hnone by done. by rewrite decide_False.
    + intros wid' wk [[<- [= <-]]|[Hne Hl]]%lookup_insert_Some.
      * split; [done|]. rewrite status_writes_app, Hn0, decide_True by done.
        rewrite Hnone; [done|]. by apply Hfresh.
      * destruct (Hsched _ _ Hl) as [-> Hs]. split; [done|].
        rewrite status_writes_app, Hn0, Hs, decide_False by done. done.
    + intros wid' o [[_ [=]]|[Hne Hl]]%lookup_insert_Some.
      rewrite status_writes_app, Hn0, decide_False, app_nil_r by done. eauto.
    + intros n Hn. rewrite lookup_insert_ne; [apply Hfresh; lia|].
      intros ?%agent_id_inj. lia.
  - (* the event loop gives a task its turn *)
    destruct (_tasks p !! worker_id) as [[wk|o]|] eqn:El;
      try (unfold run_task; rewrite El; exists news; by split_and!).
    destruct (Hsched _ _ El) as [Hid Hs].
    destruct (_wait_for_dependencies p (AgentWorker.id wk) (AgentWorker.depends_on wk)) eqn:Hd;
      [|unfold run_task; rewrite El, run_worker_suspended by done;
        exists news; by split_and!].
    destruct (run_task_settles worker_id wk run p w worker_id El Hd)
      as (o & w' & E & (n0 & E0 & H0)).
    rewrite E. cbn [fst snd]. exists (news ++ n0). split; [by rewrite E0, Ej, app_assoc|].
    split; [done|].
    assert (∀ wid', wid' ≠ worker_id →
              status_writes (IntelligenceRegistry.worker_key (project_id p) wid') n0 = [])
      as Hother.
    { intros wid' Hne.
      destruct (run_task_settles worker_id wk run p w wid' El Hd)
        as (o2 & w2 & E2 & (n2 & E2' & H2)).
      rewrite E in E2. inversion E2; subst.
      rewrite E0 in E2'. apply app_inv_head in E2'. subst n2.
      rewrite H2. by rewrite decide_False. }
    rewrite decide_True in H0 by done.
    unfold tracked_history. simpl. split_and!.
    + intros wid' [Hl Hne]%lookup_insert_None.
      rewrite status_writes_app, Hother, Hnone by done. done.
    + intros wid' wk2 [[_ [=]]|[Hne Hl]]%lookup_insert_Some.
      destruct (Hsched _ _ Hl) as [-> Hs2]. split; [done|].
      rewrite status_writes_app, Hother, Hs2 by done. done.
    + intros wid' o2 [[<- _]|[Hne Hl]]%lookup_insert_Some.
      * rewrite status_writes_app, Hs, H0. simpl.
        destruct (snd (ending run)).
        -- replace (replicate (length (responses run)) "running" ++ ["running"; "complete"])
             with (replicate (S (length (responses run))) "running" ++ ["complete"]).
           { apply monotonic_pending_then_run. simpl. lia. }
           rewrite replicate_S_end. by rewrite <- app_assoc.
        -- apply monotonic_pending_then_run. simpl. lia.
        -- rewrite <- (app_nil_r (replicate _ _)).
           apply monotonic_pending_then_run. simpl. lia.
        -- apply (monotonic_pending_then_run 0 []). simpl. lia.
      * rewrite status_writes_app, Hother, app_nil_r by done. eauto.
    + intros n Hn. destruct (decide (worker_id = "agent-" +:+ pretty n)) as [->|Hne].
      * rewrite Hfresh in El by done. done.
      * rewrite lookup_insert_ne by done. by apply Hfresh.
  - (* cancel *)
    exists news. split; [done|]. unfold cancel.
    destruct (_tasks p !! agent_id) as [tk|] eqn:El; [|by split_and!].
    destruct tk as [wk|o]; simpl; [|by split_and!].
    split; [done|]. unfold tracked_history. simpl. split_and!.
    + intros wid' [Hl Hne]%lookup_insert_None. by apply Hnone.
    + intros wid' wk2 [[_ [=]]|[Hne Hl]]%lookup_insert_Some. by apply Hsched.
    + intros wid' o2 [[<- _]|[Hne Hl]]%lookup_insert_Some; [|eauto].
      destruct (Hsched _ _ El) as [_ ->].
      apply (monotonic_running_then ["pending"] []); [by repeat constructor|simpl; lia].
    + intros n Hn. destruct (decide (agent_id = "agent-" +:+ pretty n)) as [->|Hne].
      * rewrite Hfresh in El by done. done.
      * rewrite lookup_insert_ne by done. by apply Hfresh.
  - (* cancel_all *)
    exists news. split; [done|]. split; [done|].
    unfold tracked_history, cancel_all. simpl. split_and!.
    + intros wid' Hl. rewrite lookup_fmap in Hl.
      destruct (_tasks p !! wid') eqn:E; [done|]. by apply Hnone.
    + intros wid' wk Hl. rewrite lookup_fmap in Hl.
      destruct (_tasks p !! wid') as [[]|] eqn:E; done.
    + intros wid' o Hl. rewrite lookup_fmap in Hl.
      destruct (_tasks p !! wid') as [[wk|o']|] eqn:E; [| |done].
      * destruct (Hsched _ _ E) as [_ ->].
        apply (monotonic_running_then ["pending"] []); [by repeat constructor|simpl; lia].
      * eauto.
    + intros n Hn. rewrite lookup_fmap, Hfresh by done. done.
  - (* time passes *)
    exists news. by split_and!.
Qed.

Lemma tracked_history_run ops p w news j0 :
  journal (cache w) = j0 ++ news →
  tracked_history p news →
  ∃ news', journal (cache (PoolOp.exec_all ops (p, w)).2) = j0 ++ news'
    ∧ project_id (PoolOp.exec_all ops (p, w)).1 = project_id p
    ∧ tracked_history (PoolOp.exec_all ops (p, w)).1 news'.
Proof.
  revert p w news. induction ops as [|op ops IH]; intros p w news Ej H.
  { exists news. by split_and!. }
  change (PoolOp.exec_all (op :: ops) (p, w))
    with (PoolOp.exec_all ops (PoolOp.exec op (p, w))).
  destruct (tracked_history_step op p w news j0 Ej H) as (n1 & E1 & Hp & H1).
  destruct (PoolOp.exec op (p, w)) as [p1 w1].
  destruct (IH p1 w1 n1 E1 H1) as (n2 & E2 & Hp2 & H2).
  exists n2. split; [exact E2|]. split; [|exact H2].
  rewrite Hp2. exact Hp.
Qed.

Lemma tracked_history_monotonic p news wid :
  tracked_history p news →
  monotonic (status_writes (IntelligenceRegistry.worker_key (project_id p) wid) news).
Proof.
  intros (Hnone & Hsched & Hdone & _).
  destruct (_tasks p !! wid) as [[wk|o]|] eqn:E.
  - destruct (Hsched _ _ E) as [_ ->].
    apply (monotonic_running_then ["pending"] []); [by repeat constructor|simpl; lia].
  - eauto.
  - rewrite Hnone by done. apply monotonic_nil.
Qed.

(** C8: over any run of a pool from its construction (spawns, turns of the
    event loop with any behaviour of model and tools, cancellations, time
    passing), the statuses the pool writes to the record of any worker id
    are monotonic: after a terminal status no different status is written. *)
Theorem worker_status_writes_monotonic
    (project_id : nat) (on_worker_event : bool) (ops : list PoolOp.t) w (wid : string) :
  ∃ news,
    journal (cache (PoolOp.exec_all ops (init project_id on_worker_event, w)).2)
    = journal (cache w) ++ news
    ∧ monotonic (status_writes (IntelligenceRegistry.worker_key project_id wid) news).
Proof.
  destruct (tracked_history_run ops (init project_id on_worker_event) w [] (journal (cache w)))
    as (news & E & Hp & H).
  - by rewrite app_nil_r.
  - unfold tracked_history. simpl. split_and!; intros; try done.
    all: by rewrite lookup_empty in *.
  - exists news. split; [done|].
    simpl in Hp. rewrite <- Hp. by apply tracked_history_monotonic.
Qed.

End pool_history.

(** ** Waiting for workers *)

Section waiting.
Context {RT : Type}.
Implicit Type w : World RT.
Import WorkerPool.

Lemma from_dict_to_dict wk : AgentWorker.from_dict (AgentWorker.to_dict wk) = Some wk.
Proof. by destruct wk as [? ? [] ? ? ? ? ? ? ?]. Qed.

Lemma wait_for_ids_spec p w ids results :
  map_Forall (fun _ tk => task_done tk = true) (_tasks p) →
  map_Forall (fun id _ => ∀ d, get_status id p w = Some d →
                               is_Some (AgentWorker.from_dict d)) (_tasks p) →
  ∃ m, wait_for_ids p w ids results = Some (Returned m)
    ∧ ∀ id, m !! id =
        if decide (id ∈ ids) then
          match _tasks p !! id, get_status id p w ≫= AgentWorker.from_dict with
          | Some _, Some wk => Some (summary_of wk)
          | _, _ => results !! id
          end
        else results !! id.
Proof.
  intros Hdone Hparse. revert results.
  induction ids as [|a ids IH]; intros results; cbn [wait_for_ids].
  { exists results. split; [done|]. intros id. case_decide as H; [inversion H|done]. }
  destruct (_tasks p !! a) as [tk|] eqn:Ea.
  - pose proof (Hdone _ _ Ea) as Hd. simpl in Hd. destruct tk as [?|o]; [done|].
    pose proof (Hparse _ _ Ea) as Hp. simpl in Hp. unfold get_status in Hp.
    destruct (IntelligenceRegistry.get_worker _ _ a _) as [d|] eqn:Eg.
    + destruct (Hp d eq_refl) as [wk Ewk]. rewrite Ewk.
      destruct (IH (<[a := summary_of wk]> results)) as (m & Em & Hm).
      exists m. split; [done|]. intros id. rewrite Hm.
      destruct (decide (id = a)) as [->|Hne].
      * rewrite (decide_True (P := a ∈ a :: ids)) by left.
        unfold get_status. rewrite Ea, Eg. simpl. rewrite Ewk.
        case_decide; [done|]. by rewrite lookup_insert_eq.
      * rewrite lookup_insert_ne by done.
        destruct (decide (id ∈ ids)).
        -- by rewrite decide_True by (by right).
        -- rewrite decide_False; [done|]. by intros [?|?]%elem_of_cons.
    + destruct (IH results) as (m & Em & Hm).
      exists m. split; [done|]. intros id. rewrite Hm.
      destruct (decide (id = a)) as [->|Hne].
      * rewrite (decide_True (P := a ∈ a :: ids)) by left.
        unfold get_status. rewrite Ea, Eg. simpl. by case_decide.
      * destruct (decide (id ∈ ids)).
        -- by rewrite decide_True by (by right).
        -- rewrite decide_False; [done|]. by intros [?|?]%elem_of_cons.
  - destruct (IH results) as (m & Em & Hm).
    exists m. split; [done|]. intros id. rewrite Hm.
    destruct (decide (id = a)) as [->|Hne].
    * rewrite (decide_True (P := a ∈ a :: ids)) by left.
      rewrite Ea. by case_decide.
    * destruct (decide (id ∈ ids)).
      -- by rewrite decide_True by (by right).
      -- rewrite decide_False; [done|]. by intros [?|?]%elem_of_cons.
Qed.

(** C1, as the code has it: once every task of the pool's task table has
    settled, [wait_for(None)] returns a map with one summary for each id of
    the task table whose registry record is present, built from that record,
    and nothing else; ids that are not in the task table get no entry, so with
    the task table gone the map is empty whatever the registry holds. *)
Theorem wait_for_all_reads_registry p w :
  map_Forall (fun _ tk => task_done tk = true) (_tasks p) →
  map_Forall (fun id _ => ∀ d, get_status id p w = Some d →
                               is_Some (AgentWorker.from_dict d)) (_tasks p) →
  ∃ m, wait_for None p w = Some (Returned m)
    ∧ (∀ id, m !! id =
         match _tasks p !! id with
         | Some _ => summary_of <$> (get_status id p w ≫= AgentWorker.from_dict)
         | None => None
         end)
    ∧ (_tasks p = ∅ → m = ∅).
Proof.
  intros Hdone Hparse. unfold wait_for.
  destruct (wait_for_ids_spec p w (map_to_list (_tasks p)).*1 ∅ Hdone Hparse)
    as (m & Em & Hm).
  exists m. split; [done|].
  assert (∀ id, m !! id =
         match _tasks p !! id with
         | Some _ => summary_of <$> (get_status id p w ≫= AgentWorker.from_dict)
         | None => None
         end) as Hlook.
  { intros id. rewrite Hm. rewrite lookup_empty.
    destruct (_tasks p !! id) as [tk|] eqn:E.
    - rewrite decide_True.
      + by destruct (get_status id p w ≫= AgentWorker.from_dict).
      + apply list_elem_of_fmap. exists (id, tk). split; [done|].
        by apply elem_of_map_to_list.
    - by case_decide. }
  split; [done|].
  intros E0. apply map_eq. intros id. rewrite Hlook, E0. by rewrite !lookup_empty.
Qed.

End waiting.

(** ** Resetting the pool *)

Section resetting.
Context {RT : Type}.
Implicit Type w : World RT.
Import WorkerPool IntelligenceRegistry.

Lemma entries_delete_worker now pid wid c wid' :
  entries (delete_worker now pid wid c) !! worker_key pid wid'
  = if decide (wid = wid') then None else entries c !! worker_key pid wid'.
Proof.
  unfold delete_worker. destruct (str_in _ _); simpl.
  - rewrite lookup_insert_ne by (apply not_eq_sym, KeyFacts.worker_key_not_list_key).
    case_decide as H; [subst; apply lookup_delete_eq|].
    apply lookup_delete_ne. by intros ?%KeyFacts.worker_key_inj.
  - case_decide as H; [subst; apply lookup_delete_eq|].
    apply lookup_delete_ne. by intros ?%KeyFacts.worker_key_inj.
Qed.

Lemma entries_delete_workers now pid ids c wid' :
  entries (foldl (fun c wid => delete_worker now pid wid c) c ids) !! worker_key pid wid'
  = if decide (wid' ∈ ids) then None else entries c !! worker_key pid wid'.
Proof.
  revert c. induction ids as [|a ids IH]; intros c; cbn [foldl].
  { case_decide as H; [inversion H|done]. }
  rewrite IH, entries_delete_worker.
  destruct (decide (wid' ∈ ids)).
  - by rewrite decide_True by (by right).
  - destruct (decide (a = wid')) as [->|Hne].
    + by rewrite decide_True by left.
    + rewrite decide_False; [done|]. intros [?|?]%elem_of_cons; by subst.
Qed.

Lemma get_worker_reset p w wid now' :
  get_worker now' (project_id p) wid (cache (reset p w).2)
  = if decide (wid ∈ cache_get_list (clock w) (cache w) (list_key (project_id p)))
    then None
    else get_worker now' (project_id p) wid (cache w).
Proof.
  unfold reset, get_worker, cache_get. simpl.
  rewrite lookup_delete_ne by (apply not_eq_sym, KeyFacts.worker_key_not_list_key).
  rewrite entries_delete_workers. by case_decide.
Qed.

Lemma get_all_workers_reset p w now' :
  get_all_workers now' (project_id p) (cache (reset p w).2) = ∅.
Proof.
  unfold reset, get_all_workers, cache_get_list. simpl.
  by rewrite cache_get_delete_eq.
Qed.

(** C9, as the code has it: on a pool whose tasks have all settled, [reset]
    leaves the pool as [WorkerPool.__init__] makes it and deletes the id list
    of the scope and the record of every id on it, so that the directory is
    empty; the record of an id that is not on the list stays as it was.  The
    next [spawn] then yields the id built from counter 0, and the directory
    holds that worker alone. *)
Theorem reset_restores_fresh_pool p w :
  map_Forall (fun _ tk => task_done tk = true) (_tasks p) →
  let listed := cache_get_list (clock w) (cache w) (list_key (project_id p)) in
  (reset p w).1 = init (project_id p) (on_worker_event p)
  ∧ cache_get (clock w) (cache (reset p w).2) (list_key (project_id p)) = None
  ∧ get_all_status (reset p w).1 (reset p w).2 = ∅
  ∧ (∀ wid, get_status wid (reset p w).1 (reset p w).2
            = if decide (wid ∈ listed) then None else get_status wid p w)
  ∧ ∀ task priority depends_on,
      let '(wid, p', w') :=
        spawn task priority depends_on (reset p w).1 (reset p w).2 in
      wid = "agent-0"
      ∧ _next_id p' = 1%nat
      ∧ get_all_status p' w'
        = {[ "agent-0" := AgentWorker.to_dict
                            (AgentWorker.new "agent-0" task priority
                                             (opt_list depends_on)) ]}.
Proof.
  intros _ listed. split_and!.
  - done.
  - unfold reset. simpl. apply cache_get_delete_eq.
  - unfold get_all_status.
    change (project_id (reset p w).1) with (project_id p).
    apply get_all_workers_reset.
  - intros wid. unfold get_status.
    change (project_id (reset p w).1) with (project_id p).
    change (clock (reset p w).2) with (clock w).
    apply get_worker_reset.
  - intros task priority depends_on.
    unfold spawn, _generate_id.
    change (_next_id (reset p w).1) with 0%nat.
    change ("agent-" +:+ pretty 0%nat) with "agent-0".
    split; [done|]. split; [done|].
    unfold get_all_status. rewrite cache_emit, clock_emit.
    unfold store_worker, get_all_workers, set_worker. simpl.
    set (c1 := cache_set _ (worker_key _ "agent-0") _ _ _).
    assert (cache_get_list (clock w) c1 (list_key (project_id p)) = []) as El.
    { unfold cache_get_list, c1.
      rewrite cache_get_set_ne by apply KeyFacts.worker_key_not_list_key.
      by rewrite cache_get_delete_eq. }
    rewrite El. simpl.
    unfold cache_get_list. rewrite cache_get_set_eq by (unfold WORKER_TIMEOUT; lia).
    simpl. unfold get_worker.
    rewrite cache_get_set_ne by (apply not_eq_sym, KeyFacts.worker_key_not_list_key).
    unfold c1. rewrite cache_get_set_eq by (unfold WORKER_TIMEOUT; lia).
    done.
Qed.

End resetting.

(** ** The order of keys *)

Lemma ascii_compare_eq a b : Ascii.compare a b = Eq → a = b.
Proof. apply Ascii.compare_eq_iff. Qed.

Lemma ascii_compare_refl a : Ascii.compare a a = Eq.
Proof. unfold Ascii.compare. apply N.compare_refl. Qed.

Lemma ascii_compare_lt_trans a b c :
  Ascii.compare a b = Lt → Ascii.compare b c = Lt → Ascii.compare a c = Lt.
Proof.
  unfold Ascii.compare. rewrite !N.compare_lt_iff. lia.
Qed.

Lemma str_compare_lt_trans s1 s2 s3 :
  String.compare s1 s2 = Lt → String.compare s2 s3 = Lt → String.compare s1 s3 = Lt.
Proof.
  revert s2 s3. induction s1 as [|a s1 IH]; intros [|b s2] [|c s3]; simpl; try done.
  destruct (Ascii.compare a b) eqn:Eab; try done;
    destruct (Ascii.compare b c) eqn:Ebc; try done.
  - apply ascii_compare_eq in Eab, Ebc. subst. rewrite ascii_compare_refl. apply IH.
  - apply ascii_compare_eq in Eab. subst. by rewrite Ebc.
  - apply ascii_compare_eq in Ebc. subst. by rewrite Eab.
  - by rewrite (ascii_compare_lt_trans a b c).
Qed.

Lemma str_compare_refl s : String.compare s s = Eq.
Proof. induction s as [|a s IH]; simpl; [done|]. by rewrite ascii_compare_refl. Qed.

Global Instance str_le_trans : Transitive str_le.
Proof.
  intros s1 s2 s3. unfold str_le, String.leb.
  destruct (String.compare s1 s2) eqn:E12; try done;
    destruct (String.compare s2 s3) eqn:E23; try done; intros _ _.
  - apply String.compare_eq_iff in E12, E23. subst. by rewrite str_compare_refl.
  - apply String.compare_eq_iff in E12. subst. by rewrite E23.
  - apply String.compare_eq_iff in E23. subst. by rewrite E12.
  - by rewrite (str_compare_lt_trans s1 s2 s3).
Qed.

Global Instance str_le_antisym : AntiSymm (=) str_le.
Proof. intros s1 s2. apply String.leb_antisym. Qed.

Global Instance str_le_total : Total str_le.
Proof. intros s1 s2. apply String.leb_total. Qed.

Lemma sorted_keys_perm {V} (d1 d2 : list (string * V)) :
  d1.*1 ≡ₚ d2.*1 → sorted_keys d1 = sorted_keys d2.
Proof.
  intros H. unfold sorted_keys. apply (Sorted_unique str_le).
  - apply Sorted_merge_sort; apply _.
  - apply Sorted_merge_sort; apply _.
  - by rewrite !merge_sort_Permutation.
Qed.


(** ** Canonical serialisation *)

Lemma assoc_get_is_Some {V} k (d : list (string * V)) :
  is_Some (assoc_get k d) ↔ k ∈ d.*1.
Proof.
  induction d as [|[k' v] d IH]; simpl.
  - split; [by intros [? ?]|by intros ?%elem_of_nil].
  - case_decide as E.
    + subst. split; [left|by eexists].
    + rewrite IH. split; [by right|]. by intros [?|?]%elem_of_cons.
Qed.

Lemma same_keys_perm {V} (d1 d2 : list (string * V)) :
  NoDup d1.*1 → NoDup d2.*1 → (∀ k, assoc_get k d1 = assoc_get k d2) →
  d1.*1 ≡ₚ d2.*1.
Proof.
  intros H1 H2 H. apply NoDup_Permutation; [done|done|].
  intros k. by rewrite <- !assoc_get_is_Some, H.
Qed.

Lemma assoc_get_rendered (f : Json → string) k (d : list (string * Json)) :
  assoc_get k (map (fun '(k, v) => (k, f v)) d) = f <$> assoc_get k d.
Proof.
  induction d as [|[k' v] d IH]; simpl; [done|]. by case_decide.
Qed.

Lemma keys_rendered (f : Json → string) (d : list (string * Json)) :
  (map (fun '(k, v) => (k, f v)) d).*1 = d.*1.
Proof. induction d as [|[k v] d IH]; [done|]. cbn. f_equal. exact IH. Qed.

(** Dicts that are equal as mappings serialise to the same text under
    [sort_keys=True]. *)
Lemma json_dumps_canonical a b :
  same_mapping a b → json_dumps true a = json_dumps true b.
Proof.
  destruct a as [| | | | |f1], b as [| | | | |f2]; cbn [same_mapping]; try congruence.
  intros (N1 & N2 & H). cbn [json_dumps]. cbn zeta.
  rewrite (sorted_keys_perm _ (map (fun '(k, v) => (k, json_dumps true v)) f2))
    by (rewrite !(keys_rendered (json_dumps true)); by apply same_keys_perm).
  do 3 f_equal. apply map_ext. intros k.
  by rewrite !(assoc_get_rendered (json_dumps true)), H.
Qed.

Lemma generate_tool_hash_canonical sha256 role name a b context :
  same_mapping a b →
  IntelligenceRegistry.generate_tool_hash sha256 role name a context
  = IntelligenceRegistry.generate_tool_hash sha256 role name b context.
Proof.
  intros H. unfold IntelligenceRegistry.generate_tool_hash.
  by rewrite (json_dumps_canonical a b H).
Qed.

(** ** The tool-result cache in the agent loop *)

Section tool_cache.
Context {RT : Type}.
Variable sha256 : string → string.
Variable get_tool : string → option (Tool.t RT).
Implicit Type w : World RT.
Import BaseAgent.


(** The cache key depends on the class of the agent, the name of the tool,
    the arguments as a mapping, and the first 500 characters of the prompt. *)
Lemma tool_hash_identical_calls (a a2 : BaseAgent.t) tc tc2 w w2 :
  class_name a2 = class_name a →
  ToolCall.name tc2 = ToolCall.name tc →
  same_mapping (ToolCall.arguments tc) (ToolCall.arguments tc2) →
  str_take 500 (system_prompt a2 w2) = str_take 500 (system_prompt a w) →
  tool_hash sha256 a2 tc2 w2 = tool_hash sha256 a tc w.
Proof.
  intros E1 E2 E3 E4. unfold tool_hash. rewrite E1, E2, E4.
  symmetry. by apply generate_tool_hash_canonical.
Qed.

(** A call that finds nothing truthy in the cache and finds its tool. *)
Lemma run_tool_call_miss a tc w tool :
  opt_str_truthy (IntelligenceRegistry.get_tool_result (clock w) (tool_hash sha256 a tc w)
                    (cache w)) = false →
  get_tool (ToolCall.name tc) = Some tool →
  run_tool_call sha256 get_tool a tc w
  = let w1 := log_execution (ToolCall.name tc) (ToolCall.arguments tc) w in
    let '(d, out, r) := Tool.execute tool (ToolCall.arguments tc) (runtime w) in
    let w2 := elapse d (put_runtime r w1) in
    match out with
    | Returned result =>
        (Returned (ToolResult.mk (ToolCall.id tc) (ToolCall.name tc) (Some result) None true),
         put_cache (IntelligenceRegistry.cache_tool_result (clock w2)
                      (tool_hash sha256 a tc w) result (cache w2)) w2)
    | Raised e =>
        (Returned (ToolResult.mk (ToolCall.id tc) (ToolCall.name tc) None (Some e) false),
         w2)
    end.
Proof.
  intros Hmiss Htool. unfold run_tool_call. rewrite Hmiss, Htool. simpl.
  by destruct (Tool.execute _ _ _) as [[d out] r].
Qed.

(** A call that finds a non-empty string in the cache. *)
Lemma run_tool_call_hit a tc w r :
  IntelligenceRegistry.get_tool_result (clock w) (tool_hash sha256 a tc w) (cache w) = Some r →
  str_truthy r = true →
  run_tool_call sha256 get_tool a tc w = (Raised logger_unbound, w).
Proof.
  intros H Hr. unfold run_tool_call. rewrite H. simpl. by rewrite Hr.
Qed.

(** What the first call leaves in the cache when its tool returns. *)
Lemma tool_result_after_miss a tc w tool d r rt now' :
  opt_str_truthy (IntelligenceRegistry.get_tool_result (clock w) (tool_hash sha256 a tc w)
                    (cache w)) = false →
  get_tool (ToolCall.name tc) = Some tool →
  Tool.execute tool (ToolCall.arguments tc) (runtime w) = (d, Returned r, rt) →
  now' < clock (run_tool_call sha256 get_tool a tc w).2 + IntelligenceRegistry.TOOL_TIMEOUT →
  IntelligenceRegistry.get_tool_result now' (tool_hash sha256 a tc w)
    (cache (run_tool_call sha256 get_tool a tc w).2) = Some r
  ∧ executions (run_tool_call sha256 get_tool a tc w).2
    = executions w ++ [(ToolCall.name tc, ToolCall.arguments tc)].
Proof.
  intros Hmiss Htool Hex. rewrite run_tool_call_miss with (tool := tool) by done.
  rewrite Hex. simpl. intros Hnow.
  unfold IntelligenceRegistry.get_tool_result, IntelligenceRegistry.cache_tool_result.
  by rewrite cache_get_set_eq.
Qed.

(** C3, as the code has it: when a call finds nothing in the cache and its
    tool returns a non-empty string, the string is cached under the key of
    the call; a later call with the same agent class, tool name, arguments
    (as a mapping) and prompt prefix, made while the entry is in the cache
    and less than the time-to-live after it was written, finds that string
    there, executes nothing and changes nothing: the tool has run once.  A
    call whose tool raises leaves the cache as it was. *)
Theorem cached_tool_call_executes_nothing (a a2 : BaseAgent.t) tc tc2 w w2 tool d r rt :
  opt_str_truthy (IntelligenceRegistry.get_tool_result (clock w) (tool_hash sha256 a tc w)
                    (cache w)) = false →
  get_tool (ToolCall.name tc) = Some tool →
  Tool.execute tool (ToolCall.arguments tc) (runtime w) = (d, Returned r, rt) →
  str_truthy r = true →
  class_name a2 = class_name a →
  ToolCall.name tc2 = ToolCall.name tc →
  same_mapping (ToolCall.arguments tc) (ToolCall.arguments tc2) →
  str_take 500 (system_prompt a2 w2) = str_take 500 (system_prompt a w) →
  entries (cache w2) !! IntelligenceRegistry._gen_key "tool_cache" (tool_hash sha256 a tc w)
  = entries (cache (run_tool_call sha256 get_tool a tc w).2)
      !! IntelligenceRegistry._gen_key "tool_cache" (tool_hash sha256 a tc w) →
  clock w2 < clock (run_tool_call sha256 get_tool a tc w).2 + IntelligenceRegistry.TOOL_TIMEOUT →
  executions (run_tool_call sha256 get_tool a tc w).2
  = executions w ++ [(ToolCall.name tc, ToolCall.arguments tc)]
  ∧ IntelligenceRegistry.get_tool_result (clock w2) (tool_hash sha256 a2 tc2 w2) (cache w2)
    = Some r
  ∧ (run_tool_call sha256 get_tool a2 tc2 w2).2 = w2
  ∧ ∀ tc3 w3 tool3 d3 e rt3,
      opt_str_truthy (IntelligenceRegistry.get_tool_result (clock w3)
                        (tool_hash sha256 a tc3 w3) (cache w3)) = false →
      get_tool (ToolCall.name tc3) = Some tool3 →
      Tool.execute tool3 (ToolCall.arguments tc3) (runtime w3) = (d3, Raised e, rt3) →
      cache (run_tool_call sha256 get_tool a tc3 w3).2 = cache w3.
Proof.
  intros Hmiss Htool Hex Hr Ec En Ea Ep Eentry Hclock.
  destruct (tool_result_after_miss a tc w tool d r rt (clock w2) Hmiss Htool Hex Hclock)
    as [Hget Hexec].
  assert (IntelligenceRegistry.get_tool_result (clock w2) (tool_hash sha256 a2 tc2 w2)
            (cache w2) = Some r) as Hget2.
  { rewrite (tool_hash_identical_calls a a2 tc tc2 w w2) by done.
    revert Hget. unfold IntelligenceRegistry.get_tool_result, cache_get.
    by rewrite Eentry. }
  split_and!.
  - done.
  - done.
  - by rewrite (run_tool_call_hit a2 tc2 w2 r).
  - intros tc3 w3 tool3 d3 e rt3 Hm3 Ht3 He3.
    rewrite run_tool_call_miss with (tool := tool3) by done. by rewrite He3.
Qed.

(** C10: the test for a cache hit is the truthiness of the stored value.
    When a call finds nothing in the cache and its tool returns the empty
    string, that string is cached; a later identical call within the
    time-to-live finds it there and executes the tool again all the same,
    and caches the empty string once more if the tool returns it again. *)
Theorem empty_cached_result_is_executed_again
    (a a2 : BaseAgent.t) tc tc2 w w2 tool d rt :
  opt_str_truthy (IntelligenceRegistry.get_tool_result (clock w) (tool_hash sha256 a tc w)
                    (cache w)) = false →
  get_tool (ToolCall.name tc) = Some tool →
  Tool.execute tool (ToolCall.arguments tc) (runtime w) = (d, Returned "", rt) →
  class_name a2 = class_name a →
  ToolCall.name tc2 = ToolCall.name tc →
  same_mapping (ToolCall.arguments tc) (ToolCall.arguments tc2) →
  str_take 500 (system_prompt a2 w2) = str_take 500 (system_prompt a w) →
  entries (cache w2) !! IntelligenceRegistry._gen_key "tool_cache" (tool_hash sha256 a tc w)
  = entries (cache (run_tool_call sha256 get_tool a tc w).2)
      !! IntelligenceRegistry._gen_key "tool_cache" (tool_hash sha256 a tc w) →
  clock w2 < clock (run_tool_call sha256 get_tool a tc w).2 + IntelligenceRegistry.TOOL_TIMEOUT →
  IntelligenceRegistry.get_tool_result (clock w2) (tool_hash sha256 a2 tc2 w2) (cache w2)
  = Some ""
  ∧ executions (run_tool_call sha256 get_tool a2 tc2 w2).2
    = executions w2 ++ [(ToolCall.name tc2, ToolCall.arguments tc2)]
  ∧ ∀ d2 rt2,
      Tool.execute tool (ToolCall.arguments tc2) (runtime w2) = (d2, Returned "", rt2) →
      journal (cache (run_tool_call sha256 get_tool a2 tc2 w2).2)
      = journal (cache w2)
        ++ [OpSet (IntelligenceRegistry._gen_key "tool_cache" (tool_hash sha256 a2 tc2 w2))
                  (VStr "")].
Proof.
  intros Hmiss Htool Hex Ec En Ea Ep Eentry Hclock.
  destruct (tool_result_after_miss a tc w tool d "" rt (clock w2) Hmiss Htool Hex Hclock)
    as [Hget _].
  assert (IntelligenceRegistry.get_tool_result (clock w2) (tool_hash sha256 a2 tc2 w2) (cache w2)
          = Some "") as Hget2.
  { rewrite (tool_hash_identical_calls a a2 tc tc2 w w2) by done.
    revert Hget. unfold IntelligenceRegistry.get_tool_result, cache_get.
    by rewrite Eentry. }
  split; [done|].
  assert (get_tool (ToolCall.name tc2) = Some tool) as Htool2 by (by rewrite En).
  rewrite run_tool_call_miss with (tool := tool) by (by rewrite ?Hget2).
  split.
  - destruct (Tool.execute tool (ToolCall.arguments tc2) (runtime w2))
      as [[d2 [r2|e2]] rt2]; reflexivity.
  - intros d2 rt2 ->. done.
Qed.

End tool_cache.

(** ** The orchestrator's fan-out and fan-in *)

Section fan_in.
Context {RT : Type}.
Variable json_loads : string → option Json.
Variable crew_tools : list (CrewTool.t RT).
Variable schedule : list RawToolCall.t → list nat.
Implicit Type w : World RT.
Import CrewOrchestrator.

Lemma call_tool_fields tc ps w :
  let r := (call_tool json_loads crew_tools tc ps w).1.1.1 in
  ToolTurn.tool_call_id r = get_tc_id tc
  ∧ ToolTurn.role r = "tool"
  ∧ ToolTurn.tool_name r = get_tc_name tc.
Proof.
  unfold call_tool. destruct (find_tool _ _) as [tool|]; [|done].
  destruct (CrewTool.execute _ _ _ _) as [[[d [r|e]] ps'] w']; done.
Qed.

(** The three steps of a coroutine, taken one after the other, are
    [execute_tool_call]: with one requested call, [gather] is that
    function. *)
Lemma gather_one_call o tc ps w :
  gather json_loads crew_tools o [tc] [] ps w
  = let '(res, ps', w') := execute_tool_call json_loads crew_tools o tc ps w in
    ([res], ps', w').
Proof.
  unfold gather, execute_tool_call, finish_tool_call. cbn.
  destruct (call_tool _ _ _ _ _) as [[[res [u|]] ps'] w']; reflexivity.
Qed.

(** One turn of the event loop: every coroutine is at least as far as it
    was, and the one that had the turn is a step further unless it had
    returned. *)
Lemma run_slot_spec o calls i slots ps w :
  slots_ok json_loads crew_tools calls slots →
  let st := run_slot json_loads crew_tools o calls i (slots, ps, w) in
  slots_ok json_loads crew_tools calls st.1.1
  ∧ ∀ j c, slots !! j = Some c →
      ∃ c', st.1.1 !! j = Some c'
            ∧ (progress c ≤ progress c')%nat
            ∧ (j = i → (3 `min` S (progress c) ≤ progress c')%nat).
Proof.
  intros [Hlen Hok]. unfold run_slot.
  destruct (calls !! i) as [tc|] eqn:Ec.
  2:{ simpl. split; [done|]. intros j c Hj. exists c. split_and!; [done|lia|].
      intros ->. apply lookup_ge_None in Ec. apply lookup_lt_Some in Hj. lia. }
  destruct (slots !! i) as [ci|] eqn:Es.
  2:{ simpl. split; [done|]. intros j c Hj. exists c. split_and!; [done|lia|].
      intros ->. congruence. }
  assert (i < length slots)%nat as Hi by (by apply lookup_lt_Some in Es).
  assert (progress ci ≤ 3)%nat as Hci by (destruct ci; simpl; lia).
  assert (∀ (cn : CallState) (ps' : WorkerPool.t * option Z) (w' : World RT),
            (∀ r, result_of cn = Some r →
                  ∃ tc' ps0 (w0 : World RT), calls !! i = Some tc'
                    ∧ r = (call_tool json_loads crew_tools tc' ps0 w0).1.1.1) →
            (3 `min` S (progress ci) ≤ progress cn)%nat →
            slots_ok json_loads crew_tools calls (<[i := cn]> slots, ps', w').1.1
            ∧ ∀ j c, slots !! j = Some c →
                ∃ c', (<[i := cn]> slots, ps', w').1.1 !! j = Some c'
                      ∧ (progress c ≤ progress c')%nat
                      ∧ (j = i → (3 `min` S (progress c) ≤ progress c')%nat)) as Hset.
  { intros cn ps' w' Hres Hprog. simpl. split.
    - split; [by rewrite length_insert|].
      intros j c r. destruct (decide (i = j)) as [<-|Hne].
      + rewrite list_lookup_insert_eq by done. intros [= <-]. apply Hres.
      + rewrite list_lookup_insert_ne by done. apply Hok.
    - intros j c Hj. destruct (decide (i = j)) as [<-|Hne].
      + exists cn. rewrite list_lookup_insert_eq by done.
        assert (c = ci) as -> by congruence. split_and!; [done|lia|done].
      + exists c. rewrite list_lookup_insert_ne by done. split_and!; [done|lia|done]. }
  destruct ci as [| |res u|res].
  - apply Hset; [done|simpl; lia].
  - destruct (call_tool json_loads crew_tools tc ps w) as [[[res u] ps'] w'] eqn:Ecall.
    apply Hset.
    + intros r Hr. exists tc, ps, w. split; [done|]. rewrite Ecall. simpl.
      destruct u; simpl in Hr; congruence.
    + destruct u; simpl; lia.
  - apply Hset; [|simpl; lia].
    intros r [= <-]. by apply (Hok i (Executed res u)).
  - simpl. split; [done|]. intros j c Hj. exists c. split_and!; [done|lia|].
    intros ->. assert (c = Finished res) as -> by congruence. simpl. lia.
Qed.

Lemma run_slots_spec o calls l slots ps w :
  slots_ok json_loads crew_tools calls slots →
  let st := foldl (fun st i => run_slot json_loads crew_tools o calls i st)
                  (slots, ps, w) l in
  slots_ok json_loads crew_tools calls st.1.1
  ∧ ∀ j c, slots !! j = Some c →
      ∃ c', st.1.1 !! j = Some c'
            ∧ (progress c ≤ progress c')%nat
            ∧ (j ∈ l → (3 `min` S (progress c) ≤ progress c')%nat).
Proof.
  revert slots ps w. induction l as [|i l IH]; intros slots ps w Hok; cbn [foldl].
  { split; [done|]. intros j c Hj. exists c. split_and!; [done|lia|].
    by intros ?%elem_of_nil. }
  destruct (run_slot_spec o calls i slots ps w Hok) as (Hok1 & Hstep).
  destruct (run_slot _ _ _ _ _ _) as [[slots1 ps1] w1]. cbn [fst snd] in Hok1, Hstep.
  destruct (IH slots1 ps1 w1 Hok1) as (Hok2 & Hrest).
  split; [done|]. intros j c Hj.
  destruct (Hstep j c Hj) as (c1 & Hj1 & Hle1 & Hi1).
  destruct (Hrest j c1 Hj1) as (c2 & Hj2 & Hle2 & Hi2).
  exists c2. split_and!; [done|lia|].
  intros [->|Hin]%elem_of_cons.
  - specialize (Hi1 eq_refl). lia.
  - specialize (Hi2 Hin). lia.
Qed.

Lemma all_finished_results (slots : list CallState) :
  (∀ i, (i < length slots)%nat → ∃ r, slots !! i = Some (Finished r)) →
  slots = Finished <$> omap finished slots.
Proof.
  induction slots as [|c s IH]; intros Hfin; [done|].
  destruct (Hfin 0%nat) as [r Hr]; [simpl; lia|]. simpl in Hr.
  injection Hr as ->. simpl. f_equal.
  apply IH. intros i Hi. apply (Hfin (S i)). simpl. lia.
Qed.

(** Whatever order the coroutines get their turns in, [gather] returns one
    result per requested call, and the result at position [i] is that of
    the tool call at position [i] of the request. *)
Lemma gather_request_order o calls sched ps w :
  let results := (gather json_loads crew_tools o calls sched ps w).1.1 in
  length results = length calls
  ∧ ∀ i tc, calls !! i = Some tc →
      ∃ ps0 (w0 : World RT),
        results !! i = Some (call_tool json_loads crew_tools tc ps0 w0).1.1.1.
Proof.
  unfold gather.
  assert (slots_ok json_loads crew_tools calls (replicate (length calls) NotStarted))
    as Hinit.
  { split; [by rewrite length_replicate|].
    intros i c r [-> _]%lookup_replicate. done. }
  rewrite !foldl_app.
  set (n := length calls).
  pose proof (run_slots_spec o calls sched _ ps w Hinit) as H0.
  destruct (foldl _ _ sched) as [[s0 p0] w0]. cbn [fst snd] in H0. destruct H0 as [Hok0 _].
  pose proof (run_slots_spec o calls (seq 0 n) s0 p0 w0 Hok0) as H1.
  destruct (foldl _ _ (seq 0 n)) as [[s1 p1] w1]. cbn [fst snd] in H1. destruct H1 as [Hok1 H1].
  pose proof (run_slots_spec o calls (seq 0 n) s1 p1 w1 Hok1) as H2.
  destruct (foldl _ _ (seq 0 n)) as [[s2 p2] w2]. cbn [fst snd] in H2. destruct H2 as [Hok2 H2].
  pose proof (run_slots_spec o calls (seq 0 n) s2 p2 w2 Hok2) as H3.
  destruct (foldl _ _ (seq 0 n)) as [[s3 p3] w3]. cbn [fst snd] in H3. destruct H3 as [Hok3 H3].
  simpl.
  assert (∀ i, (i < n)%nat → ∃ r, s3 !! i = Some (Finished r)) as Hfin.
  { intros i Hi.
    assert (i ∈ seq 0 n) as Hin by (apply elem_of_seq; lia).
    destruct Hok0 as [Hl0 _].
    destruct (lookup_lt_is_Some_2 s0 i) as [c0 Hc0]; [fold n in Hl0; lia|].
    destruct (H1 i c0 Hc0) as (c1 & Hc1 & _ & Hp1).
    destruct (H2 i c1 Hc1) as (c2 & Hc2 & _ & Hp2).
    destruct (H3 i c2 Hc2) as (c3 & Hc3 & _ & Hp3).
    specialize (Hp1 Hin). specialize (Hp2 Hin). specialize (Hp3 Hin).
    destruct c3 as [| |r u|r]; simpl in Hp3;
      [destruct c0, c1, c2; simpl in *; lia ..|by exists r]. }
  destruct Hok3 as [Hl3 Hok3]. fold n in Hl3.
  assert (s3 = Finished <$> omap finished s3) as Hs3.
  { apply all_finished_results. intros i Hi. apply Hfin. lia. }
  set (results := omap finished s3) in *.
  assert (length results = n) as Hlr.
  { rewrite <- Hl3. pose proof (f_equal length Hs3) as HL.
    rewrite length_fmap in HL. done. }
  split; [done|]. intros i tc Hi.
  assert (i < n)%nat as Hlt by (by apply lookup_lt_Some in Hi).
  destruct (Hfin i Hlt) as [r Hr].
  destruct (Hok3 i (Finished r) r Hr eq_refl) as (tc' & ps0 & w0' & Htc & ->).
  assert (tc' = tc) as -> by congruence.
  exists ps0, w0'. rewrite Hs3, list_lookup_fmap in Hr.
  destruct (results !! i) as [r'|]; simpl in Hr; [|done].
  by injection Hr as ->.
Qed.

Lemma messages_append_results tool_results final_report o w :
  _messages (append_results tool_results final_report o w).1.2
  = _messages o
    ++ ((fun r => [("role", JStr (ToolTurn.role r));
                   ("tool_call_id", JStr (ToolTurn.tool_call_id r));
                   ("content", JStr (ToolTurn.content r))]) <$> tool_results).
Proof.
  revert final_report o w.
  induction tool_results as [|res rest IH]; intros final_report o w; cbn [append_results].
  { by rewrite app_nil_r. }
  repeat case_match; rewrite IH; simpl; by rewrite <- app_assoc.
Qed.

(** C4: a turn of the model that requests the tool calls [calls] appends to
    the transcript the assistant's text (if it has any), the assistant turn
    that lists the requested calls, and then exactly one tool turn per
    requested call: the tool turn at position [i] carries the id of the call
    at position [i] of the request and, as its content, the result of
    executing that call, in whatever order the executions got their turns
    and completed. *)
Theorem tool_results_appended_in_request_order
    (response : LLMResponse.t RawToolCall.t) final_report o w p :
  pool o = Some p →
  let calls := opt_list (LLMResponse.tool_calls response) in
  let o' := (on_tool_calls json_loads crew_tools schedule response final_report o w).1.2 in
  let text := default "" (LLMResponse.content response) in
  let thinking := if opt_str_truthy (LLMResponse.content response)
                  then [[("role", JStr "assistant"); ("content", JStr text)]]
                  else [] in
  let request := [("role", JStr "assistant"); ("content", JStr text);
                  ("tool_calls", JArr (map (tool_call_entry json_loads) calls))] in
  ∃ tool_turns,
    _messages o' = _messages o ++ thinking ++ [request] ++ tool_turns
    ∧ length tool_turns = length calls
    ∧ ∀ i tc, calls !! i = Some tc →
        ∃ ps0 (w0 : World RT),
          tool_turns !! i
          = Some [("role", JStr "tool");
                  ("tool_call_id", JStr (get_tc_id tc));
                  ("content",
                   JStr (ToolTurn.content
                           (call_tool json_loads crew_tools tc ps0 w0).1.1.1))].
Proof.
  intros Hp calls o' text thinking request. subst o' thinking request text.
  unfold on_tool_calls. fold calls.
  pose proof (gather_request_order) as Hg.
  destruct (opt_str_truthy (LLMResponse.content response));
    cbn [pool append_message set_messages]; rewrite Hp;
    match goal with |- context [gather _ _ ?o1 calls ?s ?ps ?w1] =>
      specialize (Hg o1 calls s ps w1);
      destruct (gather json_loads crew_tools o1 calls s ps w1) as [[results [p' ft]] w'] end;
    cbn [fst snd] in Hg; destruct Hg as [Hlen Hres];
    match goal with |- context [append_results ?rs final_report ?o2 ?w2] =>
      pose proof (messages_append_results rs final_report o2 w2) as Hm;
      destruct (append_results rs final_report o2 w2) as [[fr o3] w3] end;
    cbn [fst snd _messages set_pool set_messages append_message] in Hm |- *;
    eexists; rewrite Hm, <- ?app_assoc;
    (split; [reflexivity|]);
    (split; [by rewrite length_fmap|]);
    intros i tc Hi; destruct (Hres i tc Hi) as (ps0 & w0 & Hr);
    exists ps0, w0; rewrite list_lookup_fmap, Hr; simpl;
    by destruct (call_tool_fields tc ps0 w0) as (-> & -> & _).
Qed.

End fan_in.

(** ** The orchestrator's turn without tool calls *)

Section final_text.
Context {RT : Type}.
Variable crew_tools : list (CrewTool.t RT).
Implicit Type w : World RT.
Import CrewOrchestrator.

Lemma get_workers_nil_iff p w :
  WorkerPool.get_workers p w = Some [] ↔ WorkerPool.get_all_status p w = ∅.
Proof.
  unfold WorkerPool.get_workers. split.
  - intros H. apply map_to_list_empty_iff.
    destruct (map_to_list (WorkerPool.get_all_status p w)) as [|[k d] l]; [done|].
    simpl in H. destruct (AgentWorker.from_dict d); simpl in H; [|done].
    by destruct (mapM _ _).
  - intros ->. by rewrite map_to_list_empty.
Qed.

Lemma executions_broadcast o d w : executions (broadcast o d w) = executions w.
Proof. unfold broadcast. by destruct (channel_layer o). Qed.

(** C5, as the code has it: on a completion without tool calls, the
    orchestrator asks the pool for its workers, which the pool reads from the
    registry directory of its project.  If there are none, the text is the
    final report; if there is one or more, the finish tool is executed with
    the text as its context and its result is the final report; only if there
    is no finish tool is the text the final report then.  In each case the
    loop ends. *)
Theorem text_turn_finishes_by_registry_directory
    (response : LLMResponse.t RawToolCall.t) final_report o w p :
  pool o = Some p →
  let content := default "" (LLMResponse.content response) in
  let '(yields, final_report', flow, o', w') :=
    on_no_tool_calls crew_tools response final_report o w in
  match WorkerPool.get_workers p w with
  | Some [] =>
      final_report' = content ∧ flow = Break ∧ executions w' = executions w
  | Some (_ :: _) =>
      match find_tool crew_tools "finish" with
      | Some finish_tool =>
          let call :=
            CrewTool.execute finish_tool (JObj [("context", JStr content)])
              (p, finish_tokens o)
              (log_execution "finish" (JObj [("context", JStr content)])
                 (broadcast o (JObj [("phase", JStr "thinking");
                                     ("content", JStr content)]) w)) in
          flow = Break
          ∧ final_report' = match call.1.1.2 with
                            | Returned report => report
                            | Raised _ => final_report
                            end
          ∧ executions w' = executions call.2
      | None =>
          final_report' = content ∧ flow = Break ∧ executions w' = executions w
      end
  | None => flow = Throw "ValueError"
  end.
Proof.
  intros Hp content. unfold on_no_tool_calls. fold content.
  assert (∀ m, pool (if str_truthy content then append_message m o else o) = Some p) as Hp'.
  { intros m. by destruct (str_truthy content). }
  rewrite Hp'.
  destruct (WorkerPool.get_workers p w) as [[|wk wks]|]; [done| |done].
  assert (∀ m d w0, executions (broadcast (if str_truthy content then append_message m o else o) d w0)
                    = executions w0) as Hb.
  { intros m d w0. unfold broadcast. by repeat case_match. }
  assert (∀ m d w0, broadcast (if str_truthy content then append_message m o else o) d w0
                    = broadcast o d w0) as Hb'.
  { intros m d w0. unfold broadcast. by destruct (str_truthy content). }
  assert (∀ m, finish_tokens (if str_truthy content then append_message m o else o)
               = finish_tokens o) as Hft.
  { intros m. by destruct (str_truthy content). }
  destruct (find_tool crew_tools "finish") as [finish_tool|].
  2:{ by rewrite Hb. }
  rewrite Hft, Hb'.
  destruct (CrewTool.execute finish_tool _ _ _) as [[[d [report|e]] [p' ft]] w1] eqn:E.
  - destruct (finish_tokens_due ft); simpl; by rewrite ?executions_broadcast.
  - simpl. by rewrite executions_broadcast.
Qed.

End final_text.

(** ** Scenarios *)

Section directory.
Import IntelligenceRegistry.

(** Inserting a worker keeps the id list consistent with the records. *)
Lemma directory_consistent_set_worker now pid wid d timeout c :
  0 < timeout →
  (∀ x, is_Some (get_worker now pid x c) → x ∈ cache_get_list now c (list_key pid)) →
  ∀ x, is_Some (get_worker now pid x (set_worker now pid wid d timeout c)) →
       x ∈ cache_get_list now (set_worker now pid wid d timeout c) (list_key pid).
Proof.
  intros Ht Hc x Hx.
  assert (cache_get_list now (cache_set now (worker_key pid wid) (VDict d) timeout c)
            (list_key pid) = cache_get_list now c (list_key pid)) as El.
  { unfold cache_get_list. by rewrite cache_get_set_ne by apply KeyFacts.worker_key_not_list_key. }
  destruct (decide (wid = x)) as [->|Hne].
  - unfold set_worker. rewrite El.
    destruct (str_in x _) eqn:Ein.
    + rewrite El. by apply bool_decide_eq_true in Ein.
    + unfold cache_get_list at 1. rewrite cache_get_set_eq by lia.
      apply elem_of_app. right. by left.
  - rewrite get_worker_set_worker_ne in Hx by done. apply Hc in Hx.
    unfold set_worker. rewrite El.
    destruct (str_in wid _).
    + by rewrite El.
    + unfold cache_get_list at 1. rewrite cache_get_set_eq by lia.
      apply elem_of_app. by left.
Qed.

End directory.


(** ** The registry: records, directory, namespaces *)

Section registry_extras.
Import IntelligenceRegistry.

Lemma cache_get_list_set_worker_key now now' pid wid v timeout c pid' :
  cache_get_list now' (cache_set now (worker_key pid wid) v timeout c) (list_key pid')
  = cache_get_list now' c (list_key pid').
Proof.
  unfold cache_get_list.
  by rewrite cache_get_set_ne by apply KeyFacts.worker_key_not_list_key.
Qed.

(** X1: a worker record written with [set_worker] is read back by
    [get_worker] at any time before its timeout has passed and is gone from
    then on. *)
Theorem set_worker_then_get_worker now now' pid wid d timeout c :
  get_worker now' pid wid (set_worker now pid wid d timeout c)
  = if decide (now' < now + timeout) then Some d else None.
Proof.
  case_decide as H; [by apply get_worker_set_worker_eq|].
  unfold get_worker, set_worker.
  assert (∀ c', cache_get now' (cache_set now (worker_key pid wid) (VDict d) timeout c')
                  (worker_key pid wid) = None) as Hexp.
  { intros c'. unfold cache_get, cache_set. simpl.
    rewrite lookup_insert_eq. by rewrite decide_False. }
  destruct (str_in _ _).
  - by rewrite Hexp.
  - rewrite cache_get_set_ne by (apply not_eq_sym, KeyFacts.worker_key_not_list_key).
    by rewrite Hexp.
Qed.

Lemma get_tool_result_set_worker now now' pid wid d timeout c h :
  get_tool_result now' h (set_worker now pid wid d timeout c) = get_tool_result now' h c.
Proof.
  unfold get_tool_result, set_worker. destruct (str_in _ _).
  - by rewrite cache_get_set_ne by (apply not_eq_sym, KeyFacts.tool_key_not_worker_key).
  - rewrite cache_get_set_ne by (apply not_eq_sym, KeyFacts.tool_key_not_list_key).
    by rewrite cache_get_set_ne by (apply not_eq_sym, KeyFacts.tool_key_not_worker_key).
Qed.

Lemma get_tool_result_delete_worker now now' pid wid c h :
  get_tool_result now' h (delete_worker now pid wid c) = get_tool_result now' h c.
Proof.
  unfold get_tool_result, delete_worker. destruct (str_in _ _).
  - rewrite cache_get_set_ne by (apply not_eq_sym, KeyFacts.tool_key_not_list_key).
    by rewrite cache_get_delete_ne by (apply not_eq_sym, KeyFacts.tool_key_not_worker_key).
  - by rewrite cache_get_delete_ne by (apply not_eq_sym, KeyFacts.tool_key_not_worker_key).
Qed.

Lemma get_worker_cache_tool_result now now' pid wid h r c :
  get_worker now' pid wid (cache_tool_result now h r c) = get_worker now' pid wid c.
Proof.
  unfold get_worker, cache_tool_result.
  by rewrite cache_get_set_ne by apply KeyFacts.tool_key_not_worker_key.
Qed.

Lemma cache_get_list_cache_tool_result now now' pid h r c :
  cache_get_list now' (cache_tool_result now h r c) (list_key pid)
  = cache_get_list now' c (list_key pid).
Proof.
  unfold cache_get_list, cache_tool_result.
  by rewrite cache_get_set_ne by apply KeyFacts.tool_key_not_list_key.
Qed.

Lemma get_all_workers_fold now pid c ids (acc : gmap string WorkerDict.t) wid :
  foldl (fun results x =>
           match get_worker now pid x c with
           | Some data => <[x := data]> results
           | None => results
           end) acc ids !! wid
  = if decide (wid ∈ ids)
    then match get_worker now pid wid c with
         | Some data => Some data
         | None => acc !! wid
         end
    else acc !! wid.
Proof.
  revert acc. induction ids as [|a ids IH]; intros acc; cbn [foldl].
  { case_decide as H; [inversion H|done]. }
  rewrite IH.
  destruct (decide (wid = a)) as [->|Hne].
  - rewrite (decide_True (P := a ∈ a :: ids)) by left.
    destruct (get_worker now pid a c) as [data|] eqn:E.
    + case_decide; [done|by rewrite lookup_insert_eq].
    + by case_decide.
  - assert (wid ∈ a :: ids ↔ wid ∈ ids) as Hiff.
    { split; [by intros [?|?]%elem_of_cons|by right]. }
    destruct (decide (wid ∈ ids)) as [Hin|Hnin].
    + rewrite decide_True by (by apply Hiff).
      destruct (get_worker now pid wid c); [done|].
      destruct (get_worker now pid a c); [by rewrite lookup_insert_ne|done].
    + rewrite decide_False by (by rewrite Hiff).
      destruct (get_worker now pid a c); [by rewrite lookup_insert_ne|done].
Qed.

Lemma get_all_workers_at now pid c wid :
  get_all_workers now pid c !! wid
  = if decide (wid ∈ cache_get_list now c (list_key pid))
    then get_worker now pid wid c
    else None.
Proof.
  unfold get_all_workers. rewrite get_all_workers_fold, lookup_empty.
  case_decide; [|done]. by destruct (get_worker now pid wid c).
Qed.

(** X2: [get_all_workers] returns the record of exactly those ids that are
    on the project's id list and whose record is there; an id that is not
    listed is not returned even if its record is there, and a listed id whose
    record has expired is skipped. *)
Theorem get_all_workers_lookup now pid c wid :
  (get_all_workers now pid c !! wid
   = if decide (wid ∈ cache_get_list now c (list_key pid))
     then get_worker now pid wid c
     else None)
  ∧ (∀ d, get_all_workers now pid c !! wid = Some d →
          wid ∈ cache_get_list now c (list_key pid)
          ∧ get_worker now pid wid c = Some d)
  ∧ (wid ∉ cache_get_list now c (list_key pid) →
     get_all_workers now pid c !! wid = None).
Proof.
  rewrite get_all_workers_at. split_and!.
  - done.
  - intros d. by case_decide.
  - intros H. by rewrite decide_False.
Qed.

(** X3: the worker directory and the tool-result cache never touch each
    other's entries: registering or removing a worker changes no cached tool
    result, and caching a tool result changes no worker record and no
    listing. *)
Theorem registry_namespaces_are_separate now now' pid wid d timeout h r c :
  get_tool_result now' h (set_worker now pid wid d timeout c) = get_tool_result now' h c
  ∧ get_tool_result now' h (delete_worker now pid wid c) = get_tool_result now' h c
  ∧ get_worker now' pid wid (cache_tool_result now h r c) = get_worker now' pid wid c
  ∧ get_all_workers now' pid (cache_tool_result now h r c) = get_all_workers now' pid c.
Proof.
  split_and!.
  - apply get_tool_result_set_worker.
  - apply get_tool_result_delete_worker.
  - apply get_worker_cache_tool_result.
  - apply map_eq. intros x. rewrite !get_all_workers_at.
    by rewrite cache_get_list_cache_tool_result, get_worker_cache_tool_result.
Qed.

Lemma list_remove_absent x l : x ∉ l → list_remove x l = l.
Proof.
  induction l as [|y l IH]; intros H; simpl; [done|].
  case_decide as E; [subst; exfalso; apply H; left|].
  f_equal. apply IH. intros ?. apply H. by right.
Qed.

Lemma elem_of_list_remove x y l :
  NoDup l → y ∈ list_remove x l ↔ y ∈ l ∧ y ≠ x.
Proof.
  induction l as [|z l IH]; intros Hnd; simpl.
  { split; [by intros ?%elem_of_nil|by intros [?%elem_of_nil _]]. }
  apply NoDup_cons in Hnd as [Hz Hnd].
  case_decide as E.
  - subst z. split.
    + intros Hy. split; [by right|]. by intros ->.
    + intros [[?|?]%elem_of_cons ?]; done.
  - rewrite elem_of_cons, IH, elem_of_cons by done. split.
    + intros [->|[? ?]]; [split; [by left|done]|split; [by right|done]].
    + intros [[->|?] ?]; [by left|by right].
Qed.

Lemma NoDup_list_remove x l : NoDup l → NoDup (list_remove x l).
Proof.
  induction l as [|z l IH]; intros Hnd; simpl; [done|].
  apply NoDup_cons in Hnd as [Hz Hnd].
  case_decide; [done|]. apply NoDup_cons. split; [|by apply IH].
  rewrite elem_of_list_remove by done. by intros [? _].
Qed.

Lemma delete_worker_effect now now' pid wid c :
  get_worker now' pid wid (delete_worker now pid wid c) = None
  ∧ (∀ wid', wid' ≠ wid →
       get_worker now' pid wid' (delete_worker now pid wid c)
       = get_worker now' pid wid' c)
  ∧ cache_get_list now (delete_worker now pid wid c) (list_key pid)
    = list_remove wid (cache_get_list now c (list_key pid)).
Proof.
  assert (∀ wid', get_worker now' pid wid' (delete_worker now pid wid c)
                  = if decide (wid = wid') then None else get_worker now' pid wid' c) as H.
  { intros wid'. unfold get_worker, cache_get. rewrite entries_delete_worker.
    by case_decide. }
  split_and!.
  - by rewrite H, decide_True.
  - intros wid' Hne. by rewrite H, decide_False.
  - unfold delete_worker.
    assert (cache_get_list now (cache_delete (worker_key pid wid) c) (list_key pid)
            = cache_get_list now c (list_key pid)) as El.
    { unfold cache_get_list.
      by rewrite cache_get_delete_ne by apply KeyFacts.worker_key_not_list_key. }
    rewrite El. destruct (str_in _ _) eqn:Ein.
    + unfold cache_get_list at 1.
      by rewrite cache_get_set_eq by (unfold DEFAULT_TIMEOUT; lia).
    + rewrite El. symmetry. apply list_remove_absent.
      by apply bool_decide_eq_false in Ein.
Qed.

(** X4: [delete_worker] removes the worker's record for good and leaves
    every other worker's record as it was; it takes the first occurrence of
    the id off the id list, so that on a list without duplicates the id is no
    longer listed and every other id still is. *)
Theorem delete_worker_removes_record_and_listing now now' pid wid c :
  get_worker now' pid wid (delete_worker now pid wid c) = None
  ∧ (∀ wid', wid' ≠ wid →
       get_worker now' pid wid' (delete_worker now pid wid c)
       = get_worker now' pid wid' c)
  ∧ cache_get_list now (delete_worker now pid wid c) (list_key pid)
    = list_remove wid (cache_get_list now c (list_key pid))
  ∧ (NoDup (cache_get_list now c (list_key pid)) →
     ∀ x, x ∈ cache_get_list now (delete_worker now pid wid c) (list_key pid)
          ↔ x ∈ cache_get_list now c (list_key pid) ∧ x ≠ wid).
Proof.
  destruct (delete_worker_effect now now' pid wid c) as (H1 & H2 & H3).
  split_and!; [done|done|done|].
  intros Hnd x. rewrite H3. by apply elem_of_list_remove.
Qed.

Lemma directory_consistent_exec now pid op c :
  directory_consistent now pid c →
  directory_consistent now pid (RegistryOp.exec now pid c op).
Proof.
  intros [Hnd Hiff]. destruct op as [wid d|wid]; simpl.
  - (* set_worker *)
    assert (cache_get_list now (set_worker now pid wid d WORKER_TIMEOUT c) (list_key pid)
            = if str_in wid (cache_get_list now c (list_key pid))
              then cache_get_list now c (list_key pid)
              else cache_get_list now c (list_key pid) ++ [wid]) as El.
    { unfold set_worker. rewrite cache_get_list_set_worker_key.
      destruct (str_in _ _); [apply cache_get_list_set_worker_key|].
      unfold cache_get_list at 1.
      by rewrite cache_get_set_eq by (unfold WORKER_TIMEOUT; lia). }
    unfold directory_consistent. rewrite El.
    destruct (str_in _ _) eqn:Ein.
    + apply bool_decide_eq_true in Ein. split; [done|].
      intros x. destruct (decide (wid = x)) as [->|Hne].
      * rewrite get_worker_set_worker_eq by (unfold WORKER_TIMEOUT; lia).
        split; [done|by eexists].
      * rewrite get_worker_set_worker_ne by done. apply Hiff.
    + apply bool_decide_eq_false in Ein. split.
      * apply NoDup_app. split_and!; [done| |apply NoDup_singleton].
        intros x Hx ->%list_elem_of_singleton. done.
      * intros x. rewrite elem_of_app, list_elem_of_singleton.
        destruct (decide (wid = x)) as [->|Hne].
        -- rewrite get_worker_set_worker_eq by (unfold WORKER_TIMEOUT; lia).
           split; [by right|by eexists].
        -- rewrite get_worker_set_worker_ne by done. rewrite Hiff.
           split; [by left|]. by intros [?|?].
  - (* delete_worker *)
    destruct (delete_worker_effect now now pid wid c)
      as (Hgone & Hother & Hlist).
    unfold directory_consistent. rewrite Hlist. split.
    + by apply NoDup_list_remove.
    + intros x. rewrite elem_of_list_remove by done.
      destruct (decide (x = wid)) as [->|Hne].
      * rewrite Hgone. split; [by intros [? ?]|by intros [_ ?]].
      * rewrite Hother by done. rewrite Hiff. split; [done|by intros [? _]].
Qed.

(** X5: at any one instant, registering and removing workers in any order
    on a fresh registry keeps the id list and the records in agreement: no id
    is listed twice, and an id is listed exactly when its record is there, so
    the listing shows every worker. *)
Theorem directory_stays_consistent now pid (ops : list RegistryOp.t) :
  let c := RegistryOp.exec_all now pid ops empty_cache in
  directory_consistent now pid c
  ∧ ∀ wid, get_all_workers now pid c !! wid = get_worker now pid wid c.
Proof.
  assert (directory_consistent now pid (RegistryOp.exec_all now pid ops empty_cache)) as H.
  { unfold RegistryOp.exec_all.
    assert (directory_consistent now pid empty_cache) as H0.
    { split; [constructor|]. intros wid. unfold get_worker, cache_get_list, cache_get.
      simpl. rewrite !lookup_empty. split; [by intros [? ?]|by intros ?%elem_of_nil]. }
    revert H0. generalize empty_cache.
    induction ops as [|op ops IH]; intros c0 H0; simpl; [done|].
    apply IH. by apply directory_consistent_exec. }
  split; [done|]. intros wid. rewrite get_all_workers_at.
  destruct H as [_ Hiff]. case_decide as Hin; [done|].
  destruct (get_worker now pid wid _) eqn:E; [|done].
  exfalso. apply Hin, Hiff. rewrite E. by eexists.
Qed.

(** X6: registering a worker that is already listed rewrites its record but
    not the id list, so the list keeps its old expiry: once that has passed,
    the worker's record is still served by [get_worker] while
    [get_all_workers] no longer shows any worker. *)
Theorem relisted_worker_outlives_the_id_list now now' pid wid d timeout c ids expires :
  entries c !! list_key pid = Some (VList ids, expires) →
  wid ∈ ids →
  now < expires →
  expires ≤ now' →
  now' < now + timeout →
  get_worker now' pid wid (set_worker now pid wid d timeout c) = Some d
  ∧ get_all_workers now' pid (set_worker now pid wid d timeout c) = ∅.
Proof.
  intros Hl Hin Hlive Hexp Hrec. split.
  - by apply get_worker_set_worker_eq.
  - assert (cache_get_list now c (list_key pid) = ids) as El.
    { unfold cache_get_list, cache_get. rewrite Hl. by rewrite decide_True. }
    unfold get_all_workers, set_worker.
    rewrite cache_get_list_set_worker_key, El.
    rewrite (bool_decide_eq_true_2 _ Hin : str_in wid ids = true).
    rewrite cache_get_list_set_worker_key.
    unfold cache_get_list, cache_get. rewrite Hl. by rewrite decide_False by lia.
Qed.

End registry_extras.


(** ** models.py: the worker dict *)

Lemma of_value_value st : AgentStatus.of_value (AgentStatus.value st) = Some st.
Proof. by destruct st. Qed.

Lemma of_value_Some s st : AgentStatus.of_value s = Some st → AgentStatus.value st = s.
Proof.
  unfold AgentStatus.of_value. repeat case_decide; intros [= <-]; by subst.
Qed.

(** X7: [AgentWorker.from_dict] and [to_dict] are inverse to each other:
    a dict is read back as the worker that serialises to it, every worker's
    dict is read back as that worker, and reading fails exactly on a status
    string that is no status's value. *)
Theorem worker_dict_round_trip d w :
  (AgentWorker.from_dict d = Some w ↔ AgentWorker.to_dict w = d)
  ∧ AgentWorker.from_dict (AgentWorker.to_dict w) = Some w
  ∧ (AgentWorker.from_dict d = None
     ↔ ∀ st, AgentStatus.value st ≠ WorkerDict.status d).
Proof.
  split_and!.
  - unfold AgentWorker.from_dict, AgentWorker.to_dict. split.
    + destruct (AgentStatus.of_value (WorkerDict.status d)) as [st|] eqn:E; [|done].
      intros [= <-]. simpl. rewrite (of_value_Some _ _ E). by destruct d.
    + intros <-. simpl. rewrite of_value_value. by destruct w.
  - unfold AgentWorker.from_dict, AgentWorker.to_dict. simpl.
    rewrite of_value_value. by destruct w.
  - unfold AgentWorker.from_dict. split.
    + destruct (AgentStatus.of_value (WorkerDict.status d)) eqn:E; [done|].
      intros _ st Hst. rewrite <- Hst, of_value_value in E. done.
    + intros H. destruct (AgentStatus.of_value (WorkerDict.status d)) as [st|] eqn:E; [|done].
      exfalso. by apply (H st), of_value_Some.
Qed.

(** ** registry.py: the hash of a tool call *)

Lemma assoc_get_Some_elem {V} k (v : V) (d : list (string * V)) :
  NoDup d.*1 → assoc_get k d = Some v ↔ (k, v) ∈ d.
Proof.
  induction d as [|[k' v'] d IH]; simpl; intros Hnd.
  { split; [done|by intros ?%elem_of_nil]. }
  apply NoDup_cons in Hnd as [Hk Hnd]. case_decide as E.
  - subst k'. split.
    + intros [= ->]. left.
    + intros [[= ->]|Hin]%elem_of_cons; [done|].
      exfalso. apply Hk. apply list_elem_of_fmap. by exists (k, v).
  - rewrite IH by done. split; [by right|].
    intros [[= ? ?]|?]%elem_of_cons; [by subst|done].
Qed.

Lemma assoc_get_perm {V} k (d1 d2 : list (string * V)) :
  NoDup d1.*1 → d1 ≡ₚ d2 → assoc_get k d1 = assoc_get k d2.
Proof.
  intros Hnd Hp.
  assert (NoDup d2.*1) as Hnd2 by (by rewrite <- Hp).
  destruct (assoc_get k d1) as [v|] eqn:E1.
  - symmetry. apply assoc_get_Some_elem; [done|]. rewrite <- Hp.
    by apply assoc_get_Some_elem.
  - destruct (assoc_get k d2) as [v|] eqn:E2; [|done].
    apply assoc_get_Some_elem in E2; [|done]. rewrite <- Hp in E2.
    apply assoc_get_Some_elem in E2; [|done]. congruence.
Qed.

(** X8: the hash of a tool call does not depend on the order in which the
    argument dict was built: two dicts with the same items hash alike (and
    likewise serialise alike under [sort_keys=True]). *)
Theorem tool_hash_ignores_argument_order
    (sha256 : string → string) role name (f1 f2 : list (string * Json)) context :
  NoDup f1.*1 →
  f1 ≡ₚ f2 →
  json_dumps true (JObj f1) = json_dumps true (JObj f2)
  ∧ IntelligenceRegistry.generate_tool_hash sha256 role name (JObj f1) context
    = IntelligenceRegistry.generate_tool_hash sha256 role name (JObj f2) context.
Proof.
  intros Hnd Hp.
  assert (same_mapping (JObj f1) (JObj f2)) as Hm.
  { simpl. split_and!; [done|by rewrite <- Hp|]. intros k. by apply assoc_get_perm. }
  split; [by apply json_dumps_canonical|by apply generate_tool_hash_canonical].
Qed.

(** ** base_agent.py: the loop *)

Section agent_loop.
Context {RT : Type}.
Variable sha256 : string → string.
Variable get_tool : string → option (Tool.t RT).
Implicit Type w : World RT.
Import BaseAgent.

Lemma omap_cons_Some {A B} (f : A → option B) x y l :
  f x = Some y → omap f (x :: l) = y :: omap f l.
Proof. intros H. simpl. by rewrite H. Qed.

Lemma run_tool_call_id (a : BaseAgent.t) tc w res w1 :
  run_tool_call sha256 get_tool a tc w = (Returned res, w1) →
  ToolResult.tool_call_id res = ToolCall.id tc.
Proof.
  unfold run_tool_call. repeat case_match; intros [= <- <-]; done.
Qed.

Lemma run_tool_call_raised (a : BaseAgent.t) tc w e w1 :
  run_tool_call sha256 get_tool a tc w = (Raised e, w1) →
  e = logger_unbound ∧ w1 = w
  ∧ opt_str_truthy (IntelligenceRegistry.get_tool_result (clock w)
                      (tool_hash sha256 a tc w) (cache w)) = true.
Proof.
  unfold run_tool_call. repeat case_match; intros [= <- <-]; done.
Qed.

Lemma run_tool_calls_spec tcs (a : BaseAgent.t) w :
  let '(msgs, exn, a', w') := run_tool_calls sha256 get_tool tcs a w in
  conversation_history a' = conversation_history a ++ msgs
  ∧ class_name a' = class_name a
  ∧ max_iterations a' = max_iterations a
  ∧ generate a' = generate a
  ∧ get_system_prompt a' = get_system_prompt a
  ∧ Forall plain msgs
  ∧ Forall (fun m => AgentMessage.role m = "tool_result") msgs
  ∧ omap answered_call msgs = take (length msgs) (ToolCall.id <$> tcs)
  ∧ match exn with
    | None => length msgs = length tcs
    | Some e =>
        e = logger_unbound
        ∧ ∃ tc, tcs !! length msgs = Some tc
                ∧ opt_str_truthy
                    (IntelligenceRegistry.get_tool_result (clock w')
                       (tool_hash sha256 a' tc w') (cache w')) = true
    end.
Proof.
  revert a w. induction tcs as [|tc tcs IH]; intros a w; cbn [run_tool_calls].
  { split_and!; try done. by rewrite app_nil_r. }
  destruct (run_tool_call sha256 get_tool a tc w) as [[res|e] w1] eqn:E1.
  2:{ apply run_tool_call_raised in E1 as (-> & -> & Hhit).
      split_and!; [by rewrite app_nil_r|done..|].
      by exists tc. }
  pose proof (run_tool_call_id a tc w res w1 E1) as Hid.
  specialize (IH (append_history (result_message res) a) w1).
  destruct (run_tool_calls _ _ _ _ _) as [[[msgs exn] a2] w2].
  destruct IH as (H1 & H2 & H3 & H4 & H5 & H6 & H7 & H8 & H9).
  split_and!; try done.
  - rewrite H1. simpl. by rewrite <- app_assoc.
  - by constructor.
  - by constructor.
  - rewrite (omap_cons_Some _ _ (ToolResult.tool_call_id res)) by done.
    simpl. by rewrite Hid, H8.
  - destruct exn as [e|]; [|simpl; by rewrite H9].
    destruct H9 as (-> & tc' & Htc' & Hhit). split; [done|]. by exists tc'.
Qed.

Lemma run_loop_spec n (a : BaseAgent.t) w :
  let '(msgs, ending, a', w') := run_loop sha256 get_tool n a w in
  conversation_history a' = conversation_history a ++ msgs
  ∧ Forall plain msgs
  ∧ Forall (fun m => AgentMessage.role m = "assistant"
                     ∨ AgentMessage.role m = "tool_result") msgs.
Proof.
  revert a w. induction n as [|n IH]; intros a w; cbn [run_loop].
  { split_and!; try done. by rewrite app_nil_r. }
  destruct (generate a _ _) as [d [response|e]].
  2:{ split_and!; try done. by rewrite app_nil_r. }
  destruct (opt_list_truthy _).
  - set (am := AgentMessage.mk "assistant" _ _ None Metadata.empty None).
    pose proof (run_tool_calls_spec (opt_list (LLMResponse.tool_calls response))
                  (append_history am a) (elapse d w)) as H.
    destruct (run_tool_calls _ _ _ _ _) as [[[msgs exn] a1] w1].
    destruct H as (H1 & _ & _ & _ & _ & H6 & H7 & _).
    assert (Forall (fun m => AgentMessage.role m = "assistant"
                             ∨ AgentMessage.role m = "tool_result") msgs) as H7'.
    { eapply Forall_impl; [exact H7|]. intros ? ?. by right. }
    destruct exn as [e|].
    { split_and!.
      - rewrite H1. simpl. by rewrite <- !app_assoc.
      - by constructor.
      - constructor; [by left|done]. }
    specialize (IH a1 w1). destruct (run_loop _ _ _ _ _) as [[[later ending] a2] w2].
    destruct IH as (I1 & I2 & I3).
    split_and!.
    + rewrite I1, H1. simpl. by rewrite <- !app_assoc.
    + constructor; [done|]. by apply Forall_app.
    + constructor; [by left|]. by apply Forall_app.
  - split_and!; [done|by repeat constructor|]. constructor; [by left|constructor].
Qed.

(** X9: what [run] yields is what it appends to the conversation, after
    the user's message and in the same order; every message it yields is an
    assistant or a tool-result message and carries neither metadata nor
    usage, so the loop never reports [max_iterations_reached] or
    [replan_impossible]. *)
Theorem run_yields_what_it_records initial_message (a : BaseAgent.t) w :
  let '(msgs, ending, a', w') := run sha256 get_tool initial_message a w in
  conversation_history a'
  = conversation_history a
    ++ AgentMessage.mk "user" (Some initial_message) None None Metadata.empty None
    :: msgs
  ∧ Forall (fun m => AgentMessage.metadata m = Metadata.empty
                     ∧ AgentMessage.usage m = None) msgs
  ∧ Forall (fun m => AgentMessage.role m = "assistant"
                     ∨ AgentMessage.role m = "tool_result") msgs.
Proof.
  unfold run.
  match goal with |- context [run_loop _ _ ?n ?a0 w] =>
    pose proof (run_loop_spec n a0 w) as H;
    destruct (run_loop sha256 get_tool n a0 w) as [[[msgs ending] a'] w'] end.
  destruct H as (H1 & H2 & H3). split_and!; [|done|done].
  rewrite H1. simpl. by rewrite <- app_assoc.
Qed.

(** X10: the tool calls of a turn are answered in their order, each by one
    tool-result message that carries the id of its call, up to the first
    call that finds a result in the cache: there the use of the unbound name
    [logger] raises, and neither that call nor a later one is answered.  If
    no call finds a result in the cache, every call is answered. *)
Theorem tool_calls_answered_up_to_a_cache_hit tcs (a : BaseAgent.t) w :
  let '(msgs, exn, a', w') := run_tool_calls sha256 get_tool tcs a w in
  omap answered_call msgs = take (length msgs) (ToolCall.id <$> tcs)
  ∧ Forall (fun m => AgentMessage.role m = "tool_result") msgs
  ∧ match exn with
    | None => length msgs = length tcs
    | Some e =>
        e = logger_unbound
        ∧ ∃ tc, tcs !! length msgs = Some tc
                ∧ opt_str_truthy
                    (IntelligenceRegistry.get_tool_result (clock w')
                       (tool_hash sha256 a' tc w') (cache w')) = true
    end.
Proof.
  pose proof (run_tool_calls_spec tcs a w) as H.
  destruct (run_tool_calls _ _ _ _ _) as [[[msgs exn] a'] w'].
  by destruct H as (_ & _ & _ & _ & _ & _ & H7 & H8 & H9).
Qed.

Lemma run_loop_always_tools n (a : BaseAgent.t) w :
  (∀ prompt history, ∃ d response,
      generate a prompt history = (d, Returned response)
      ∧ opt_list_truthy (LLMResponse.tool_calls response) = true) →
  let '(msgs, ending, a', w') := run_loop sha256 get_tool n a w in
  (ending = Exhausted ∨ ending = Failed logger_unbound)
  ∧ (length (filter (fun m => AgentMessage.role m = "assistant") msgs) ≤ n)%nat
  ∧ (ending = Exhausted →
     length (filter (fun m => AgentMessage.role m = "assistant") msgs) = n
     ∧ match last msgs with
       | Some m => AgentMessage.role m = "tool_result"
       | None => n = 0%nat
       end).
Proof.
  intros Hgen. revert a w Hgen. induction n as [|n IH]; intros a w Hgen; cbn [run_loop].
  { split_and!; [by left|done|done]. }
  destruct (Hgen (system_prompt a w) (conversation_history a)) as (d & response & E & Ht).
  rewrite E, Ht.
  set (am := AgentMessage.mk "assistant" _ _ None Metadata.empty None).
  pose proof (run_tool_calls_spec (opt_list (LLMResponse.tool_calls response))
                (append_history am a) (elapse d w)) as H.
  destruct (run_tool_calls _ _ _ _ _) as [[[msgs exn] a1] w1].
  destruct H as (_ & _ & _ & H4 & _ & _ & H7 & _ & H9).
  assert (filter (fun m => AgentMessage.role m = "assistant") msgs = []) as Hf.
  { clear -H7. induction H7 as [|m l Hm Hl IH]; [done|].
    rewrite filter_cons_False; [done|]. rewrite Hm. done. }
  destruct exn as [e|].
  { destruct H9 as (-> & _). split_and!; [by right| |done].
    rewrite filter_cons_True by done. simpl. rewrite Hf. simpl. lia. }
  assert (∀ prompt history, ∃ d response,
            generate a1 prompt history = (d, Returned response)
            ∧ opt_list_truthy (LLMResponse.tool_calls response) = true) as Hgen1.
  { intros. rewrite H4. apply Hgen. }
  specialize (IH a1 w1 Hgen1). destruct (run_loop _ _ _ _ _) as [[[later ending] a2] w2].
  destruct IH as (I1 & I2 & I3).
  split_and!; [done| |].
  - rewrite filter_cons_True by done. simpl. rewrite filter_app, Hf. simpl. lia.
  - intros He. destruct (I3 He) as [I4 I5]. split.
    + rewrite filter_cons_True by done. simpl. rewrite filter_app, Hf. simpl.
      by rewrite I4.
    + assert (msgs ≠ []) as Hne.
      { intros ->. simpl in H9.
        destruct (LLMResponse.tool_calls response) as [[|]|]; done. }
      rewrite last_cons, last_app.
      destruct (last later) as [m|]; [done|].
      destruct (last msgs) as [m|] eqn:El; [|by apply last_None in El].
      rewrite Forall_forall in H7. apply H7.
      apply last_Some in El as [l' ->]. apply elem_of_app. right. by left.
Qed.

(** X11: when the model asks for tools in every turn, [run] ends in one of
    two ways.  Either a tool call finds a result in the cache and the use of
    the unbound name [logger] raises; or [run] makes exactly [max_iterations]
    model calls and then stops without a final answer: its last message is a
    tool result, and nothing marks that the bound was hit. *)
Theorem iteration_bound_ends_the_loop_silently initial_message (a : BaseAgent.t) w :
  (∀ prompt history, ∃ d response,
      generate a prompt history = (d, Returned response)
      ∧ opt_list_truthy (LLMResponse.tool_calls response) = true) →
  max_iterations a ≠ 0%nat →
  let '(msgs, ending, a', w') := run sha256 get_tool initial_message a w in
  (ending = Exhausted ∨ ending = Failed logger_unbound)
  ∧ (length (filter (fun m => AgentMessage.role m = "assistant") msgs)
     ≤ max_iterations a)%nat
  ∧ (ending = Exhausted →
     length (filter (fun m => AgentMessage.role m = "assistant") msgs) = max_iterations a
     ∧ ∃ m, last msgs = Some m
            ∧ AgentMessage.role m = "tool_result"
            ∧ AgentMessage.metadata m = Metadata.empty).
Proof.
  intros Hgen Hn. unfold run.
  match goal with |- context [run_loop _ _ ?n ?a0 w] =>
    pose proof (run_loop_always_tools n a0 w Hgen) as H;
    pose proof (run_loop_spec n a0 w) as H';
    destruct (run_loop sha256 get_tool n a0 w) as [[[msgs ending] a'] w'] end.
  simpl in H. destruct H as (H1 & H2 & H3). destruct H' as (_ & Hp & _).
  split_and!; [done|done|].
  intros He. destruct (H3 He) as [H4 H5]. split; [done|].
  destruct (last msgs) as [m|] eqn:Hm; [|done].
  exists m. split_and!; [done|done|].
  rewrite Forall_forall in Hp. apply Hp.
  apply last_Some in Hm as [l' ->]. apply elem_of_app. right. by left.
Qed.

End agent_loop.

(** ** The worker pool, further *)

Section pool_extras.
Context {RT : Type}.
Implicit Type w : World RT.
Import WorkerPool IntelligenceRegistry.

Lemma listed_after_set_worker now pid wid d timeout c :
  0 < timeout →
  wid ∈ cache_get_list now (set_worker now pid wid d timeout c) (list_key pid).
Proof.
  intros Ht. unfold set_worker. destruct (str_in _ _) eqn:E.
  - by apply bool_decide_eq_true in E.
  - unfold cache_get_list at 1. rewrite cache_get_set_eq by lia.
    apply elem_of_app. right. by apply list_elem_of_singleton.
Qed.

Lemma get_status_store_worker p wk w :
  get_status (AgentWorker.id wk) p (store_worker p wk w) = Some (AgentWorker.to_dict wk).
Proof.
  unfold get_status, store_worker. cbn.
  apply get_worker_set_worker_eq. unfold WORKER_TIMEOUT. lia.
Qed.

Lemma get_status_store_worker_ne p wk w wid :
  AgentWorker.id wk ≠ wid →
  get_status wid p (store_worker p wk w) = get_status wid p w.
Proof.
  intros Hne. unfold get_status, store_worker. cbn.
  by apply get_worker_set_worker_ne.
Qed.

Lemma get_all_status_store_worker p wk w :
  get_all_status p (store_worker p wk w) !! AgentWorker.id wk
  = Some (AgentWorker.to_dict wk).
Proof.
  unfold get_all_status. rewrite get_all_workers_at.
  rewrite decide_True.
  - apply get_status_store_worker.
  - unfold store_worker. cbn. apply listed_after_set_worker. by unfold WORKER_TIMEOUT.
Qed.

Lemma get_status_emit p p' wid ev data w id :
  get_status id p (_emit p' wid ev data w) = get_status id p w.
Proof. unfold get_status. by rewrite cache_emit, clock_emit. Qed.

Lemma get_all_status_emit p p' wid ev data w :
  get_all_status p (_emit p' wid ev data w) = get_all_status p w.
Proof. unfold get_all_status. by rewrite cache_emit, clock_emit. Qed.

(** *** Worker ids *)

Lemma tasks_run_task wid run p w id :
  is_Some (_tasks (run_task wid run p w).1 !! id) ↔ is_Some (_tasks p !! id).
Proof.
  unfold run_task. destruct (_tasks p !! wid) as [[wk|o]|] eqn:E; [|done..].
  destruct (_run_worker p wk run w); [done|..]; cbn;
    (destruct (decide (wid = id)) as [->|Hne];
     [rewrite lookup_insert_eq, E; split; intros _; by eexists
     |by rewrite lookup_insert_ne]).
Qed.

Lemma next_id_run_task wid run p w :
  _next_id (run_task wid run p w).1 = _next_id p
  ∧ project_id (run_task wid run p w).1 = project_id p
  ∧ on_worker_event (run_task wid run p w).1 = on_worker_event p.
Proof.
  unfold run_task. destruct (_tasks p !! wid) as [[wk|o]|]; [|done..].
  by destruct (_run_worker p wk run w).
Qed.

Lemma tasks_cancel wid p id :
  is_Some (_tasks (cancel wid p).2 !! id) ↔ is_Some (_tasks p !! id).
Proof.
  unfold cancel. destruct (_tasks p !! wid) as [tk|] eqn:E; [|done].
  destruct (task_done tk); [done|]. cbn.
  destruct (decide (wid = id)) as [->|Hne].
  - rewrite lookup_insert_eq, E. split; intros _; by eexists.
  - by rewrite lookup_insert_ne.
Qed.

Lemma next_id_cancel wid p :
  _next_id (cancel wid p).2 = _next_id p
  ∧ project_id (cancel wid p).2 = project_id p
  ∧ on_worker_event (cancel wid p).2 = on_worker_event p.
Proof.
  unfold cancel. destruct (_tasks p !! wid) as [tk|]; [|done].
  by destruct (task_done tk).
Qed.

Lemma exec_counter op p w :
  _next_id (PoolOp.exec op (p, w)).1
  = (_next_id p + count_spawns [op])%nat
  ∧ project_id (PoolOp.exec op (p, w)).1 = project_id p
  ∧ on_worker_event (PoolOp.exec op (p, w)).1 = on_worker_event p.
Proof.
  destruct op as [task priority deps|wid run|wid| |d]; unfold PoolOp.exec;
    vm_compute (count_spawns _).
  - destruct (spawn_spec task priority deps p w "") as (w' & -> & _). cbn.
    split_and!; [lia|done..].
  - destruct (next_id_run_task wid run p w) as (-> & -> & ->). cbn. split_and!; [lia|done..].
  - cbn [fst]. destruct (next_id_cancel wid p) as (-> & -> & ->). cbn. split_and!; [lia|done..].
  - cbn. split_and!; [lia|done..].
  - cbn. split_and!; [lia|done..].
Qed.

Lemma exec_ids_handed_out op p w :
  ids_handed_out p → ids_handed_out (PoolOp.exec op (p, w)).1.
Proof.
  intros Hinv id.
  destruct op as [task priority deps|wid run|wid| |d]; unfold PoolOp.exec.
  - destruct (spawn_spec task priority deps p w "") as (w' & -> & _). cbn.
    destruct (decide ("agent-" +:+ pretty (_next_id p) = id)) as [<-|Hne].
    + rewrite lookup_insert_eq. split; [|by eexists].
      intros _. exists (_next_id p). split; [lia|done].
    + rewrite lookup_insert_ne by done. rewrite (Hinv id). split.
      * intros (i & Hi & ->). exists i. split; [lia|done].
      * intros (i & Hi & ->). exists i. split; [|done].
        destruct (decide (i = _next_id p)) as [->|]; [done|lia].
  - rewrite tasks_run_task.
    destruct (next_id_run_task wid run p w) as (-> & _). apply Hinv.
  - cbn [fst]. rewrite tasks_cancel.
    destruct (next_id_cancel wid p) as (-> & _). apply Hinv.
  - cbn. rewrite lookup_fmap, fmap_is_Some. apply Hinv.
  - apply Hinv.
Qed.

(** X12: However a pool is used from its construction on (spawns, turns of
    its tasks, cancellations, time passing), its counter equals the number
    of spawns made, and the ids it tracks are exactly [agent-0] to
    [agent-(n-1)] for that number [n]: ids are handed out in sequence, none
    is reused and no task is ever forgotten. *)
Theorem worker_ids_are_sequential project_id callback (ops : list PoolOp.t) w :
  let p := (PoolOp.exec_all ops (init project_id callback, w)).1 in
  _next_id p = count_spawns ops
  ∧ ∀ wid, is_Some (_tasks p !! wid)
           ↔ ∃ i : nat, (i < count_spawns ops)%nat ∧ wid = "agent-" +:+ pretty i.
Proof.
  cbn zeta.
  assert (_next_id (PoolOp.exec_all ops (init project_id callback, w)).1 = count_spawns ops
          ∧ ids_handed_out (PoolOp.exec_all ops (init project_id callback, w)).1) as [E H].
  { induction ops as [|op ops IH] using rev_ind.
    - split; [done|]. intros wid. cbn. rewrite lookup_empty. split.
      + by intros [? ?].
      + intros (i & Hi & _). lia.
    - unfold PoolOp.exec_all in *. rewrite foldl_snoc.
      destruct (foldl _ _ ops) as [p1 w1]. cbn [fst] in IH. destruct IH as [E H].
      split.
      + destruct (exec_counter op p1 w1) as (-> & _). rewrite E.
        unfold count_spawns. by rewrite filter_app, length_app.
      + by apply exec_ids_handed_out. }
  split; [done|]. intros wid. rewrite <- E. apply H.
Qed.

(** *** Spawning *)

(** X13: [spawn] persists the new worker before it returns: its PENDING
    record can be read back from the registry, alone and in the listing of
    all workers, the records of the other workers are as they were, and the
    task it started has not run, so that a wait for the new id is
    suspended. *)
Theorem spawn_registers_pending_worker task priority depends_on p w :
  let '(wid, p', w') := spawn task priority depends_on p w in
  let record := AgentWorker.to_dict
                  (AgentWorker.new wid task priority (opt_list depends_on)) in
  wid = "agent-" +:+ pretty (_next_id p)
  ∧ get_status wid p' w' = Some record
  ∧ WorkerDict.status record = "pending"
  ∧ get_all_status p' w' !! wid = Some record
  ∧ (∀ other, other ≠ wid → get_status other p' w' = get_status other p w)
  ∧ wait_for (Some [wid]) p' w' = None.
Proof.
  unfold spawn, _generate_id. cbn zeta.
  set (wid := "agent-" +:+ pretty (_next_id p)).
  set (p1 := mk (project_id p) (on_worker_event p) (_tasks p) (S (_next_id p))).
  set (wk := AgentWorker.new wid task priority (opt_list depends_on)).
  split_and!.
  - done.
  - rewrite (get_status_emit _ p1).
    change wid with (AgentWorker.id wk) at 1.
    apply (get_status_store_worker p1 wk w).
  - done.
  - rewrite (get_all_status_emit _ p1).
    change wid with (AgentWorker.id wk) at 1.
    apply (get_all_status_store_worker p1 wk w).
  - intros other Hne. rewrite (get_status_emit _ p1).
    apply (get_status_store_worker_ne p1 wk w). cbn. congruence.
  - unfold wait_for. cbn [wait_for_ids set_tasks _tasks]. by rewrite lookup_insert_eq.
Qed.

(** *** What is written to the registry *)

Lemma written_status_replicate n s :
  written_status s → Forall written_status (replicate n s).
Proof. intros H. apply Forall_forall. intros x Hx%elem_of_replicate. by destruct Hx as [-> _]. Qed.

Lemma exec_written_statuses op p w wid :
  ∃ l, writes_between (worker_key (project_id p) wid) w (PoolOp.exec op (p, w)).2 l
       ∧ Forall written_status l.
Proof.
  destruct op as [task priority deps|id run|id| |d]; unfold PoolOp.exec.
  - destruct (spawn_spec task priority deps p w wid) as (w' & -> & _ & Hw).
    eexists. split; [exact Hw|]. case_decide; [|done].
    constructor; [|done]. unfold written_status. tauto.
  - unfold run_task. destruct (_tasks p !! id) as [[wk|o]|];
      [|exists []; split; [apply writes_between_refl|done]..].
    destruct (_wait_for_dependencies p (AgentWorker.id wk) (AgentWorker.depends_on wk)) eqn:Hdeps.
    + destruct (run_worker_settles p wk run w wid Hdeps)
        as (wk' & o & w' & Hrun & _ & _ & _ & Hw).
      assert (written_status "running") by (unfold written_status; tauto).
      assert (written_status "complete") by (unfold written_status; tauto).
      assert (written_status "error") by (unfold written_status; tauto).
      assert (∀ n, Forall written_status (replicate n "running"))
        by (intros n; by apply written_status_replicate).
      destruct (snd (ending run)); rewrite Hrun; cbn [snd];
        (eexists; split; [exact Hw|]); (case_decide; [|done]);
        (constructor; [done|]); rewrite ?Forall_app; repeat split; auto.
    + unfold _run_worker. rewrite Hdeps. cbn.
      exists []. split; [apply writes_between_refl|done].
  - exists []. split; [apply writes_between_refl|done].
  - exists []. split; [apply writes_between_refl|done].
  - exists []. split; [by apply writes_between_same_cache|done].
Qed.

(** X14: Whatever is done with a pool, the statuses it writes to a
    worker's registry record are PENDING, RUNNING, COMPLETE and ERROR only:
    a cancellation is never recorded in the registry, nor is FAILED or
    WARNING. *)
Theorem pool_writes_four_statuses_only (ops : list PoolOp.t) p w wid :
  let '(p', w') := PoolOp.exec_all ops (p, w) in
  ∃ news, journal (cache w') = journal (cache w) ++ news
          ∧ Forall written_status
              (status_writes (worker_key (project_id p) wid) news).
Proof.
  assert (∃ l, writes_between (worker_key (project_id p) wid) w
                 (PoolOp.exec_all ops (p, w)).2 l
               ∧ Forall written_status l
               ∧ project_id (PoolOp.exec_all ops (p, w)).1 = project_id p) as H.
  { induction ops as [|op ops IH] using rev_ind.
    - exists []. split_and!; [apply writes_between_refl|done..].
    - unfold PoolOp.exec_all in *. rewrite foldl_snoc.
      destruct (foldl _ _ ops) as [p1 w1]. cbn [fst snd] in IH.
      destruct IH as (l & Hl & Hf & Hp).
      destruct (exec_written_statuses op p1 w1 wid) as (l' & Hl' & Hf').
      rewrite Hp in Hl'.
      exists (l ++ l'). split_and!.
      + by eapply writes_between_trans.
      + by apply Forall_app.
      + destruct (exec_counter op p1 w1) as (_ & -> & _). done. }
  destruct (PoolOp.exec_all ops (p, w)) as [p' w'].
  destruct H as (l & (news & E & <-) & Hf & _). by exists news.
Qed.

End pool_extras.


(** ** One run of a worker *)

Section run_extras.
Context {RT : Type}.
Implicit Type w : World RT.
Import WorkerPool IntelligenceRegistry.

Lemma set_tools_used_same wk :
  AgentWorker.set_tools_used (AgentWorker.tools_used wk) wk = wk.
Proof. by destruct wk. Qed.

Lemma events_emit p wid ev data w :
  events (_emit p wid ev data w)
  = events w ++ (if on_worker_event p then [(wid, ev, data)] else []).
Proof. unfold _emit. destruct (on_worker_event p); [done|]. by rewrite app_nil_r. Qed.

Lemma track_tools_full p tcs wk w :
  let '(wk', w') := track_tools p tcs wk w in
  ∃ more,
    wk' = AgentWorker.set_tools_used (AgentWorker.tools_used wk ++ more) wk
    ∧ (NoDup (AgentWorker.tools_used wk) → NoDup (AgentWorker.tools_used wk ++ more))
    ∧ (∀ n, n ∈ more ↔ (n ∉ AgentWorker.tools_used wk) ∧ (n ∈ (ToolCall.name <$> tcs)))
    ∧ events w' = events w ++ (if on_worker_event p
                               then tool_event (AgentWorker.id wk) <$> more else [])
    ∧ cache w' = cache w ∧ clock w' = clock w.
Proof.
  revert wk w. induction tcs as [|tc tcs IH]; intros wk w; cbn [track_tools].
  - exists []. rewrite !app_nil_r, set_tools_used_same.
    split_and!; try done.
    + intros n. rewrite fmap_nil. split; [by intros ?%elem_of_nil|].
      by intros [_ ?%elem_of_nil].
    + destruct (on_worker_event p); cbn; by rewrite app_nil_r.
  - destruct (str_in _ _) eqn:Hin.
    + apply bool_decide_eq_true in Hin.
      specialize (IH wk w). destruct (track_tools p tcs wk w) as [wk' w'].
      destruct IH as (more & -> & Hnd & Hmore & Hev & Hc & Hk).
      exists more. split_and!; try done.
      intros n. rewrite Hmore, fmap_cons, elem_of_cons. split; [naive_solver|].
      intros [Hn [->|H]]; [done|by split].
    + apply bool_decide_eq_false in Hin.
      set (wk1 := AgentWorker.set_tools_used _ wk).
      specialize (IH wk1 (_emit p (AgentWorker.id wk1) "tool"
                            (JObj [("tool", JStr (ToolCall.name tc))]) w)).
      destruct (track_tools p tcs wk1 _) as [wk' w'].
      destruct IH as (more & -> & Hnd & Hmore & Hev & Hc & Hk).
      exists (ToolCall.name tc :: more). cbn in *.
      rewrite <- !app_assoc in *. cbn in *.
      split_and!.
      * done.
      * intros H. apply Hnd. apply NoDup_app. split_and!; [done| |apply NoDup_singleton].
        intros x Hx ->%list_elem_of_singleton. done.
      * intros n. rewrite elem_of_cons, Hmore.
        destruct (decide (n = ToolCall.name tc)) as [->|Hne]; set_solver.
      * rewrite Hev, events_emit. destruct (on_worker_event p); [|by rewrite app_nil_r].
        by rewrite <- app_assoc.
      * by rewrite Hc, cache_emit.
      * by rewrite Hk, clock_emit.
Qed.

Lemma entries_store_worker p wk w :
  entries (cache (store_worker p wk w)) !! worker_key (project_id p) (AgentWorker.id wk)
  = Some (VDict (AgentWorker.to_dict wk), clock w + WORKER_TIMEOUT).
Proof.
  unfold store_worker, set_worker. cbn [cache put_cache].
  destruct (str_in _ _); cbn [entries cache_set].
  - by rewrite lookup_insert_eq.
  - rewrite lookup_insert_ne by (apply not_eq_sym, KeyFacts.worker_key_not_list_key).
    by rewrite lookup_insert_eq.
Qed.

Lemma events_store_worker p wk w : events (store_worker p wk w) = events w.
Proof. done. Qed.

Lemma track_tokens_full p r wk st w :
  let '(st', w') := track_tokens p r wk st w in
  final_response st' = final_response st
  ∧ hit_max_iterations st' = hit_max_iterations st
  ∧ is_infeasible st' = is_infeasible st
  ∧ cache w' = cache w ∧ clock w' = clock w
  ∧ ∃ evs, events w' = events w ++ evs
           ∧ Forall (worker_event (AgentWorker.id wk) ["tokens"]) evs
           ∧ (on_worker_event p = false → evs = [])
           ∧ (AgentMessage.usage r = None → evs = []).
Proof.
  unfold track_tokens. destruct (AgentMessage.usage r) as [total|].
  - destruct (if Metadata.intermediate _ then _ else _) as [should_count last].
    destruct (should_count && _).
    + cbn. rewrite cache_emit, clock_emit, events_emit. split_and!; try done.
      eexists. split; [done|]. split_and!.
      * destruct (on_worker_event p); [|done].
        constructor; [|done]. split; [done|]. cbn. set_solver.
      * by intros ->.
      * done.
    + cbn. split_and!; try done. exists []. by rewrite app_nil_r.
  - split_and!; try done. exists []. by rewrite app_nil_r.
Qed.

Lemma worker_event_weaken wid names names' evs :
  names ⊆ names' →
  Forall (worker_event wid names) evs → Forall (worker_event wid names') evs.
Proof.
  intros Hsub H. eapply Forall_impl; [exact H|].
  intros e [? ?]. split; [done|]. by apply Hsub.
Qed.

Lemma tool_events wid more : Forall (worker_event wid ["tool"]) (tool_event wid <$> more).
Proof.
  apply Forall_fmap, Forall_forall. intros n _. split; [done|]. cbn. set_solver.
Qed.

(** What the body of the loop does for one message. *)
Lemma on_response_full p r wk st w :
  let '(wk', st', w') := on_response p r wk st w in
  ∃ more evs,
    wk' = AgentWorker.set_tools_used (AgentWorker.tools_used wk ++ more) wk
    ∧ (NoDup (AgentWorker.tools_used wk) → NoDup (AgentWorker.tools_used wk ++ more))
    ∧ (∀ n, n ∈ more ↔ (n ∉ AgentWorker.tools_used wk) ∧ (n ∈ called_tools r))
    ∧ clock w' = clock w
    ∧ events w' = events w ++ evs
    ∧ Forall (worker_event (AgentWorker.id wk) ["tool"; "tokens"]) evs
    ∧ (on_worker_event p = false → evs = [])
    ∧ (AgentMessage.usage r = None → Forall (worker_event (AgentWorker.id wk) ["tool"]) evs)
    ∧ final_response st' = default (final_response st) (final_text_of r)
    ∧ hit_max_iterations st'
      = hit_max_iterations st || Metadata.max_iterations_reached (AgentMessage.metadata r)
    ∧ is_infeasible st'
      = is_infeasible st || Metadata.replan_impossible (AgentMessage.metadata r)
    ∧ entries (cache w') !! worker_key (project_id p) (AgentWorker.id wk)
      = Some (VDict (AgentWorker.to_dict wk'), clock w' + WORKER_TIMEOUT).
Proof.
  unfold on_response.
  pose proof (track_tools_full p (opt_list (AgentMessage.tool_calls r)) wk w) as Ht.
  destruct (track_tools p _ wk w) as [wk1 w1].
  destruct Ht as (more & Ewk & Hnd & Hmore & Hev & Hc & Hk).
  pose proof (track_tokens_full p r wk1 st w1) as Hs.
  destruct (track_tokens p r wk1 st w1) as [st1 w2].
  destruct Hs as (Hf & Hh & Hi & Hc2 & Hk2 & evs2 & Hev2 & Hall2 & Hoff2 & Hnone2).
  assert (AgentWorker.id wk1 = AgentWorker.id wk) as Hid by (by rewrite Ewk).
  exists more, ((if on_worker_event p then tool_event (AgentWorker.id wk) <$> more else [])
                ++ evs2).
  cbn [final_response hit_max_iterations is_infeasible].
  split_and!.
  - done.
  - done.
  - done.
  - cbn. congruence.
  - cbn. by rewrite Hev2, Hev, app_assoc.
  - apply Forall_app. split.
    + destruct (on_worker_event p); [|done].
      eapply worker_event_weaken; [|apply tool_events]. set_solver.
    + rewrite Hid in Hall2. eapply worker_event_weaken; [|exact Hall2]. set_solver.
  - intros Hoff. rewrite Hoff, (Hoff2 Hoff). done.
  - intros Hnone. rewrite (Hnone2 Hnone), app_nil_r.
    destruct (on_worker_event p); [apply tool_events|done].
  - rewrite Hf. unfold final_text_of.
    destruct (opt_str_truthy _ && _) eqn:E; [|done].
    by destruct (AgentMessage.content r).
  - by rewrite Hh.
  - by rewrite Hi.
  - rewrite <- Hid. rewrite entries_store_worker. reflexivity.
Qed.

Lemma last_cons_default {A} (a x : A) l :
  default a (last (x :: l)) = default x (last l).
Proof.
  revert a x. induction l as [|y l IH]; intros a x; [done|].
  change (last (x :: y :: l)) with (last (y :: l)).
  by rewrite (IH a y), (IH x y).
Qed.

(** What the loop over the messages of a run does. *)
Lemma consume_full p rs wk st w :
  let '(wk', st', w') := consume p rs wk st w in
  ∃ more evs,
    wk' = AgentWorker.set_tools_used (AgentWorker.tools_used wk ++ more) wk
    ∧ (NoDup (AgentWorker.tools_used wk) → NoDup (AgentWorker.tools_used wk ++ more))
    ∧ (∀ n, n ∈ more ↔ (n ∉ AgentWorker.tools_used wk)
                        ∧ ∃ m, m ∈ rs.*2 ∧ n ∈ called_tools m)
    ∧ clock w' = clock w + Z.of_nat (sum_list rs.*1)
    ∧ events w' = events w ++ evs
    ∧ Forall (worker_event (AgentWorker.id wk) ["tool"; "tokens"]) evs
    ∧ (on_worker_event p = false → evs = [])
    ∧ (Forall (fun m => AgentMessage.usage m = None) rs.*2
       → Forall (worker_event (AgentWorker.id wk) ["tool"]) evs)
    ∧ final_response st' = default (final_response st) (last (omap final_text_of rs.*2))
    ∧ (Forall (fun m => AgentMessage.metadata m = Metadata.empty) rs.*2
       → hit_max_iterations st' = hit_max_iterations st
         ∧ is_infeasible st' = is_infeasible st)
    ∧ ∀ x, entries (cache w) !! worker_key (project_id p) (AgentWorker.id wk)
           = Some (VDict (AgentWorker.to_dict wk), x) →
           ∃ x', entries (cache w') !! worker_key (project_id p) (AgentWorker.id wk)
                 = Some (VDict (AgentWorker.to_dict wk'), x').
Proof.
  revert wk st w. induction rs as [|[d r] rs IH]; intros wk st w; cbn [consume].
  - exists [], []. rewrite !app_nil_r, set_tools_used_same. cbn.
    split_and!; try done.
    + intros n. split; [by intros ?%elem_of_nil|].
      intros (_ & m & ?%elem_of_nil & _). done.
    + lia.
    + intros x Hx. by exists x.
  - pose proof (on_response_full p r wk st (elapse d w)) as H1.
    destruct (on_response p r wk st (elapse d w)) as [[wk1 st1] w1].
    destruct H1 as (more1 & evs1 & Ewk & Hnd & Hmore & Hk & Hev & Hall & Hoff & Hnone
                    & Hf & Hh & Hi & Hent).
    specialize (IH wk1 st1 w1). destruct (consume p rs wk1 st1 w1) as [[wk' st'] w'].
    destruct IH as (more2 & evs2 & Ewk2 & Hnd2 & Hmore2 & Hk2 & Hev2 & Hall2 & Hoff2
                    & Hnone2 & Hf2 & Hflags2 & Hent2).
    assert (AgentWorker.id wk1 = AgentWorker.id wk) as Hid by (by rewrite Ewk).
    assert (AgentWorker.tools_used wk1 = AgentWorker.tools_used wk ++ more1) as Htu
      by (by rewrite Ewk).
    rewrite Hid in *. rewrite Htu in *.
    exists (more1 ++ more2), (evs1 ++ evs2).
    split_and!.
    + rewrite Ewk2, Ewk. cbn. by rewrite app_assoc.
    + intros H. rewrite app_assoc. auto.
    + intros n. rewrite elem_of_app, Hmore, Hmore2. cbn [fmap list_fmap].
      setoid_rewrite elem_of_cons. cbn [snd]. rewrite not_elem_of_app.
      destruct (decide (n ∈ AgentWorker.tools_used wk)) as [Hin|Hout]; [tauto|].
      destruct (decide (n ∈ more1)) as [Hin1|Hout1].
      * apply Hmore in Hin1 as Hc. split; [|tauto]. intros _. split; [done|].
        exists r. tauto.
      * split.
        -- intros [[_ Hc]|[_ (m & Hm & Hc)]]; (split; [done|]); [exists r|exists m]; tauto.
        -- intros [_ (m & [->|Hm] & Hc)].
           ++ exfalso. apply Hout1, Hmore. tauto.
           ++ right. split; [tauto|]. by exists m.
    + rewrite Hk2, Hk. cbn. lia.
    + by rewrite Hev2, Hev, app_assoc.
    + apply Forall_app. by split.
    + intros Hoff'. by rewrite (Hoff Hoff'), (Hoff2 Hoff').
    + cbn. intros [Hr Hrs]%Forall_cons. apply Forall_app. split; auto.
    + rewrite Hf2, Hf. cbn [fmap list_fmap snd omap list_omap].
      destruct (final_text_of r) as [s|]; [|done]. cbn [default]. symmetry.
      apply last_cons_default.
    + cbn. intros [Hr Hrs]%Forall_cons. destruct (Hflags2 Hrs) as [-> ->].
      rewrite Hh, Hi, Hr. cbn. by rewrite !orb_false_r.
    + intros x _. rewrite Hk in Hent. by apply (Hent2 _ Hent).
Qed.

End run_extras.


Section run_theorems.
Context {RT : Type}.
Implicit Type w : World RT.
Import WorkerPool IntelligenceRegistry.

Lemma final_text_truthy m s : final_text_of m = Some s → str_truthy s = true.
Proof.
  unfold final_text_of. destruct (opt_str_truthy _ && _) eqn:E; [|done].
  apply andb_true_iff in E as [E _]. intros H. by rewrite H in E.
Qed.

Lemma last_final_text_truthy ms s :
  last (omap final_text_of ms) = Some s → str_truthy s = true.
Proof.
  intros H. apply last_Some_elem_of, list_elem_of_omap in H as (m & _ & Hm).
  by eapply final_text_truthy.
Qed.

Lemma settled_dependencies p wk run w wk' o w' :
  _run_worker p wk run w = Settled wk' o w' →
  _wait_for_dependencies p (AgentWorker.id wk) (AgentWorker.depends_on wk) = true.
Proof. unfold _run_worker. by destruct (_wait_for_dependencies _ _ _). Qed.

Lemma plan_summary_no_steps plan :
  opt_list_truthy plan = false → plan_summary plan = "".
Proof. by destruct plan as [[|s l]|]. Qed.

(** The events of a whole run that gets into its agent loop. *)
Lemma run_worker_events p wk run w :
  _wait_for_dependencies p (AgentWorker.id wk) (AgentWorker.depends_on wk) = true →
  (∀ e, snd (ending run) ≠ StartRaised e) →
  ∃ wk' o w' mid last_event,
    _run_worker p wk run w = Settled wk' o w'
    ∧ events w' = events w
                ++ (if on_worker_event p
                    then (AgentWorker.id wk, "status", JObj [("status", JStr "running")])
                         :: mid ++ [last_event]
                    else [])
    ∧ Forall (worker_event (AgentWorker.id wk) ["tool"; "tokens"]) mid
    ∧ last_event.1.1 = AgentWorker.id wk
    ∧ (snd (ending run) = LoopExhausted → last_event.1.2 = "complete")
    ∧ (∀ e, snd (ending run) = LoopRaised e → last_event.1.2 = "error")
    ∧ (snd (ending run) = LoopCancelled → last_event.1.2 = "cancelled").
Proof.
  intros Hdeps Hstart. unfold _run_worker. rewrite Hdeps. cbn [negb].
  set (wk0 := AgentWorker.set_started_at _ _).
  set (w0 := elapse _ _).
  pose proof (consume_full p (responses run) wk0 (mkLoop "" false false false) w0) as H.
  destruct (consume p (responses run) wk0 _ w0) as [[wk1 st1] w1].
  destruct H as (more & evs & Ewk & _ & _ & _ & Hev & Hall & Hoff & _).
  assert (AgentWorker.id wk1 = AgentWorker.id wk) as Hid by (by rewrite Ewk).
  assert (events w0 = events w
                      ++ (if on_worker_event p
                          then [(AgentWorker.id wk, "status", JObj [("status", JStr "running")])]
                          else [])) as Hev0.
  { unfold w0. cbn [events elapse]. by rewrite events_emit. }
  assert (∀ ev, events w1 ++ (if on_worker_event p then [ev] else [])
                = events w
                  ++ (if on_worker_event p
                      then (AgentWorker.id wk, "status", JObj [("status", JStr "running")])
                           :: evs ++ [ev]
                      else [])) as Hall_events.
  { intros ev. rewrite Hev, Hev0. destruct (on_worker_event p) eqn:Hcb.
    - by rewrite <- !app_assoc.
    - by rewrite (Hoff eq_refl), !app_nil_r. }
  destruct (snd (ending run)) as [|e|e|e].
  - eexists _, _, _, evs, _. split; [reflexivity|].
    rewrite events_emit. split; [apply Hall_events|]. by split_and!.
  - eexists _, _, _, evs, _. split; [reflexivity|].
    rewrite events_emit. split; [apply Hall_events|]. by split_and!.
  - eexists _, _, _, evs, _. split; [reflexivity|].
    rewrite events_emit. split; [apply Hall_events|]. by split_and!.
  - by destruct (Hstart e).
Qed.

Lemma settled_not_start_raised p wk run w wk' o w' :
  _run_worker p wk run w = Settled wk' o w' → ∀ e, snd (ending run) ≠ StartRaised e.
Proof.
  unfold _run_worker. destruct (negb _); [done|].
  intros H e He. by rewrite He in H.
Qed.

(** X15: An exception in the agent loop does not leave the worker's task:
    the task returns, the worker ends in ERROR with [str(e)] as its error
    and the result it had, and that final state is what the registry then
    holds for the worker, alone and in the listing of all workers. *)
Theorem exception_in_agent_loop_is_recorded p wk run w e :
  _wait_for_dependencies p (AgentWorker.id wk) (AgentWorker.depends_on wk) = true →
  snd (ending run) = LoopRaised e →
  ∃ wk' w',
    _run_worker p wk run w = Settled wk' TaskReturned w'
    ∧ AgentWorker.status wk' = AgentStatus.ERROR
    ∧ AgentWorker.error wk' = Some e
    ∧ AgentWorker.result wk' = AgentWorker.result wk
    ∧ AgentWorker.completed_at wk' = Some (clock w')
    ∧ get_status (AgentWorker.id wk) p w' = Some (AgentWorker.to_dict wk')
    ∧ get_all_status p w' !! AgentWorker.id wk = Some (AgentWorker.to_dict wk').
Proof.
  intros Hdeps Hend. unfold _run_worker. rewrite Hdeps, Hend. cbn [negb].
  set (wk0 := AgentWorker.set_started_at _ _).
  set (w0 := elapse _ _).
  pose proof (consume_full p (responses run) wk0 (mkLoop "" false false false) w0) as H.
  destruct (consume p (responses run) wk0 _ w0) as [[wk1 st1] w1].
  destruct H as (more & evs & Ewk & _).
  assert (AgentWorker.id wk1 = AgentWorker.id wk) as Hid by (by rewrite Ewk).
  set (wk2 := AgentWorker.set_completed_at _ _).
  assert (AgentWorker.id wk2 = AgentWorker.id wk) as Hid2 by done.
  eexists _, _. split; [done|]. split_and!.
  - done.
  - done.
  - cbn. by rewrite Ewk.
  - cbn. by rewrite clock_emit.
  - rewrite get_status_emit, <- Hid2. apply get_status_store_worker.
  - rewrite get_all_status_emit, <- Hid2. apply get_all_status_store_worker.
Qed.

(** X16: A run whose agent loop runs out in a sandbox whose plan has no
    steps ends with a result that is never empty: the content of the last
    message that had content and no tool calls, or the text [No findings.]
    if there was none.  The registry holds the worker's final state, and
    [get_results] lists the result under the worker's id. *)
Theorem finished_run_result p wk run w :
  _wait_for_dependencies p (AgentWorker.id wk) (AgentWorker.depends_on wk) = true →
  snd (ending run) = LoopExhausted →
  opt_list_truthy (plan run) = false →
  ∃ wk' w' r,
    _run_worker p wk run w = Settled wk' TaskReturned w'
    ∧ AgentWorker.result wk' = Some r
    ∧ r ≠ ""
    ∧ r = default "No findings." (last (omap final_text_of (responses run).*2))
    ∧ get_status (AgentWorker.id wk) p w' = Some (AgentWorker.to_dict wk')
    ∧ WorkerPoolMore.get_results p w' !! AgentWorker.id wk = Some r.
Proof.
  intros Hdeps Hend Hplan. unfold _run_worker. rewrite Hdeps, Hend. cbn [negb].
  rewrite (plan_summary_no_steps _ Hplan).
  set (wk0 := AgentWorker.set_started_at _ _).
  set (w0 := elapse _ _).
  pose proof (consume_full p (responses run) wk0 (mkLoop "" false false false) w0) as H.
  destruct (consume p (responses run) wk0 _ w0) as [[wk1 st1] w1].
  destruct H as (more & evs & Ewk & _ & _ & _ & _ & _ & _ & _ & Hf & _).
  assert (AgentWorker.id wk1 = AgentWorker.id wk) as Hid by (by rewrite Ewk).
  cbn [final_response] in Hf.
  set (r := str_or _ _).
  set (wk3 := AgentWorker.set_status AgentStatus.COMPLETE _).
  assert (AgentWorker.id wk3 = AgentWorker.id wk) as Hid3 by done.
  assert (r = default "No findings." (last (omap final_text_of (responses run).*2)))
    as Hr.
  { unfold r, str_or. cbn [str_truthy]. rewrite Hf.
    destruct (last _) as [s|] eqn:Hl; [|done].
    apply last_final_text_truthy in Hl. cbn. by rewrite Hl. }
  assert (str_truthy r = true) as Htr.
  { rewrite Hr.
    destruct (last _) as [s|] eqn:Hl; [|done]. by apply last_final_text_truthy in Hl. }
  eexists _, _, r. split; [done|]. split_and!.
  - done.
  - intros E. by rewrite E in Htr.
  - done.
  - rewrite get_status_emit, <- Hid3. apply get_status_store_worker.
  - unfold WorkerPoolMore.get_results. rewrite lookup_omap.
    rewrite get_all_status_emit, <- Hid3, get_all_status_store_worker.
    clearbody r. cbn. by rewrite Htr.
Qed.

(** X17: A run cancelled in its agent loop is not recorded: the worker
    object ends CANCELLED and the task cancelled, but no write follows, so
    the registry keeps the record of the last write before, with status
    RUNNING and the completion time the worker had when the run began. *)
Theorem cancelled_run_is_not_recorded p wk run w :
  _wait_for_dependencies p (AgentWorker.id wk) (AgentWorker.depends_on wk) = true →
  snd (ending run) = LoopCancelled →
  ∃ wk' w' d expires,
    _run_worker p wk run w = Settled wk' TaskCancelled w'
    ∧ AgentWorker.status wk' = AgentStatus.CANCELLED
    ∧ AgentWorker.completed_at wk' = Some (clock w')
    ∧ entries (cache w') !! worker_key (project_id p) (AgentWorker.id wk)
      = Some (VDict d, expires)
    ∧ WorkerDict.status d = "running"
    ∧ WorkerDict.completed_at d = AgentWorker.completed_at wk
    ∧ WorkerDict.tools_used d = AgentWorker.tools_used wk'.
Proof.
  intros Hdeps Hend. unfold _run_worker. rewrite Hdeps, Hend. cbn [negb].
  set (wk0 := AgentWorker.set_started_at _ _).
  set (w0 := elapse _ _).
  pose proof (consume_full p (responses run) wk0 (mkLoop "" false false false) w0) as H.
  destruct (consume p (responses run) wk0 _ w0) as [[wk1 st1] w1].
  destruct H as (more & evs & Ewk & _ & _ & _ & _ & _ & _ & _ & _ & _ & Hent).
  destruct (Hent (clock w + WORKER_TIMEOUT)) as (x' & Hx').
  { unfold w0. cbn [cache elapse]. rewrite cache_emit.
    apply (entries_store_worker p wk0 w). }
  eexists _, _, _, x'. split; [done|]. split_and!.
  - done.
  - cbn. by rewrite clock_emit.
  - rewrite cache_emit. cbn [cache elapse]. exact Hx'.
  - by rewrite Ewk.
  - by rewrite Ewk.
  - done.
Qed.

(** X18: The tools a worker is recorded to have used: each name once, in
    the order of first use; a run only adds to the list, and what it adds
    are the names of the tool calls in the messages of the agent loop. *)
Theorem tools_used_lists_each_tool_once p wk run w wk' o w' :
  _run_worker p wk run w = Settled wk' o w' →
  ∃ more,
    AgentWorker.tools_used wk' = AgentWorker.tools_used wk ++ more
    ∧ (NoDup (AgentWorker.tools_used wk) → NoDup (AgentWorker.tools_used wk'))
    ∧ ∀ n, n ∈ AgentWorker.tools_used wk'
           ↔ n ∈ AgentWorker.tools_used wk
             ∨ ∃ m, m ∈ (responses run).*2 ∧ n ∈ called_tools m.
Proof.
  unfold _run_worker. destruct (negb _); [done|].
  set (wk0 := AgentWorker.set_started_at _ _).
  set (w0 := elapse _ _).
  pose proof (consume_full p (responses run) wk0 (mkLoop "" false false false) w0) as H.
  destruct (consume p (responses run) wk0 _ w0) as [[wk1 st1] w1].
  destruct H as (more & evs & Ewk & Hnd & Hmore & _).
  change (AgentWorker.tools_used wk0) with (AgentWorker.tools_used wk) in *.
  assert (AgentWorker.tools_used wk1 = AgentWorker.tools_used wk ++ more) as Htu
    by (by rewrite Ewk).
  intros Hrun. exists more.
  assert (AgentWorker.tools_used wk' = AgentWorker.tools_used wk1) as ->.
  { destruct (snd (ending run)); [injection Hrun as <- _ _; done..|done]. }
  rewrite Htu. split_and!; [done|done|].
  intros n. rewrite elem_of_app, Hmore.
  destruct (decide (n ∈ AgentWorker.tools_used wk)); tauto.
Qed.

(** X19: With a callback registered, the events of a run that gets into
    its agent loop are bracketed: first the worker's [status] event, then
    only [tool] and [tokens] events, and last exactly one more event; all of
    them carry the worker's id.  The last event is [error] when an exception
    left the loop, [cancelled] when the run was cancelled in it, and
    [complete] when the loop ran out in a sandbox whose plan has no
    steps. *)
Theorem run_events_are_bracketed p wk run w wk' o w' :
  on_worker_event p = true →
  _run_worker p wk run w = Settled wk' o w' →
  ∃ mid last_event,
    events w' = events w
                ++ (AgentWorker.id wk, "status", JObj [("status", JStr "running")])
                   :: mid ++ [last_event]
    ∧ Forall (worker_event (AgentWorker.id wk) ["tool"; "tokens"]) mid
    ∧ last_event.1.1 = AgentWorker.id wk
    ∧ (snd (ending run) = LoopExhausted → opt_list_truthy (plan run) = false →
       last_event.1.2 = "complete")
    ∧ (∀ e, snd (ending run) = LoopRaised e → last_event.1.2 = "error")
    ∧ (snd (ending run) = LoopCancelled → last_event.1.2 = "cancelled").
Proof.
  intros Hcb Hrun.
  destruct (run_worker_events p wk run w (settled_dependencies _ _ _ _ _ _ _ Hrun)
              (settled_not_start_raised _ _ _ _ _ _ _ Hrun))
    as (wk1 & o1 & w1 & mid & l & Hrun1 & H).
  rewrite Hrun in Hrun1. injection Hrun1 as <- <- <-.
  rewrite Hcb in H. exists mid, l.
  destruct H as (H1 & H2 & H3 & H4 & H5 & H6). split_and!; auto.
Qed.

End run_theorems.


(** ** Pools over time *)

Section pool_theorems.
Context {RT : Type}.
Implicit Type w : World RT.
Import WorkerPool IntelligenceRegistry.

Lemma exec_events_off op p w :
  on_worker_event p = false → events (PoolOp.exec op (p, w)).2 = events w.
Proof.
  intros Hoff. destruct op as [task priority deps|id run|id| |d]; unfold PoolOp.exec.
  - unfold spawn, _generate_id. cbn [snd]. rewrite events_emit. cbn [on_worker_event].
    rewrite Hoff. by rewrite app_nil_r.
  - unfold run_task. destruct (_tasks p !! id) as [[wk|o]|]; [|done..].
    destruct (_wait_for_dependencies p (AgentWorker.id wk) (AgentWorker.depends_on wk))
      eqn:Hdeps.
    + destruct (snd (ending run)) as [|e| |e] eqn:Hend.
      4:{ unfold _run_worker. rewrite Hdeps, Hend. cbn [negb fst snd elapse events].
          rewrite events_emit, Hoff, events_store_worker. by rewrite app_nil_r. }
      all: destruct (run_worker_events p wk run w Hdeps)
             as (wk' & o & w' & mid & l & -> & Hev & _);
           [by rewrite Hend|]; cbn; rewrite Hev, Hoff; by rewrite app_nil_r.
    + unfold _run_worker. by rewrite Hdeps.
  - done.
  - done.
  - done.
Qed.

(** X20: A pool built without a callback emits nothing: whatever is done
    with it, the event log stays as it was. *)
Theorem no_callback_no_events project_id (ops : list PoolOp.t) w :
  events (PoolOp.exec_all ops (init project_id false, w)).2 = events w.
Proof.
  assert (events (PoolOp.exec_all ops (init project_id false, w)).2 = events w
          ∧ on_worker_event (PoolOp.exec_all ops (init project_id false, w)).1 = false)
    as [H _]; [|done].
  induction ops as [|op ops IH] using rev_ind; [done|].
  unfold PoolOp.exec_all in *. rewrite foldl_snoc.
  destruct (foldl _ _ ops) as [p1 w1]. cbn [fst snd] in IH. destruct IH as [E Hoff].
  split.
  - by rewrite exec_events_off.
  - destruct (exec_counter op p1 w1) as (_ & _ & ->). done.
Qed.

(** X21: A worker driven by [ReconAgentAgent.agent_loop]: the messages
    that loop yields carry neither metadata nor usage, so whatever the
    delays between them the pool's loop sets neither [hit_max_iterations]
    nor [is_infeasible], and emits [tool] events only, never a [tokens]
    event. *)
Theorem agent_loop_sets_no_flag_and_counts_no_tokens
    sha256 get_tool task (a : BaseAgent.t) (wa : World RT) p rs wk st w :
  rs.*2 = (ReconAgentAgent.agent_loop sha256 get_tool task a wa).1.1.1 →
  let '(wk', st', w') := consume p rs wk st w in
  hit_max_iterations st' = hit_max_iterations st
  ∧ is_infeasible st' = is_infeasible st
  ∧ ∃ evs, events w' = events w ++ evs
           ∧ Forall (worker_event (AgentWorker.id wk) ["tool"]) evs.
Proof.
  intros Hrs.
  assert (Forall plain rs.*2) as Hplain.
  { rewrite Hrs. unfold ReconAgentAgent.agent_loop, BaseAgent.run.
    set (a0 := BaseAgent.append_history _ a).
    pose proof (run_loop_spec sha256 get_tool (BaseAgent.max_iterations a0) a0 wa) as H.
    destruct (BaseAgent.run_loop _ _ _ a0 wa) as [[[msgs e] a'] wa'].
    by destruct H as (_ & H & _). }
  pose proof (consume_full p rs wk st w) as H.
  destruct (consume p rs wk st w) as [[wk' st'] w'].
  destruct H as (more & evs & _ & _ & _ & _ & Hev & _ & _ & Hnone & _ & Hflags & _).
  destruct Hflags as [-> ->].
  { eapply Forall_impl; [exact Hplain|]. by intros m [? _]. }
  split_and!; [done..|]. exists evs. split; [done|]. apply Hnone.
  eapply Forall_impl; [exact Hplain|]. by intros m [_ ?].
Qed.

(** *** Waiting *)

Lemma wait_for_ids_cases p w ids results :
  match wait_for_ids p w ids results with
  | None => ∃ id wk, id ∈ ids ∧ _tasks p !! id = Some (Scheduled wk)
  | Some (Raised _) =>
      ∃ id d, id ∈ ids ∧ is_Some (_tasks p !! id)
              ∧ get_status id p w = Some d ∧ AgentWorker.from_dict d = None
  | Some (Returned m) =>
      ∀ id, m !! id =
        if decide (id ∈ ids) then
          match _tasks p !! id, get_status id p w ≫= AgentWorker.from_dict with
          | Some _, Some wk => Some (summary_of wk)
          | _, _ => results !! id
          end
        else results !! id
  end.
Proof.
  revert results. induction ids as [|a ids IH]; intros results; cbn [wait_for_ids].
  { intros id. case_decide as H; [inversion H|done]. }
  assert (∀ id, id ≠ a → (id ∈ a :: ids) ↔ id ∈ ids) as Hin.
  { intros id Hne. rewrite elem_of_cons. tauto. }
  assert (∀ (P : string → Prop), (∃ id, id ∈ ids ∧ P id) → ∃ id, id ∈ a :: ids ∧ P id)
    as Hex.
  { intros P (id & Hid & HP). exists id. split; [by right|done]. }
  destruct (_tasks p !! a) as [[wk|o]|] eqn:Ea.
  - exists a, wk. split; [left|done].
  - unfold get_status in *.
    destruct (get_worker _ _ a _) as [d|] eqn:Eg.
    + destruct (AgentWorker.from_dict d) as [wk|] eqn:Ewk.
      * specialize (IH (<[a := summary_of wk]> results)).
        destruct (wait_for_ids p w ids _) as [[m|e]|].
        -- intros id. rewrite IH.
           destruct (decide (id = a)) as [->|Hne].
           ++ rewrite (decide_True (P := a ∈ a :: ids)) by left.
              rewrite Ea, Eg. cbn. rewrite Ewk.
              case_decide; [done|]. by rewrite lookup_insert_eq.
           ++ rewrite lookup_insert_ne by done.
              destruct (decide (id ∈ ids)).
              ** by rewrite decide_True by (by right).
              ** rewrite decide_False; [done|]. by intros [?|?]%elem_of_cons.
        -- destruct IH as (id & d' & Hid & H). exists id, d'. split; [by right|done].
        -- destruct IH as (id & wk' & Hid & H). exists id, wk'. split; [by right|done].
      * exists a, d. split_and!; [left|by eexists|done|done].
    + specialize (IH results). destruct (wait_for_ids p w ids _) as [[m|e]|].
      * intros id. rewrite IH.
        destruct (decide (id = a)) as [->|Hne].
        -- rewrite (decide_True (P := a ∈ a :: ids)) by left.
           rewrite Ea, Eg. cbn. by case_decide.
        -- destruct (decide (id ∈ ids)).
           ++ by rewrite decide_True by (by right).
           ++ rewrite decide_False; [done|]. by intros [?|?]%elem_of_cons.
      * destruct IH as (id & d' & Hid & H). exists id, d'. split; [by right|done].
      * destruct IH as (id & wk' & Hid & H). exists id, wk'. split; [by right|done].
  - specialize (IH results). destruct (wait_for_ids p w ids _) as [[m|e]|].
    + intros id. rewrite IH.
      destruct (decide (id = a)) as [->|Hne].
      * rewrite (decide_True (P := a ∈ a :: ids)) by left.
        rewrite Ea. by case_decide.
      * destruct (decide (id ∈ ids)).
        -- by rewrite decide_True by (by right).
        -- rewrite decide_False; [done|]. by intros [?|?]%elem_of_cons.
    + destruct IH as (id & d' & Hid & H). exists id, d'. split; [by right|done].
    + destruct IH as (id & wk' & Hid & H). exists id, wk'. split; [by right|done].
Qed.

(** X22: [wait_for] with a list of ids.  It is suspended only on a
    requested task that has not settled, and it raises only on a requested,
    tracked id whose record names no status.  Otherwise it returns a
    summary for exactly the requested ids that the pool tracks and whose
    record the registry serves, built from that record: an id the pool
    does not know is skipped without an error, and an id given twice
    counts once. *)
Theorem wait_for_named_workers ids p w :
  match wait_for (Some ids) p w with
  | None => ∃ id wk, id ∈ ids ∧ _tasks p !! id = Some (Scheduled wk)
  | Some (Raised _) =>
      ∃ id d, id ∈ ids ∧ is_Some (_tasks p !! id)
              ∧ get_status id p w = Some d ∧ AgentWorker.from_dict d = None
  | Some (Returned m) =>
      ∀ id, m !! id =
        if decide (id ∈ ids) then
          match _tasks p !! id with
          | Some _ => summary_of <$> (get_status id p w ≫= AgentWorker.from_dict)
          | None => None
          end
        else None
  end.
Proof.
  unfold wait_for. pose proof (wait_for_ids_cases p w ids ∅) as H.
  destruct (wait_for_ids p w ids ∅) as [[m|e]|]; [|done..].
  intros id. rewrite H. case_decide; [|done].
  destruct (_tasks p !! id); [|done].
  by destruct (get_status id p w ≫= AgentWorker.from_dict).
Qed.

(** *** Cancelling *)

(** X23: [cancel_all] on a pool whose unfinished workers have no
    dependencies settles the pool: every task that had not finished ends
    cancelled, a finished one keeps its outcome, a second [cancel_all]
    changes nothing, no task runs any more when it gets its turn, and no
    wait on the pool is suspended afterwards. *)
Theorem cancel_all_settles_the_pool p w :
  (∀ wid wk, _tasks p !! wid = Some (Scheduled wk) → AgentWorker.depends_on wk = []) →
  (∀ wid, _tasks (cancel_all p) !! wid
          = match _tasks p !! wid with
            | Some (Scheduled _) => Some (Done TaskCancelled)
            | other => other
            end)
  ∧ cancel_all (cancel_all p) = cancel_all p
  ∧ (∀ wid run, run_task wid run (cancel_all p) w = (cancel_all p, w))
  ∧ (∀ ids, wait_for ids (cancel_all p) w ≠ None).
Proof.
  intros _.
  assert (∀ wid, _tasks (cancel_all p) !! wid
                 = match _tasks p !! wid with
                   | Some (Scheduled _) => Some (Done TaskCancelled)
                   | other => other
                   end) as Hlook.
  { intros wid. cbn. rewrite lookup_fmap. by destruct (_tasks p !! wid) as [[]|]. }
  split_and!.
  - done.
  - destruct p as [pid cb tasks n]. unfold cancel_all, set_tasks. cbn.
    f_equal. apply map_eq. intros i. rewrite !lookup_fmap.
    by destruct (tasks !! i) as [[]|].
  - intros wid run. unfold run_task. rewrite Hlook.
    by destruct (_tasks p !! wid) as [[]|].
  - intros ids Hnone. unfold wait_for in Hnone.
    match type of Hnone with wait_for_ids _ _ ?l _ = _ =>
      pose proof (wait_for_ids_cases (cancel_all p) w l ∅) as H end.
    rewrite Hnone in H. destruct H as (id & wk & _ & H).
    rewrite Hlook in H. by destruct (_tasks p !! id) as [[]|].
Qed.

(** *** Dependencies *)

Lemma wait_blocked p current depends_on dep wk :
  dep ∈ depends_on → dep ≠ current → _tasks p !! dep = Some (Scheduled wk) →
  _wait_for_dependencies p current depends_on = false.
Proof.
  intros Hin Hne Hdep. induction depends_on as [|d deps IH]; [inversion Hin|].
  cbn [_wait_for_dependencies]. apply elem_of_cons in Hin as [<-|Hin].
  - rewrite Hdep. by rewrite decide_False.
  - destruct (_tasks p !! d) as [[]|]; [|destruct (decide _); by auto|by auto].
    destruct (decide (d = current)); [by auto|done].
Qed.

(** X24: Two workers that each have the other as their one dependency
    never run: whichever task the event loop turns to and however much time
    passes, both stay as they were spawned, waiting for each other. *)
Theorem mutually_dependent_workers_never_run a b wa wb p w (ops : list PoolOp.t) :
  a ≠ b →
  _tasks p !! a = Some (Scheduled wa) → _tasks p !! b = Some (Scheduled wb) →
  AgentWorker.id wa = a → AgentWorker.id wb = b →
  AgentWorker.depends_on wa = [b] → AgentWorker.depends_on wb = [a] →
  Forall (fun op => match op with
                    | PoolOp.Turn _ _ | PoolOp.Elapse _ => True
                    | _ => False
                    end) ops →
  let p' := (PoolOp.exec_all ops (p, w)).1 in
  _tasks p' !! a = Some (Scheduled wa) ∧ _tasks p' !! b = Some (Scheduled wb).
Proof.
  intros Hab Ha Hb Hida Hidb Hdepa Hdepb Hops. cbn zeta.
  induction ops as [|op ops IH] using rev_ind; [done|].
  apply Forall_app in Hops as [Hops Hop]. apply Forall_inv in Hop.
  specialize (IH Hops).
  unfold PoolOp.exec_all in *. rewrite foldl_snoc.
  destruct (foldl _ _ ops) as [p1 w1]. cbn [fst] in IH. destruct IH as [Ha1 Hb1].
  destruct op as [task priority deps|wid run|id| |d]; cbn in Hop; try done.
  unfold PoolOp.exec, run_task.
  destruct (_tasks p1 !! wid) as [[wk|o]|] eqn:E; [|done..].
  assert (wid ≠ a ∧ wid ≠ b →
          ∀ tk, _tasks (set_tasks (<[wid := tk]> (_tasks p1)) p1) !! a
                = Some (Scheduled wa)
                ∧ _tasks (set_tasks (<[wid := tk]> (_tasks p1)) p1) !! b
                  = Some (Scheduled wb)) as Hother.
  { intros [Hna Hnb] tk. cbn [set_tasks _tasks]. by rewrite !lookup_insert_ne. }
  assert (wid = a ∨ wid = b →
          _wait_for_dependencies p1 (AgentWorker.id wk) (AgentWorker.depends_on wk)
          = false) as Hblocked.
  { intros [->| ->].
    - rewrite Ha1 in E. injection E as <-.
      apply (wait_blocked p1 _ _ b wb); [rewrite Hdepa; by left|congruence|done].
    - rewrite Hb1 in E. injection E as <-.
      apply (wait_blocked p1 _ _ a wa); [rewrite Hdepb; by left|congruence|done]. }
  destruct (decide (wid = a ∨ wid = b)) as [Hw|Hw].
  - unfold _run_worker. by rewrite (Hblocked Hw).
  - assert (wid ≠ a ∧ wid ≠ b) as Hne by (split; intros ->; apply Hw; auto).
    destruct (_run_worker p1 wk run w1) as [|wk' o w'|wk' e w']; [done|..];
      cbn [fst]; by apply Hother.
Qed.

End pool_theorems.


(** ** The orchestrator, further *)

Section transcript_cleanup.
Import CrewOrchestrator.

Lemma cleanup_from_end_suffix (rev_msgs : list (list (string * Json))) :
  ∃ pending user_turn,
    rev_msgs = pending ++ user_turn ++ cleanup_from_end rev_msgs
    ∧ Forall (fun m => pending_turn m = true) pending
    ∧ (user_turn = []
       ∧ match cleanup_from_end rev_msgs with
         | m :: _ => pending_turn m = false ∧ get_is "role" "user" m = false
         | [] => True
         end
       ∨ ∃ u, user_turn = [u] ∧ pending_turn u = false ∧ get_is "role" "user" u = true).
Proof.
  induction rev_msgs as [|m ms IH]; cbn [cleanup_from_end].
  { exists [], []. split_and!; [done|done|]. by left. }
  destruct IH as (pending & user_turn & E & Hp & Hu).
  destruct (get_is "role" "assistant" m && get_truthy "tool_calls" m) eqn:Ha.
  { exists (m :: pending), user_turn. split_and!.
    - cbn. by rewrite <- E.
    - constructor; [|done]. unfold pending_turn. by rewrite Ha.
    - done. }
  destruct (get_is "role" "tool" m) eqn:Ht.
  { exists (m :: pending), user_turn. split_and!.
    - cbn. by rewrite <- E.
    - constructor; [|done]. unfold pending_turn. by rewrite Ha, Ht.
    - done. }
  destruct (get_is "role" "user" m) eqn:Hus.
  { exists [], [m]. split_and!; [done|done|]. right. exists m.
    split_and!; [done| |done]. unfold pending_turn. by rewrite Ha, Ht. }
  exists [], []. split_and!; [done|done|]. left. split; [done|].
  split; [|done]. unfold pending_turn. by rewrite Ha, Ht.
Qed.

(** X25: [_cleanup_pending_calls] changes the transcript only, and from
    it removes an end piece only: the turns of an unfinished exchange
    (assistant turns with tool calls, tool turns) at the very end and, if a
    user turn precedes them directly, that user turn as well.  If no user
    turn is removed, the transcript that remains is empty or ends in a turn
    that a second clean-up leaves alone. *)
Theorem cleanup_removes_an_end_piece o :
  state (_cleanup_pending_calls o) = state o
  ∧ pool (_cleanup_pending_calls o) = pool o
  ∧ finish_tokens (_cleanup_pending_calls o) = finish_tokens o
  ∧ ∃ user_turn pending,
      _messages o = _messages (_cleanup_pending_calls o) ++ user_turn ++ pending
      ∧ Forall (fun m => pending_turn m = true) pending
      ∧ (user_turn = []
         ∧ match last (_messages (_cleanup_pending_calls o)) with
           | Some m => pending_turn m = false ∧ get_is "role" "user" m = false
           | None => True
           end
         ∨ ∃ u, user_turn = [u] ∧ get_is "role" "user" u = true).
Proof.
  split_and!; [done..|].
  cbn [_cleanup_pending_calls _messages set_messages].
  destruct (cleanup_from_end_suffix (rev (_messages o)))
    as (pending & user_turn & E & Hp & Hu).
  exists (rev user_turn), (rev pending). split_and!.
  + apply (f_equal (@rev _)) in E. rewrite rev_involutive in E.
    etrans; [exact E|]. by rewrite !rev_app_distr, <- app_assoc.
  + by apply List.Forall_rev.
  + destruct Hu as [[-> Hl]|(u & -> & _ & Hu)].
    * left. split; [done|]. rewrite rev_alt.
      change (rev_append ?l []) with (reverse l).
      rewrite last_reverse. by destruct (cleanup_from_end _).
    * right. by exists u.
Qed.

End transcript_cleanup.

Section crew_run.
Context {RT : Type}.
Variable json_loads : string → option Json.
Variable ORCHESTRATOR_MAX_ITERATIONS : nat.
Variable crew_tools : list (CrewTool.t RT).
Variable generate : string → list (list (string * Json))
                    → nat * Outcome (LLMResponse.t RawToolCall.t).
Variable _get_system_prompt : CrewOrchestrator.t → RT → string.
Variable background : nat → WorkerPool.t → World RT → WorkerPool.t * World RT.
Variable schedule : list RawToolCall.t → list nat.
Implicit Type w : World RT.
Import CrewOrchestrator.

Lemma append_results_full tool_results final_report o w :
  let '(report', o', w') := append_results tool_results final_report o w in
  let announced :=
    match omap finish_report tool_results with
    | [] => false
    | _ :: _ => finish_tokens_due (finish_tokens o)
    end in
  report' = default final_report (last (omap finish_report tool_results))
  ∧ _messages o' = _messages o ++ (tool_message <$> tool_results)
  ∧ pool o' = pool o
  ∧ state o' = state o
  ∧ finish_tokens o' = (if announced then Some 0 else finish_tokens o)
  ∧ w' = (if announced
          then broadcast o (finish_tokens_update (finish_tokens o)) w else w).
Proof.
  revert final_report o w.
  induction tool_results as [|res rest IH]; intros final_report o w;
    cbn [append_results].
  { cbn. by rewrite app_nil_r. }
  cbn [omap list_omap].
  assert (finish_report res
          = if bool_decide (ToolTurn.tool_name res = "finish") && negb (ToolTurn.error res)
            then Some (ToolTurn.content res) else None) as -> by done.
  destruct (bool_decide _ && negb _) eqn:Hfin.
  - cbn [finish_tokens append_message set_messages].
    destruct (finish_tokens_due (finish_tokens o)) eqn:Hdue.
    + match goal with |- context [append_results rest ?r ?o1 ?w1] =>
        specialize (IH r o1 w1); destruct (append_results rest r o1 w1) as [[r' o'] w'] end.
      cbn zeta in IH. cbn [finish_tokens set_pool] in IH.
      replace (finish_tokens_due (Some 0)) with false in IH by done.
      destruct IH as (-> & -> & -> & -> & Hft & Hw).
      assert (finish_tokens o' = Some 0) as -> by (rewrite Hft; by destruct (omap _ _)).
      assert (w' = broadcast o (finish_tokens_update (finish_tokens o)) w) as ->
        by (rewrite Hw; by destruct (omap _ _)).
      split_and!; try done.
      * symmetry. apply last_cons_default.
      * cbn. by rewrite <- app_assoc.
    + match goal with |- context [append_results rest ?r ?o1 ?w1] =>
        specialize (IH r o1 w1); destruct (append_results rest r o1 w1) as [[r' o'] w'] end.
      cbn zeta in IH. cbn [finish_tokens append_message set_messages] in IH.
      rewrite Hdue in IH.
      destruct IH as (-> & -> & -> & -> & Hft & Hw).
      assert (finish_tokens o' = finish_tokens o) as -> by (rewrite Hft; by destruct (omap _ _)).
      assert (w' = w) as -> by (rewrite Hw; by destruct (omap _ _)).
      split_and!; try done.
      * symmetry. apply last_cons_default.
      * cbn. by rewrite <- app_assoc.
  - match goal with |- context [append_results rest ?r ?o1 ?w1] =>
      specialize (IH r o1 w1); destruct (append_results rest r o1 w1) as [[r' o'] w'] end.
    cbn zeta in IH. cbn [finish_tokens append_message set_messages] in IH.
    destruct IH as (-> & -> & -> & -> & Hft & ->).
    split_and!; try done. cbn. by rewrite <- app_assoc.
Qed.

(** X26: Several results in one turn: every result becomes a tool turn of
    the transcript, in order; the report is the content of the last
    [finish] call that did not fail, and stays as it was when there is
    none; the tokens of [finish] are announced once, however many
    [finish] calls the turn holds, and are then reset to zero. *)
Theorem last_finish_of_a_turn_gives_the_report tool_results final_report o w :
  let '(report', o', w') := append_results tool_results final_report o w in
  let announced :=
    match omap finish_report tool_results with
    | [] => false
    | _ :: _ => finish_tokens_due (finish_tokens o)
    end in
  report' = default final_report (last (omap finish_report tool_results))
  ∧ _messages o' = _messages o ++ (tool_message <$> tool_results)
  ∧ finish_tokens o' = (if announced then Some 0 else finish_tokens o)
  ∧ broadcasts w'
    = broadcasts w ++ (if announced && channel_layer o
                       then [finish_tokens_update (finish_tokens o)] else []).
Proof.
  pose proof (append_results_full tool_results final_report o w) as H.
  destruct (append_results tool_results final_report o w) as [[report' o'] w'].
  cbn zeta in *. destruct H as (-> & -> & _ & _ & -> & ->).
  split_and!; try done.
  destruct (match omap finish_report tool_results with [] => false | _ => _ end); cbn.
  - unfold broadcast. destruct (channel_layer o); [done|]. by rewrite app_nil_r.
  - by rewrite app_nil_r.
Qed.

Lemma progress_tokens n :
  progress_update (JObj [("phase", JStr "tokens"); ("tokens", JNum n)]).
Proof. by left. Qed.

Lemma progress_thinking c :
  progress_update (JObj [("phase", JStr "thinking"); ("content", JStr c)]).
Proof. right. by left. Qed.

Lemma progress_error e :
  progress_update (JObj [("phase", JStr "error"); ("error", JStr e)]).
Proof. right. by right. Qed.

Lemma gather_results_Forall (P : ToolTurn.t → Prop) o calls sched ps w :
  (∀ tc ps w, P (call_tool json_loads crew_tools tc ps w).1.1.1) →
  Forall P (gather json_loads crew_tools o calls sched ps w).1.1.
Proof.
  intros HP.
  destruct (gather_request_order json_loads crew_tools o calls sched ps w)
    as [Hlen Hres].
  apply Forall_lookup. intros i r Hr.
  destruct (lookup_lt_is_Some_2 calls i) as [tc Htc].
  { rewrite <- Hlen. by apply lookup_lt_Some in Hr. }
  destruct (Hres i tc Htc) as (ps0 & w0 & Hr0).
  rewrite Hr in Hr0. injection Hr0 as ->. apply HP.
Qed.

Lemma no_finish_tool_no_report tc ps w :
  find_tool crew_tools "finish" = None →
  finish_report (call_tool json_loads crew_tools tc ps w).1.1.1 = None.
Proof.
  intros Hnone. unfold call_tool, finish_report.
  destruct (find_tool crew_tools (get_tc_name tc)) as [tool|] eqn:Ef.
  - assert (get_tc_name tc ≠ "finish") as Hne by congruence.
    destruct (CrewTool.execute _ _ _ _) as [[[d [r|e]] ps'] w']; cbn;
      by rewrite bool_decide_eq_false_2.
  - cbn. by rewrite andb_false_r.
Qed.

Lemma tool_call_turns_app a b :
  tool_call_turns (a ++ b) = (tool_call_turns a + tool_call_turns b)%nat.
Proof. unfold tool_call_turns. by rewrite filter_app, length_app. Qed.

Lemma tool_call_turns_results (results : list ToolTurn.t) :
  tool_call_turns (tool_message <$> results) = 0%nat.
Proof.
  induction results as [|r rs IH]; [done|].
  change (tool_message <$> r :: rs) with ([tool_message r] ++ (tool_message <$> rs)).
  rewrite tool_call_turns_app, IH. done.
Qed.

(** The branch of an iteration for a response with tool calls. *)
Lemma on_tool_calls_full response final_report o w p :
  pool o = Some p →
  let '(yields, report', flow, o', w') :=
    on_tool_calls json_loads crew_tools schedule response final_report o w in
  Forall progress_update yields
  ∧ is_Some (pool o')
  ∧ flow = (if str_truthy report' then Break else Next)
  ∧ (find_tool crew_tools "finish" = None → report' = final_report)
  ∧ (opt_list_truthy (LLMResponse.tool_calls response) = true →
     tool_call_turns (_messages o') = S (tool_call_turns (_messages o))).
Proof.
  intros Hp. unfold on_tool_calls.
  set (calls := opt_list (LLMResponse.tool_calls response)).
  set (thinking := if opt_str_truthy (LLMResponse.content response) then _ else _).
  assert (∃ ys o1 w1, thinking = (ys, o1, w1) ∧ Forall progress_update ys
                      ∧ pool o1 = Some p ∧ finish_tokens o1 = finish_tokens o
                      ∧ tool_call_turns (_messages o1) = tool_call_turns (_messages o))
    as (ys & o1 & w1 & -> & Hys & Hp1 & Hft1 & Hcount1).
  { unfold thinking. destruct (opt_str_truthy _).
    - eexists _, _, _. split; [done|]. split_and!; try done.
      + apply Forall_cons_2; [apply progress_thinking|done].
      + cbn [_messages append_message set_messages].
        rewrite tool_call_turns_app.
        match goal with |- (_ + ?x)%nat = _ =>
          replace x with 0%nat by (vm_compute; reflexivity) end.
        lia.
    - eexists _, _, _. split; [done|]. by split_and!. }
  cbn [pool append_message set_messages]. rewrite Hp1.
  match goal with |- context [gather _ _ ?o2 calls ?s ?ps0 w1] =>
    pose proof (fun H => gather_results_Forall (fun r => finish_report r = None)
                           o2 calls s ps0 w1
                           (fun tc' ps' w' => no_finish_tool_no_report tc' ps' w' H))
      as Hnofin;
    destruct (gather json_loads crew_tools o2 calls s ps0 w1) as [[results [p' ft]] w'] end.
  cbn [fst] in Hnofin.
  match goal with |- context [append_results results final_report ?o3 w'] =>
    pose proof (append_results_full results final_report o3 w') as Har;
    destruct (append_results results final_report o3 w') as [[report' o4] w4] end.
  cbn zeta in Har. destruct Har as (Hrep & Hmsgs & Hpool & _).
  split_and!.
  - done.
  - rewrite Hpool. by eexists.
  - done.
  - intros Hnone. rewrite Hrep.
    assert (omap finish_report results = []) as ->; [|done].
    specialize (Hnofin Hnone). clear -Hnofin.
    induction Hnofin as [|r rs Hr _ IH]; [done|]. cbn. by rewrite Hr.
  - intros Hcalls. rewrite Hmsgs. cbn [_messages set_pool set_messages append_message].
    rewrite !tool_call_turns_app, tool_call_turns_results, Hcount1.
    assert (tool_call_turns
              [[("role", JStr "assistant");
                ("content", JStr (default "" (LLMResponse.content response)));
                ("tool_calls", JArr (map (tool_call_entry json_loads) calls))]] = 1%nat)
      as ->; [|lia].
    unfold calls, opt_list. destruct (LLMResponse.tool_calls response) as [[|tc tcs]|];
      try done.
Qed.

(** The branch of an iteration for a response without tool calls. *)
Lemma on_no_tool_calls_full response final_report o w p :
  pool o = Some p →
  let '(yields, report', flow, o', w') :=
    on_no_tool_calls crew_tools response final_report o w in
  Forall progress_update yields ∧ is_Some (pool o') ∧ flow ≠ Next.
Proof.
  intros Hp. unfold on_no_tool_calls.
  set (content := default "" (LLMResponse.content response)).
  set (o1 := if str_truthy content then _ else o).
  assert (pool o1 = Some p) as Hp1 by (unfold o1; by destruct (str_truthy content)).
  rewrite Hp1.
  pose proof progress_thinking as Hth. pose proof progress_tokens as Htk.
  pose proof progress_error as Her.
  destruct (WorkerPool.get_workers p w) as [[|wk wks]|].
  - split_and!; [done|by eexists|done].
  - destruct (find_tool crew_tools "finish") as [tool|].
    + destruct (CrewTool.execute tool _ _ _) as [[[d [r|e]] [p' ft]] w'].
      * destruct (finish_tokens_due ft); (split_and!; [|by eexists|done]);
          repeat (apply Forall_cons_2; [by auto|]); apply Forall_nil_2.
      * split_and!; [|by eexists|done].
        repeat (apply Forall_cons_2; [by auto|]). apply Forall_nil_2.
    + split_and!; [|by eexists|done].
      repeat (apply Forall_cons_2; [by auto|]). apply Forall_nil_2.
  - split_and!; [done|by eexists|done].
Qed.

(** The loop of [run]: what it yields, and that it keeps the pool. *)
Lemma run_loop_full remaining iteration final_report o w :
  is_Some (pool o) →
  let '(yields, report', exn, o', w') :=
    run_loop json_loads crew_tools generate _get_system_prompt background schedule
             remaining iteration final_report o w in
  Forall progress_update yields ∧ is_Some (pool o').
Proof.
  revert iteration final_report o w.
  induction remaining as [|remaining IH]; intros iteration final_report o w Hp;
    cbn [run_loop]; [done|].
  destruct (generate _ _) as [d out].
  destruct Hp as [p Hp]. rewrite Hp.
  destruct (background iteration p w) as [p1 w1].
  set (o1 := set_pool (Some p1) (finish_tokens o) o).
  destruct out as [response|e]; [|split; [done|by eexists]].
  set (tk := match LLMResponse.usage response with Some _ => _ | None => _ end).
  assert (Forall progress_update tk.1) as Htk.
  { unfold tk. destruct (LLMResponse.usage response) as [total|]; [|done].
    destruct (bool_decide _); [|done].
    apply Forall_cons_2; [apply progress_tokens|done]. }
  destruct tk as [tokens w2]. cbn [fst] in Htk.
  set (branch := if opt_list_truthy _ then _ else _).
  assert (let '(yields, report', flow, o', w') := branch in
          Forall progress_update yields ∧ is_Some (pool o')) as Hbranch.
  { unfold branch. destruct (opt_list_truthy _).
    - pose proof (on_tool_calls_full response final_report o1 w2 p1 eq_refl) as H.
      destruct (on_tool_calls _ _ _ _ _ _ _) as [[[[ys r] f] o2] w3]. tauto.
    - pose proof (on_no_tool_calls_full response final_report o1 w2 p1 eq_refl) as H.
      destruct (on_no_tool_calls _ _ _ _ _) as [[[[ys r] f] o2] w3]. tauto. }
  destruct branch as [[[[ys r] flow] o2] w3]. destruct Hbranch as [Hys Hp2].
  destruct flow as [| |e].
  - specialize (IH (S iteration) r o2 w3 Hp2).
    destruct (run_loop _ _ _ _ _ _ remaining _ r o2 w3) as [[[[later r'] exn] o3] w4].
    destruct IH as [Hl Hp3]. split; [|done]. by rewrite !Forall_app.
  - split; [|done]. by rewrite !Forall_app.
  - split; [|done]. by rewrite !Forall_app.
Qed.

(** The shape of a run. *)
Lemma run_shape task o w :
  let '(yields, o', w') :=
    run json_loads ORCHESTRATOR_MAX_ITERATIONS crew_tools generate _get_system_prompt
        background schedule task o w in
  ∃ mid final,
    yields = JObj [("phase", JStr "starting")] :: mid ++ [final]
    ∧ Forall progress_update mid
    ∧ (state o' = CrewState.COMPLETE
       ∧ (∃ report, final = JObj [("phase", JStr "complete"); ("report", JStr report)])
       ∨ state o' = CrewState.ERROR
         ∧ ∃ e, final = JObj [("phase", JStr "error"); ("error", JStr e)]).
Proof.
  unfold run.
  match goal with |- context [run_loop _ _ _ _ _ _ _ _ _ ?o0 ?w0] =>
    pose proof (run_loop_full ORCHESTRATOR_MAX_ITERATIONS 0 "" o0 w0
                  ltac:(by eexists)) as H;
    destruct (run_loop json_loads crew_tools generate _get_system_prompt background
                schedule ORCHESTRATOR_MAX_ITERATIONS 0 "" o0 w0)
      as [[[[ys report] exn] o1] w1] end.
  destruct H as [Hys [p1 Hp1]].
  destruct exn as [e|]; cbn [pool set_state]; rewrite Hp1.
  - eexists ys, _. split; [done|]. split; [done|].
    right. split; [done|]. by eexists.
  - eexists ys, _. split; [done|]. split; [done|].
    left. split; [done|]. by eexists.
Qed.

(** X27: A run of the crew yields [starting] first and, last, [complete]
    with the report or [error] with the message, and sets the state of the
    orchestrator to COMPLETE or ERROR accordingly, never leaving it at
    RUNNING.  The updates in between are [tokens], [thinking] and [error]
    updates only. *)
Theorem crew_run_ends_complete_or_error task o w :
  let '(yields, o', w') :=
    run json_loads ORCHESTRATOR_MAX_ITERATIONS crew_tools generate _get_system_prompt
        background schedule task o w in
  ∃ mid final,
    yields = JObj [("phase", JStr "starting")] :: mid ++ [final]
    ∧ Forall progress_update mid
    ∧ (state o' = CrewState.COMPLETE
       ∧ (∃ report, final = JObj [("phase", JStr "complete"); ("report", JStr report)])
       ∨ state o' = CrewState.ERROR
         ∧ ∃ e, final = JObj [("phase", JStr "error"); ("error", JStr e)]).
Proof. apply run_shape. Qed.

Lemma progress_not_complete u :
  progress_update u →
  match u with JObj fields => get_is "phase" "complete" fields | _ => false end = false.
Proof.
  unfold progress_update, update_phase, get_is. destruct u as [| | | | |fields]; try done.
  destruct (assoc_get "phase" fields) as [[| | |s| |]|]; try done.
  intros [[= ->]|[[= ->]|[= ->]]]; done.
Qed.

Lemma find_none {A} (f : A → bool) l :
  Forall (fun u => f u = false) l → List.find f l = None.
Proof.
  induction 1 as [|u l Hu _ IH]; [done|]. cbn [List.find]. by rewrite Hu.
Qed.

(** X28: What [run_crew_ai_analysis] saves as the final report of a run
    of the crew: the report of the run when it ended COMPLETE, and the
    empty string when it ended in ERROR; no update before the last one is
    taken for the report. *)
Theorem saved_report_is_the_report_of_a_complete_run task o w :
  let '(yields, o', w') :=
    run json_loads ORCHESTRATOR_MAX_ITERATIONS crew_tools generate _get_system_prompt
        background schedule task o w in
  match state o' with
  | CrewState.COMPLETE =>
      ∃ report,
        last yields = Some (JObj [("phase", JStr "complete"); ("report", JStr report)])
        ∧ Tasks.final_report_of yields = JStr report
  | _ => Tasks.final_report_of yields = JStr ""
  end.
Proof.
  pose proof (run_shape task o w) as H.
  destruct (run _ _ _ _ _ _ _ _ _ _) as [[yields o'] w'].
  destruct H as (mid & final & -> & Hmid & Hfinal).
  assert (∀ final,
            Tasks.final_report_of (JObj [("phase", JStr "starting")] :: mid ++ [final])
            = match final with
              | JObj fields =>
                  if get_is "phase" "complete" fields
                  then default (JStr "") (assoc_get "report" fields) else JStr ""
              | _ => JStr ""
              end) as Hrep.
  { intros f. unfold Tasks.final_report_of.
    change (JObj [("phase", JStr "starting")] :: mid ++ [f])
      with ([JObj [("phase", JStr "starting")]] ++ mid ++ [f]).
    rewrite !rev_app_distr. cbn [rev app List.find].
    assert (List.find (fun res => match res with
                                  | JObj fields => get_is "phase" "complete" fields
                                  | _ => false
                                  end) (rev mid ++ [JObj [("phase", JStr "starting")]])
            = None) as Hnone.
    { apply find_none, Forall_app. split; [|by apply Forall_cons_2].
      apply List.Forall_rev. eapply Forall_impl; [exact Hmid|].
      apply progress_not_complete. }
    destruct f as [| | | | |fields]; try (by rewrite Hnone).
    destruct (get_is "phase" "complete" fields); [done|by rewrite Hnone]. }
  destruct Hfinal as [[-> (report & ->)]|[-> (e & ->)]].
  - exists report. split.
    + by rewrite app_comm_cons, last_snoc.
    + by rewrite Hrep.
  - by rewrite Hrep.
Qed.

(** The loop of [run] when the model asks for tools in every response and
    the crew has no [finish] tool. *)
Lemma run_loop_capped remaining iteration o w :
  (∀ prompt messages, ∃ d response,
      generate prompt messages = (d, Returned response)
      ∧ opt_list_truthy (LLMResponse.tool_calls response) = true) →
  find_tool crew_tools "finish" = None →
  is_Some (pool o) →
  let '(yields, report', exn, o', w') :=
    run_loop json_loads crew_tools generate _get_system_prompt background schedule
             remaining iteration "" o w in
  report' = "" ∧ exn = None
  ∧ tool_call_turns (_messages o') = (tool_call_turns (_messages o) + remaining)%nat.
Proof.
  intros Hgen Hnofin. revert iteration o w.
  induction remaining as [|remaining IH]; intros iteration o w Hp; cbn [run_loop].
  { split_and!; [done|done|lia]. }
  destruct (Hgen (_get_system_prompt o (runtime w)) (_messages o))
    as (d & response & -> & Hcalls).
  destruct Hp as [p Hp]. rewrite Hp.
  destruct (background iteration p w) as [p1 w1].
  set (o1 := set_pool (Some p1) (finish_tokens o) o).
  set (tk := match LLMResponse.usage response with Some _ => _ | None => _ end).
  destruct tk as [tokens w2]. rewrite Hcalls.
  pose proof (on_tool_calls_full response "" o1 w2 p1 eq_refl) as H.
  destruct (on_tool_calls _ _ _ _ _ _ _) as [[[[ys r] flow] o2] w3].
  destruct H as (_ & Hp2 & -> & Hr & Hcount).
  rewrite (Hr Hnofin). cbn [str_truthy].
  specialize (IH (S iteration) o2 w3 Hp2).
  destruct (run_loop _ _ _ _ _ _ remaining _ "" o2 w3) as [[[[later r'] exn] o3] w4].
  destruct IH as (-> & -> & ->). split_and!; [done|done|].
  rewrite (Hcount Hcalls). cbn [_messages o1 set_pool]. lia.
Qed.

(** X29: Reaching the iteration bound is not an error: if the model asks
    for tools in every response and the crew has no [finish] tool, the
    model is asked [ORCHESTRATOR_MAX_ITERATIONS] times, each time adding
    one assistant turn with tool calls to the transcript, and the run then
    ends COMPLETE with an empty report. *)
Theorem iteration_bound_ends_the_run_complete task o w :
  (∀ prompt messages, ∃ d response,
      generate prompt messages = (d, Returned response)
      ∧ opt_list_truthy (LLMResponse.tool_calls response) = true) →
  find_tool crew_tools "finish" = None →
  let '(yields, o', w') :=
    run json_loads ORCHESTRATOR_MAX_ITERATIONS crew_tools generate _get_system_prompt
        background schedule task o w in
  state o' = CrewState.COMPLETE
  ∧ last yields = Some (JObj [("phase", JStr "complete"); ("report", JStr "")])
  ∧ tool_call_turns (_messages o') = ORCHESTRATOR_MAX_ITERATIONS.
Proof.
  intros Hgen Hnofin. unfold run.
  match goal with |- context [run_loop _ _ _ _ _ _ _ _ _ ?o0 ?w0] =>
    pose proof (run_loop_capped ORCHESTRATOR_MAX_ITERATIONS 0 o0 w0 Hgen Hnofin
                  ltac:(by eexists)) as H;
    destruct (run_loop json_loads crew_tools generate _get_system_prompt background
                schedule ORCHESTRATOR_MAX_ITERATIONS 0 "" o0 w0)
      as [[[[ys report] exn] o1] w1] end.
  destruct H as (-> & -> & Hcount).
  split_and!.
  - by destruct (pool _).
  - by rewrite app_comm_cons, last_snoc.
  - assert (tool_call_turns (_messages o1) = ORCHESTRATOR_MAX_ITERATIONS) as Hc.
    { rewrite Hcount. cbn [_messages set_messages].
      match goal with |- (?x + _)%nat = _ =>
        replace x with 0%nat by (vm_compute; reflexivity) end.
      done. }
    destruct (pool (set_state CrewState.COMPLETE o1)); exact Hc.
Qed.

End crew_run.

(** ** Examples: witnesses and counterexamples *)

Module Examples.
Import Scenario.

(** C6, the claim as stated fails: three trailing turns removed would leave
    the transcript ending in the user turn; the code removes that turn too. *)
Lemma cancel_removes_the_user_turn_too :
  CrewOrchestrator._messages (CrewOrchestrator.cancel interrupted_crew) = [first_user; answer]
  ∧ CrewOrchestrator._messages (CrewOrchestrator.cancel interrupted_crew) ≠ [first_user; answer; user].
Proof. split; [reflexivity | discriminate]. Qed.

Lemma cancel_drops_pending_turns_witness :
  CrewOrchestrator._messages (CrewOrchestrator.cancel interrupted_crew) = [first_user; answer].
Proof.
  apply (cancel_drops_pending_turns_and_user_turn interrupted_crew [first_user; answer]
           user assistant_calls tool1 tool2); reflexivity.
Defined.

Lemma wait_for_after_restart_misses_settled_worker :
  WorkerPool._tasks one_worker_settled.1 !! "agent-0"
  = Some (WorkerPool.Done WorkerPool.TaskReturned)
  ∧ (WorkerDict.status <$>
       WorkerPool.get_status "agent-0" (WorkerPool.init 7 true) one_worker_settled.2)
    = Some "complete"
  ∧ WorkerPool.wait_for None (WorkerPool.init 7 true) one_worker_settled.2
    = Some (Returned ∅).
Proof. split_and!; reflexivity. Qed.

Lemma wait_for_all_reads_registry_witness :
  ∃ m, WorkerPool.wait_for None one_worker_settled.1 one_worker_settled.2
       = Some (Returned m)
    ∧ (∀ id, m !! id =
         match WorkerPool._tasks one_worker_settled.1 !! id with
         | Some _ => WorkerPool.summary_of <$>
                       (WorkerPool.get_status id one_worker_settled.1 one_worker_settled.2
                          ≫= AgentWorker.from_dict)
         | None => None
         end)
    ∧ (WorkerPool._tasks one_worker_settled.1 = ∅ → m = ∅).
Proof.
  apply (wait_for_all_reads_registry one_worker_settled.1 one_worker_settled.2).
  - apply map_Forall_to_list. vm_compute. repeat constructor.
  - apply map_Forall_to_list. vm_compute. repeat constructor.
    intros d [= <-]. eexists. reflexivity.
Defined.

Lemma finished_loop_resolves_complete_witness :
  ∃ wk' w',
    WorkerPool._run_worker (WorkerPool.init 7 true)
      (AgentWorker.new "agent-0" "scan A" 1 []) run_infeasible w0
    = WorkerPool.Settled wk' WorkerPool.TaskReturned w'
    ∧ AgentWorker.status wk' = AgentStatus.COMPLETE
    ∧ (WorkerDict.status <$> WorkerPool.get_status "agent-0" (WorkerPool.init 7 true) w')
      = Some "complete".
Proof.
  exact (finished_loop_resolves_complete (WorkerPool.init 7 true)
           (AgentWorker.new "agent-0" "scan A" 1 []) run_infeasible w0
           eq_refl eq_refl).
Defined.

(** The loop did report the task as infeasible: the flag is set when the
    loop ends, and nothing reads it. *)
Lemma infeasible_flag_is_set_and_unused :
  WorkerPool.is_infeasible
    (WorkerPool.consume (WorkerPool.init 7 true) (WorkerPool.responses run_infeasible)
       (AgentWorker.new "agent-0" "scan A" 1 [])
       (WorkerPool.mkLoop "" false false false) w0).1.2 = true
  ∧ match WorkerPool._run_worker (WorkerPool.init 7 true)
            (AgentWorker.new "agent-0" "scan A" 1 []) run_infeasible w0 with
    | WorkerPool.Settled wk' _ _ => AgentWorker.status wk' = AgentStatus.COMPLETE
    | _ => False
    end.
Proof. split; reflexivity. Qed.

(** C7 at the failing input: the dependencies of the worker have failed and
    been cancelled, the worker is not held back and records RUNNING, its
    sandbox does not start, and the exception leaves the run with the record
    still at RUNNING. *)
Lemma settled_dependencies_never_abort_witness :
  WorkerPool._run_worker failed_dependencies.1 dependent run_sandbox_fails
    failed_dependencies.2
  = WorkerPool._run_worker (WorkerPool.set_tasks ∅ failed_dependencies.1)
      dependent run_sandbox_fails failed_dependencies.2
  ∧ ∃ wk' w',
      WorkerPool._run_worker failed_dependencies.1 dependent run_sandbox_fails
        failed_dependencies.2
      = WorkerPool.Escaped wk'
          "Failed to start Docker container: Cannot connect to the Docker daemon" w'
      ∧ AgentWorker.status wk' = AgentStatus.RUNNING
      ∧ writes_between
          (IntelligenceRegistry.worker_key
             (WorkerPool.project_id failed_dependencies.1) (AgentWorker.id dependent))
          failed_dependencies.2 w' ["running"].
Proof.
  apply (settled_dependencies_never_abort failed_dependencies.1 dependent
           run_sandbox_fails failed_dependencies.2).
  intros dep tk Hin _ Hl.
  apply list_elem_of_In in Hin. simpl in Hin.
  destruct Hin as [<-|[<-|[<-|[]]]]; vm_compute in Hl; inversion Hl; reflexivity.
Defined.

(** The task of that worker has ended with the exception, and the registry
    still says that the worker is running. *)
Lemma failed_sandbox_start_leaves_worker_running :
  let st := WorkerPool.run_task "agent-2" run_sandbox_fails failed_dependencies.1
              failed_dependencies.2 in
  WorkerPool._tasks st.1 !! "agent-2"
  = Some (WorkerPool.Done
            (WorkerPool.TaskRaised
               "Failed to start Docker container: Cannot connect to the Docker daemon"))
  ∧ (WorkerDict.status <$> WorkerPool.get_status "agent-2" st.1 st.2) = Some "running".
Proof. vm_compute. split; reflexivity. Qed.

(** With a sandbox that starts, the same worker runs to COMPLETE. *)
Lemma dependent_of_failed_workers_completes :
  let st := WorkerPool.run_task "agent-2" run_ok failed_dependencies.1
              failed_dependencies.2 in
  WorkerPool._tasks st.1 !! "agent-2" = Some (WorkerPool.Done WorkerPool.TaskReturned)
  ∧ (WorkerDict.status <$> WorkerPool.get_status "agent-2" st.1 st.2) = Some "complete".
Proof. vm_compute. split; reflexivity. Qed.

(** C8, the claim as stated fails: a second pool on the same project hands
    out the id of the settled worker again and writes PENDING to the record
    that holds COMPLETE. *)
Lemma new_pool_rewrites_a_settled_record :
  status_writes (IntelligenceRegistry.worker_key 7 "agent-0")
                (journal (cache second_pool.2))
  = ["pending"; "running"; "running"; "running"; "complete"; "pending"]
  ∧ ¬ monotonic (status_writes (IntelligenceRegistry.worker_key 7 "agent-0")
                               (journal (cache second_pool.2))).
Proof.
  assert (status_writes (IntelligenceRegistry.worker_key 7 "agent-0")
                        (journal (cache second_pool.2))
          = ["pending"; "running"; "running"; "running"; "complete"; "pending"]) as E
    by (vm_compute; reflexivity).
  split; [exact E|]. rewrite E. intros H.
  specialize (H 4%nat 5%nat "complete" "pending").
  discriminate H; [lia|reflexivity..].
Qed.

(** C9, the claim as stated fails: the tasks of the pool have settled, the
    directory is empty because the id list has expired, and the record of
    the worker is there before [reset] and after it. *)
Lemma unlisted_record_survives_reset :
  let p := record_outlives_list.1 in
  let w := record_outlives_list.2 in
  WorkerPool._tasks p = {[ "agent-0" := WorkerPool.Done WorkerPool.TaskReturned ]}
  ∧ WorkerPool.get_all_status p w = ∅
  ∧ WorkerPool.get_all_status (WorkerPool.reset p w).1 (WorkerPool.reset p w).2 = ∅
  ∧ (WorkerDict.status <$>
       WorkerPool.get_status "agent-0" (WorkerPool.reset p w).1 (WorkerPool.reset p w).2)
    = Some "complete"
  ∧ ¬ (∀ wid, WorkerPool.get_status wid (WorkerPool.reset p w).1 (WorkerPool.reset p w).2
              = None).
Proof.
  assert ((WorkerDict.status <$>
             WorkerPool.get_status "agent-0"
               (WorkerPool.reset record_outlives_list.1 record_outlives_list.2).1
               (WorkerPool.reset record_outlives_list.1 record_outlives_list.2).2)
          = Some "complete") as E by (vm_compute; reflexivity).
  split_and!; [vm_compute; reflexivity..|exact E|].
  intros H. rewrite (H "agent-0") in E. discriminate E.
Qed.

Lemma reset_restores_fresh_pool_witness :
  (WorkerPool.reset one_worker_settled.1 one_worker_settled.2).1 = WorkerPool.init 7 true
  ∧ WorkerPool.get_all_status
      (WorkerPool.reset one_worker_settled.1 one_worker_settled.2).1
      (WorkerPool.reset one_worker_settled.1 one_worker_settled.2).2 = ∅
  ∧ WorkerPool.get_status "agent-0"
      (WorkerPool.reset one_worker_settled.1 one_worker_settled.2).1
      (WorkerPool.reset one_worker_settled.1 one_worker_settled.2).2 = None.
Proof.
  pose proof (reset_restores_fresh_pool one_worker_settled.1 one_worker_settled.2)
    as H.
  destruct H as (H1 & _ & H3 & H4 & _).
  { apply map_Forall_to_list. vm_compute. repeat constructor. }
  split; [exact H1|]. split; [exact H3|].
  rewrite (H4 "agent-0"). vm_compute. reflexivity.
Defined.

(** C3, the claim as stated fails: two identical calls of a tool that
    raises, five seconds apart, both execute it. *)
Lemma failing_tool_is_executed_twice :
  let first := BaseAgent.run_tool_call digest get_tool agent whois_call w0 in
  let second := BaseAgent.run_tool_call digest get_tool agent whois_call
                  (elapse 5 first.2) in
  executions second.2
  = [("whois", ToolCall.arguments whois_call); ("whois", ToolCall.arguments whois_call)]
  ∧ second.1
    = Returned (ToolResult.mk "call-4" "whois" None (Some "timed out") false).
Proof. split; reflexivity. Qed.

Lemma scan_arguments_same_mapping :
  same_mapping (ToolCall.arguments scan_call) (ToolCall.arguments scan_call_again).
Proof.
  simpl. split_and!.
  - compute_done.
  - compute_done.
  - intros k. simpl. repeat case_decide; congruence.
Qed.

Lemma cached_tool_call_executes_nothing_witness :
  let first := BaseAgent.run_tool_call digest get_tool agent scan_call w0 in
  let w2 := elapse 600 first.2 in
  executions first.2 = [("port_scan", ToolCall.arguments scan_call)]
  ∧ IntelligenceRegistry.get_tool_result (clock w2)
      (BaseAgent.tool_hash digest agent scan_call_again w2) (cache w2)
    = Some "80/tcp open"
  ∧ (BaseAgent.run_tool_call digest get_tool agent scan_call_again w2).2 = w2.
Proof.
  pose proof (cached_tool_call_executes_nothing digest get_tool agent agent
                scan_call scan_call_again w0
                (elapse 600 (BaseAgent.run_tool_call digest get_tool agent scan_call w0).2)
                port_scan 3%nat "80/tcp open" tt
                eq_refl eq_refl eq_refl eq_refl eq_refl eq_refl
                scan_arguments_same_mapping eq_refl eq_refl eq_refl)
    as (H1 & H2 & H3 & _).
  split; [exact H1|]. split; [exact H2 | exact H3].
Defined.

Lemma empty_cached_result_is_executed_again_witness :
  let first := BaseAgent.run_tool_call digest get_tool agent ping_call w0 in
  let w2 := elapse 600 first.2 in
  IntelligenceRegistry.get_tool_result (clock w2)
    (BaseAgent.tool_hash digest agent ping_call w2) (cache w2) = Some ""
  ∧ executions (BaseAgent.run_tool_call digest get_tool agent ping_call w2).2
    = executions w2 ++ [("ping", ToolCall.arguments ping_call)].
Proof.
  assert (same_mapping (ToolCall.arguments ping_call) (ToolCall.arguments ping_call)) as Hm.
  { simpl. split_and!; [compute_done..|done]. }
  pose proof (empty_cached_result_is_executed_again digest get_tool agent agent
                ping_call ping_call w0
                (elapse 600 (BaseAgent.run_tool_call digest get_tool agent ping_call w0).2)
                ping 1%nat tt
                eq_refl eq_refl eq_refl eq_refl eq_refl Hm eq_refl eq_refl eq_refl)
    as (H1 & H2 & _).
  split; [exact H1 | exact H2].
Defined.

Lemma tool_results_appended_in_request_order_witness :
  ∃ tool_turns,
    CrewOrchestrator._messages
      (CrewOrchestrator.on_tool_calls json_loads crew_tools t2_first
         (LLMResponse.mk (Some "Scanning.") (Some three_calls) None) "" crew w0).1.2
    = CrewOrchestrator._messages crew
      ++ [[("role", JStr "assistant"); ("content", JStr "Scanning.")]]
      ++ [[("role", JStr "assistant"); ("content", JStr "Scanning.");
           ("tool_calls",
            JArr (map (CrewOrchestrator.tool_call_entry json_loads) three_calls))]]
      ++ tool_turns
    ∧ length tool_turns = 3%nat
    ∧ ∀ i tc, three_calls !! i = Some tc →
        ∃ ps0 (w0' : World unit),
          tool_turns !! i
          = Some [("role", JStr "tool");
                  ("tool_call_id", JStr (CrewOrchestrator.get_tc_id tc));
                  ("content",
                   JStr (ToolTurn.content
                           (CrewOrchestrator.call_tool json_loads crew_tools
                              tc ps0 w0').1.1.1))].
Proof.
  exact (tool_results_appended_in_request_order json_loads crew_tools t2_first
           (LLMResponse.mk (Some "Scanning.") (Some three_calls) None) "" crew w0
           (WorkerPool.init 7 false) eq_refl).
Defined.

(** The three coroutines are started in the order of the request and, with
    their turns as [t2_first] gives them, return in the order T2, T3, T1:
    the tools were executed and their results broadcast in that order, and
    the transcript lists the results of T1, T2, T3. *)
Lemma completion_order_differs_from_transcript_order :
  let st := CrewOrchestrator.on_tool_calls json_loads crew_tools t2_first
              (LLMResponse.mk (Some "Scanning.") (Some three_calls) None) "" crew w0 in
  drop 3 (CrewOrchestrator._messages st.1.2)
  = [[("role", JStr "tool"); ("tool_call_id", JStr "T1"); ("content", JStr "scan done")];
     [("role", JStr "tool"); ("tool_call_id", JStr "T2");
      ("content", JStr "Error: no route")];
     [("role", JStr "tool"); ("tool_call_id", JStr "T3");
      ("content", JStr "Unknown tool: traceroute")]]
  ∧ executions st.2 = [("dig", JObj []); ("nmap", JObj [])]
  ∧ omap (fun b => match b with
                    | JObj fields =>
                        if get_is "phase" "tool_call" fields then assoc_get "tool" fields
                        else None
                    | _ => None
                    end) (broadcasts st.2)
    = [JStr "nmap"; JStr "dig"; JStr "traceroute"]
  ∧ omap (fun b => match b with
                    | JObj fields =>
                        if get_is "phase" "tool_result" fields then assoc_get "tool" fields
                        else None
                    | _ => None
                    end) (broadcasts st.2)
    = [JStr "dig"; JStr "nmap"].
Proof. vm_compute. split_and!; reflexivity. Qed.

(** C5, the claim as stated fails: the registry still holds a worker of the
    project from an earlier run; this run spawns none, the model answers with
    plain text, and the report is what the finish tool returned. *)
Lemma stale_registry_record_forces_finish :
  let st := CrewOrchestrator.run json_loads 5 crew_tools text_only fixed_prompt
              no_background t2_first "Assess the target." idle_crew
              one_worker_settled.2 in
  (WorkerPool._next_id <$> CrewOrchestrator.pool st.1.2) = Some 0%nat
  ∧ (WorkerPool._tasks <$> CrewOrchestrator.pool st.1.2) = Some ∅
  ∧ last st.1.1
    = Some (JObj [("phase", JStr "complete");
                  ("report", JStr "Synthesis of the workers' results.")])
  ∧ last st.1.1
    ≠ Some (JObj [("phase", JStr "complete"); ("report", JStr "Nothing to do.")]).
Proof. vm_compute. split_and!; [reflexivity..|discriminate]. Qed.

Lemma text_turn_finishes_by_registry_directory_witness :
  let response : LLMResponse.t RawToolCall.t :=
    LLMResponse.mk (Some "Nothing to do.") None None in
  let w := one_worker_settled.2 in
  let p := WorkerPool.init 7 false in
  let content := default "" (LLMResponse.content response) in
  let '(yields, final_report', flow, o', w') :=
    CrewOrchestrator.on_no_tool_calls crew_tools response "" crew w in
  match WorkerPool.get_workers p w with
  | Some [] =>
      final_report' = content ∧ flow = CrewOrchestrator.Break
      ∧ executions w' = executions w
  | Some (_ :: _) =>
      match CrewOrchestrator.find_tool crew_tools "finish" with
      | Some finish_tool =>
          let call :=
            CrewTool.execute finish_tool (JObj [("context", JStr content)])
              (p, CrewOrchestrator.finish_tokens crew)
              (log_execution "finish" (JObj [("context", JStr content)])
                 (CrewOrchestrator.broadcast crew
                    (JObj [("phase", JStr "thinking");
                           ("content", JStr content)]) w)) in
          flow = CrewOrchestrator.Break
          ∧ final_report' = match call.1.1.2 with
                            | Returned report => report
                            | Raised _ => ""
                            end
          ∧ executions w' = executions call.2
      | None =>
          final_report' = content ∧ flow = CrewOrchestrator.Break
          ∧ executions w' = executions w
      end
  | None => flow = CrewOrchestrator.Throw "ValueError"
  end.
Proof.
  exact (text_turn_finishes_by_registry_directory crew_tools
           (LLMResponse.mk (Some "Nothing to do.") None None) "" crew
           one_worker_settled.2 (WorkerPool.init 7 false) eq_refl).
Defined.

(** In that state the turn takes the finish branch. *)
Lemma text_turn_with_stale_record_takes_finish :
  let st := CrewOrchestrator.on_no_tool_calls crew_tools
              (LLMResponse.mk (Some "Nothing to do.") None None) "" crew
              one_worker_settled.2 in
  st.1.1.1.2 = "Synthesis of the workers' results."
  ∧ st.1.1.2 = CrewOrchestrator.Break.
Proof. vm_compute. split; reflexivity. Qed.

End Examples.


(** ** Further examples *)

Module MoreExamples.
Import Scenario MoreScenarios.

Lemma relisted_worker_outlives_the_id_list_witness :
  IntelligenceRegistry.get_worker 4000 7 "agent-0"
    (IntelligenceRegistry.set_worker 3000 7 "agent-0" scan_record 3600 registered_at_0)
  = Some scan_record
  ∧ IntelligenceRegistry.get_all_workers 4000 7
      (IntelligenceRegistry.set_worker 3000 7 "agent-0" scan_record 3600 registered_at_0)
    = ∅.
Proof.
  apply (relisted_worker_outlives_the_id_list 3000 4000 7 "agent-0" scan_record 3600
           registered_at_0 ["agent-0"] 3600).
  - vm_compute. reflexivity.
  - apply list_elem_of_here.
  - lia.
  - lia.
  - lia.
Defined.

Lemma tool_hash_ignores_argument_order_witness :
  json_dumps true (JObj target_first) = json_dumps true (JObj ports_first)
  ∧ IntelligenceRegistry.generate_tool_hash digest "ReconAgentAgent" "port_scan"
      (JObj target_first) "You are a penetration tester."
    = IntelligenceRegistry.generate_tool_hash digest "ReconAgentAgent" "port_scan"
        (JObj ports_first) "You are a penetration tester.".
Proof.
  apply (tool_hash_ignores_argument_order digest "ReconAgentAgent" "port_scan"
           target_first ports_first "You are a penetration tester.").
  - compute_done.
  - apply perm_swap.
Defined.

Lemma iteration_bound_ends_the_loop_silently_witness :
  let '(msgs, ending, a', w') :=
    BaseAgent.run digest get_tool "Is the host up?" pinging_agent w0 in
  (ending = BaseAgent.Exhausted ∨ ending = BaseAgent.Failed BaseAgent.logger_unbound)
  ∧ (length (filter (fun m => AgentMessage.role m = "assistant") msgs)
     ≤ BaseAgent.max_iterations pinging_agent)%nat
  ∧ (ending = BaseAgent.Exhausted →
     length (filter (fun m => AgentMessage.role m = "assistant") msgs)
     = BaseAgent.max_iterations pinging_agent
     ∧ ∃ m, last msgs = Some m
            ∧ AgentMessage.role m = "tool_result"
            ∧ AgentMessage.metadata m = Metadata.empty).
Proof.
  refine (iteration_bound_ends_the_loop_silently digest get_tool "Is the host up?"
            pinging_agent w0 _ _).
  - intros prompt history. exists 1%nat, ping_again. split; reflexivity.
  - discriminate.
Defined.

(** The ping returns the empty string, which never counts as a cached
    result: the run of [pinging_agent] goes to the bound. *)
Lemma pinging_agent_runs_to_the_bound :
  let '(msgs, ending, a', w') :=
    BaseAgent.run digest get_tool "Is the host up?" pinging_agent w0 in
  ending = BaseAgent.Exhausted
  ∧ AgentMessage.role <$> msgs
    = ["assistant"; "tool_result"; "assistant"; "tool_result"; "assistant"; "tool_result"]
  ∧ length (executions w') = 3%nat.
Proof. vm_compute. split_and!; reflexivity. Qed.

(** The port scan returns a result, which the second turn finds in the
    cache: the run of [rescanning_agent] ends there with the exception,
    after one execution and before the second call is answered. *)
Lemma repeated_scan_ends_in_name_error :
  let '(msgs, ending, a', w') :=
    BaseAgent.run digest get_tool "Scan 10.0.0.5" rescanning_agent w0 in
  ending = BaseAgent.Failed "name 'logger' is not defined"
  ∧ AgentMessage.role <$> msgs = ["assistant"; "tool_result"; "assistant"]
  ∧ executions w' = [("port_scan", ToolCall.arguments scan_call)].
Proof. vm_compute. split_and!; reflexivity. Qed.

Lemma exception_in_agent_loop_is_recorded_witness :
  ∃ wk' w',
    WorkerPool._run_worker pool7 scan_worker run_raises w0
    = WorkerPool.Settled wk' WorkerPool.TaskReturned w'
    ∧ AgentWorker.status wk' = AgentStatus.ERROR
    ∧ AgentWorker.error wk' = Some "connection reset"
    ∧ AgentWorker.result wk' = AgentWorker.result scan_worker
    ∧ AgentWorker.completed_at wk' = Some (clock w')
    ∧ WorkerPool.get_status (AgentWorker.id scan_worker) pool7 w'
      = Some (AgentWorker.to_dict wk')
    ∧ WorkerPool.get_all_status pool7 w' !! AgentWorker.id scan_worker
      = Some (AgentWorker.to_dict wk').
Proof.
  exact (exception_in_agent_loop_is_recorded pool7 scan_worker run_raises w0
           "connection reset" eq_refl eq_refl).
Defined.

Lemma finished_run_result_witness :
  ∃ wk' w' r,
    WorkerPool._run_worker pool7 scan_worker run_two_answers w0
    = WorkerPool.Settled wk' WorkerPool.TaskReturned w'
    ∧ AgentWorker.result wk' = Some r
    ∧ r ≠ ""
    ∧ r = default "No findings."
            (last (omap final_text_of (WorkerPool.responses run_two_answers).*2))
    ∧ WorkerPool.get_status (AgentWorker.id scan_worker) pool7 w'
      = Some (AgentWorker.to_dict wk')
    ∧ WorkerPoolMore.get_results pool7 w' !! AgentWorker.id scan_worker = Some r.
Proof.
  exact (finished_run_result pool7 scan_worker run_two_answers w0
           eq_refl eq_refl eq_refl).
Defined.

(** The result of that run is its last answer. *)
Lemma result_of_two_answers :
  WorkerPoolMore.get_results pool7
    (WorkerPool.run_task "agent-0" run_two_answers
       (WorkerPool.set_tasks {[ "agent-0" := WorkerPool.Scheduled scan_worker ]} pool7)
       w0).2
  = {[ "agent-0" := "Ports 22 and 80 are open." ]}.
Proof. vm_compute. reflexivity. Qed.

Lemma cancelled_run_is_not_recorded_witness :
  ∃ wk' w' d expires,
    WorkerPool._run_worker pool7 scan_worker run_cancelled w0
    = WorkerPool.Settled wk' WorkerPool.TaskCancelled w'
    ∧ AgentWorker.status wk' = AgentStatus.CANCELLED
    ∧ AgentWorker.completed_at wk' = Some (clock w')
    ∧ entries (cache w')
        !! IntelligenceRegistry.worker_key (WorkerPool.project_id pool7)
             (AgentWorker.id scan_worker)
      = Some (VDict d, expires)
    ∧ WorkerDict.status d = "running"
    ∧ WorkerDict.completed_at d = AgentWorker.completed_at scan_worker
    ∧ WorkerDict.tools_used d = AgentWorker.tools_used wk'.
Proof.
  exact (cancelled_run_is_not_recorded pool7 scan_worker run_cancelled w0
           eq_refl eq_refl).
Defined.

Lemma tools_used_lists_each_tool_once_witness :
  ∃ more,
    AgentWorker.tools_used cancelled_worker = AgentWorker.tools_used scan_worker ++ more
    ∧ (NoDup (AgentWorker.tools_used scan_worker)
       → NoDup (AgentWorker.tools_used cancelled_worker))
    ∧ ∀ n, n ∈ AgentWorker.tools_used cancelled_worker
           ↔ n ∈ AgentWorker.tools_used scan_worker
             ∨ ∃ m, m ∈ (WorkerPool.responses run_cancelled).*2 ∧ n ∈ called_tools m.
Proof.
  refine (tools_used_lists_each_tool_once pool7 scan_worker run_cancelled w0
            cancelled_worker WorkerPool.TaskCancelled cancelled_world _).
  vm_compute. reflexivity.
Defined.

Lemma run_events_are_bracketed_witness :
  ∃ mid last_event,
    events cancelled_world
    = events w0
      ++ (AgentWorker.id scan_worker, "status", JObj [("status", JStr "running")])
         :: mid ++ [last_event]
    ∧ Forall (worker_event (AgentWorker.id scan_worker) ["tool"; "tokens"]) mid
    ∧ last_event.1.1 = AgentWorker.id scan_worker
    ∧ (snd (WorkerPool.ending run_cancelled) = WorkerPool.LoopExhausted →
       opt_list_truthy (WorkerPool.plan run_cancelled) = false →
       last_event.1.2 = "complete")
    ∧ (∀ e, snd (WorkerPool.ending run_cancelled) = WorkerPool.LoopRaised e →
            last_event.1.2 = "error")
    ∧ (snd (WorkerPool.ending run_cancelled) = WorkerPool.LoopCancelled →
       last_event.1.2 = "cancelled").
Proof.
  refine (run_events_are_bracketed pool7 scan_worker run_cancelled w0
            cancelled_worker WorkerPool.TaskCancelled cancelled_world _ _).
  - reflexivity.
  - vm_compute. reflexivity.
Defined.

(** The events of the cancelled run. *)
Lemma events_of_the_cancelled_run :
  (fun ev => ev.1.2) <$> events cancelled_world
  = ["status"; "tool"; "tool"; "tokens"; "cancelled"].
Proof. vm_compute. reflexivity. Qed.

Lemma agent_loop_sets_no_flag_and_counts_no_tokens_witness :
  let '(wk', st', w') :=
    WorkerPool.consume pool7 scanning_responses scan_worker
      (WorkerPool.mkLoop "" false false false) w0 in
  WorkerPool.hit_max_iterations st'
  = WorkerPool.hit_max_iterations (WorkerPool.mkLoop "" false false false)
  ∧ WorkerPool.is_infeasible st'
    = WorkerPool.is_infeasible (WorkerPool.mkLoop "" false false false)
  ∧ ∃ evs, events w' = events w0 ++ evs
           ∧ Forall (worker_event (AgentWorker.id scan_worker) ["tool"]) evs.
Proof.
  refine (agent_loop_sets_no_flag_and_counts_no_tokens digest get_tool "Scan 10.0.0.5"
            scanning_agent w0 pool7 scanning_responses scan_worker
            (WorkerPool.mkLoop "" false false false) w0 _).
  vm_compute. reflexivity.
Defined.

Lemma cancel_all_settles_the_pool_witness :
  WorkerPool._tasks (WorkerPool.cancel_all one_of_two_settled.1) !! "agent-0"
  = Some (WorkerPool.Done WorkerPool.TaskReturned)
  ∧ WorkerPool._tasks (WorkerPool.cancel_all one_of_two_settled.1) !! "agent-1"
    = Some (WorkerPool.Done WorkerPool.TaskCancelled)
  ∧ WorkerPool.run_task "agent-1" run_ok (WorkerPool.cancel_all one_of_two_settled.1)
      one_of_two_settled.2
    = (WorkerPool.cancel_all one_of_two_settled.1, one_of_two_settled.2)
  ∧ WorkerPool.wait_for None (WorkerPool.cancel_all one_of_two_settled.1)
      one_of_two_settled.2 ≠ None.
Proof.
  pose proof (cancel_all_settles_the_pool one_of_two_settled.1 one_of_two_settled.2)
    as H.
  destruct H as (H1 & _ & H3 & H4).
  { intros wid wk Hl.
    destruct (decide (wid = "agent-1")) as [->|Hne].
    - vm_compute in Hl. by injection Hl as <-.
    - exfalso. revert Hl.
      assert (WorkerPool._tasks one_of_two_settled.1
              = <["agent-0" := WorkerPool.Done WorkerPool.TaskReturned]>
                  (<["agent-1" := WorkerPool.Scheduled
                                    (AgentWorker.new "agent-1" "scan B" 1 [])]> ∅)) as ->.
      { apply map_eq. intros i. vm_compute. reflexivity. }
      destruct (decide (wid = "agent-0")) as [->|Hne0].
      + by rewrite lookup_insert_eq.
      + by rewrite !lookup_insert_ne. }
  split_and!.
  - rewrite H1. vm_compute. reflexivity.
  - rewrite H1. vm_compute. reflexivity.
  - apply H3.
  - apply H4.
Defined.

Lemma mutually_dependent_workers_never_run_witness :
  let p' := (PoolOp.exec_all
               [PoolOp.Turn "agent-0" run_ok; PoolOp.Elapse 5;
                PoolOp.Turn "agent-1" run_ok; PoolOp.Turn "agent-0" run_ok]
               (deadlocked.1, deadlocked.2)).1 in
  WorkerPool._tasks p' !! "agent-0" = Some (WorkerPool.Scheduled waits_for_b)
  ∧ WorkerPool._tasks p' !! "agent-1" = Some (WorkerPool.Scheduled waits_for_a).
Proof.
  refine (mutually_dependent_workers_never_run "agent-0" "agent-1" waits_for_b waits_for_a
            deadlocked.1 deadlocked.2
            [PoolOp.Turn "agent-0" run_ok; PoolOp.Elapse 5;
             PoolOp.Turn "agent-1" run_ok; PoolOp.Turn "agent-0" run_ok]
            _ _ _ _ _ _ _ _).
  - discriminate.
  - vm_compute. reflexivity.
  - vm_compute. reflexivity.
  - reflexivity.
  - reflexivity.
  - reflexivity.
  - reflexivity.
  - repeat (apply Forall_cons_2; [exact I|]). apply Forall_nil_2.
Defined.

Lemma iteration_bound_ends_the_run_complete_witness :
  let '(yields, o', w') :=
    CrewOrchestrator.run json_loads 3 scanners_only nmap_again fixed_prompt
      no_background in_request_order "Map the network" idle_crew w0 in
  CrewOrchestrator.state o' = CrewState.COMPLETE
  ∧ last yields = Some (JObj [("phase", JStr "complete"); ("report", JStr "")])
  ∧ tool_call_turns (CrewOrchestrator._messages o') = 3%nat.
Proof.
  refine (iteration_bound_ends_the_run_complete json_loads 3 scanners_only nmap_again
            fixed_prompt no_background in_request_order "Map the network" idle_crew w0
            _ _).
  - intros prompt messages. eexists _, _. split; reflexivity.
  - vm_compute. reflexivity.
Defined.

End MoreExamples.
